(** * inference-benchmark: streaming metrics, result aggregation and the
      agent-race sequencer, embedded from the TypeScript sources.

    Conventions of the embedding.
    - A JavaScript string is the list of its UTF-16 code units ([jsstring]);
      [str] turns an ASCII literal into one.
    - A JavaScript number is an exact rational ([Q]); every division of the
      sources is by a constant or sits behind a guard that excludes zero.
      Integer-valued results of [Math.round], [Math.ceil] and [Math.floor]
      are kept in [Z].
    - [performance.now()] and [Math.random()] are read from an oracle
      stream through a small state monad that counts the readings.
    - [T | null] and optional fields are [option T]; the truthiness tests
      of the sources are written out ([truthy_num], [truthy_str]). *)

From Stdlib Require Import List ZArith NArith QArith Qround Lia Lqa.
From Stdlib Require Import String Ascii Bool Permutation Sorted.
Import ListNotations.

Set Implicit Arguments.
Set Warnings "-register-all".

(* ------------------------------------------------------------------ *)
(** ** JavaScript values *)

Module Js.

(** UTF-16 code units. *)
Definition jsstring := list N.

Definition str (s : string) : jsstring :=
  List.map N_of_ascii (list_ascii_of_string s).

Definition jsstring_eqb (a b : jsstring) : bool :=
  if list_eq_dec N.eq_dec a b then true else false.

(** [ToBoolean] on a number: only zero is falsy (there is no NaN in [Q]). *)
Definition truthy_num (x : Q) : bool := negb (Qeq_bool x 0).

(** [ToBoolean] on a string: only the empty string is falsy. *)
Definition truthy_str (s : jsstring) : bool :=
  match s with [] => false | _ :: _ => true end.

(** [ToBoolean] on a nullable or optional value. *)
Definition truthy_opt {A} (t : A -> bool) (o : option A) : bool :=
  match o with Some a => t a | None => false end.

(** [Math.round]: nearest integer, ties towards +infinity. *)
Definition Math_round (x : Q) : Z := Qfloor (x + (1 # 2)).

(** [Math.ceil] and [Math.floor]. *)
Definition Math_ceil (x : Q) : Z := Qceiling x.
Definition Math_floor (x : Q) : Z := Qfloor x.

(** Strict comparison [a > b] on numbers. *)
Definition Qgtb (a b : Q) : bool := negb (Qle_bool a b).

(** A thrown value: an [Error] instance with its message, or anything
    else, kept with its [String(...)] rendering. *)
Inductive thrown :=
| ThrownError (message : jsstring)
| ThrownOther (rendered : jsstring).

End Js.
Import Js.

(* ------------------------------------------------------------------ *)
(** ** Oracle readings: the clock and the random source *)

Module Oracle.

(** A computation that consumes readings of an oracle stream; the state
    is the number of readings taken so far. *)
Definition M (A : Type) := nat -> A * nat.

Definition ret {A} (a : A) : M A := fun n => (a, n).

Definition bind {A B} (c : M A) (k : A -> M B) : M B :=
  fun n => let (a, n') := c n in k a n'.

(** The next reading of the stream [o]. *)
Definition next (o : nat -> Q) : M Q := fun n => (o n, S n).

Definition run {A} (c : M A) (n : nat) : A := fst (c n).

End Oracle.

Notation "x <- c ;; k" := (Oracle.bind c (fun x => k))
  (at level 61, c at next level, right associativity).

(* ------------------------------------------------------------------ *)
(** ** src/lib/config.ts and src/lib/types.ts *)

Module DEFAULTS.
Definition MAX_TOKENS : Z := 256.
Definition CHARS_PER_TOKEN : Z := 4.
Definition TOKEN_THRESHOLD_FOR_METRICS : Z := 100.
End DEFAULTS.

Record BenchmarkResult := mkResult {
  provider : jsstring;
  model : jsstring;
  ttft_ms : Q;
  tokens_per_second : Q;
  total_latency_ms : Q;
  token_count : Z;
  time_to_100_tokens_ms : option Q;
  throughput_first_100 : option Q;
  error : option jsstring
}.

(* ------------------------------------------------------------------ *)
(** ** src/lib/benchmark-utils.ts *)

Record StreamMetrics := mkMetrics {
  startTime : Q;
  firstTokenTime : option Q;
  timeToHundredTokens : option Q;
  tokenCount : Z;
  fullResponse : jsstring
}.

Record CalculatedMetrics := mkCalculated {
  ttftMs : Q;
  totalLatencyMs : Q;
  tokensPerSecond : Q;
  throughputFirst100 : option Q
}.

Definition estimateTokenCount (text : jsstring) : Z :=
  Math_ceil (inject_Z (Z.of_nat (List.length text))
             / inject_Z DEFAULTS.CHARS_PER_TOKEN).

Definition roundToOneDecimal (value : Q) : Q :=
  inject_Z (Math_round (value * 10)) / 10.

Section Utils.

(** [clock n] is the [n]-th reading of [performance.now()]. *)
Variable clock : nat -> Q.

Definition now : Oracle.M Q := Oracle.next clock.

Definition createStreamMetrics : Oracle.M StreamMetrics :=
  t <- now ;;
  Oracle.ret (mkMetrics t None None 0 []).

Definition updateMetrics (metrics : StreamMetrics) (content : jsstring)
  : Oracle.M StreamMetrics :=
  first <- match firstTokenTime metrics with
           | None => t <- now ;; Oracle.ret (Some t)
           | Some t => Oracle.ret (Some t)
           end ;;
  let full := fullResponse metrics ++ content in
  let count := estimateTokenCount full in
  hundred <- (if (DEFAULTS.TOKEN_THRESHOLD_FOR_METRICS <=? count)%Z then
                match timeToHundredTokens metrics with
                | None => t <- now ;; Oracle.ret (Some (t - startTime metrics))
                | Some d => Oracle.ret (Some d)
                end
              else Oracle.ret (timeToHundredTokens metrics)) ;;
  Oracle.ret (mkMetrics (startTime metrics) first hundred count full).

Definition calculateBenchmarkMetrics (metrics : StreamMetrics)
  : Oracle.M CalculatedMetrics :=
  endTime <- now ;;
  let ttft :=
    match firstTokenTime metrics with
    | Some f => if truthy_num f then f - startTime metrics
                else endTime - startTime metrics
    | None => endTime - startTime metrics
    end in
  let total := endTime - startTime metrics in
  let tps :=
    if (0 <? tokenCount metrics)%Z && Qgtb total 0
    then (inject_Z (tokenCount metrics) / total) * 1000
    else 0 in
  let first100 :=
    match timeToHundredTokens metrics with
    | Some d => if truthy_num d
                then Some (inject_Z DEFAULTS.TOKEN_THRESHOLD_FOR_METRICS
                           / (d / 1000))
                else None
    | None => None
    end in
  Oracle.ret (mkCalculated ttft total tps first100).

Definition buildSuccessResult (provider model : jsstring)
  (metrics : StreamMetrics) : Oracle.M BenchmarkResult :=
  calculated <- calculateBenchmarkMetrics metrics ;;
  Oracle.ret
    (mkResult provider model
       (inject_Z (Math_round (ttftMs calculated)))
       (roundToOneDecimal (tokensPerSecond calculated))
       (inject_Z (Math_round (totalLatencyMs calculated)))
       (tokenCount metrics)
       (match timeToHundredTokens metrics with
        | Some d => if truthy_num d then Some (inject_Z (Math_round d))
                    else None
        | None => None
        end)
       (match throughputFirst100 calculated with
        | Some x => if truthy_num x then Some (roundToOneDecimal x)
                    else None
        | None => None
        end)
       None).

Definition errorMessage (fallback : jsstring) (e : thrown) : jsstring :=
  match e with
  | ThrownError message => message
  | ThrownOther _ => fallback
  end.

Definition buildErrorResult (provider model : jsstring) (e : thrown)
  (start : Q) : Oracle.M BenchmarkResult :=
  t <- now ;;
  let totalLatency := t - start in
  Oracle.ret
    (mkResult provider model 0 0
       (inject_Z (Math_round totalLatency)) 0 None None
       (Some (errorMessage (str "Unknown error") e))).

End Utils.

(* ------------------------------------------------------------------ *)
(** ** The platform's [JSON.parse] and property access on its results *)

Module Json.

(** A parsed value. A number keeps the exact value of its decimal
    literal: the rounding of doubles, with overflow to infinity and
    underflow to zero, is not modelled. The members of an object are kept
    in source order, duplicates included. *)
Inductive value :=
| JNull
| JBool (b : bool)
| JNumber (n : Q)
| JString (s : jsstring)
| JArray (items : list value)
| JObject (members : list (jsstring * value)).

(** Outcome of an evaluation that may throw. *)
Inductive completion (A : Type) :=
| Normal (a : A)
| Throw (e : thrown).
Arguments Normal {A} a.
Arguments Throw {A} e.

(** Result of a parsing step: a value with the unread input, a syntax
    error, or exhaustion of the recursion budget. *)
Inductive presult (A : Type) :=
| POk (a : A) (rest : jsstring)
| PSyntax
| PFuel.
Arguments POk {A} a rest.
Arguments PSyntax {A}.
Arguments PFuel {A}.

(** JSON whitespace: tab, line feed, carriage return, space. *)
Definition is_json_ws (c : N) : bool :=
  ((c =? 9) || (c =? 10) || (c =? 13) || (c =? 32))%N.

Fixpoint skip_ws (s : jsstring) : jsstring :=
  match s with
  | c :: r => if is_json_ws c then skip_ws r else s
  | [] => []
  end.

Fixpoint strip_prefix (p s : jsstring) : option jsstring :=
  match p, s with
  | [], _ => Some s
  | a :: p', b :: s' => if (a =? b)%N then strip_prefix p' s' else None
  | _ :: _, [] => None
  end.

Definition is_digit (c : N) : bool := ((48 <=? c) && (c <=? 57))%N.

Definition hex_digit (c : N) : option N :=
  if ((48 <=? c) && (c <=? 57))%N then Some (c - 48)%N
  else if ((65 <=? c) && (c <=? 70))%N then Some (c - 55)%N
  else if ((97 <=? c) && (c <=? 102))%N then Some (c - 87)%N
  else None.

Definition hex4 (a b c d : N) : option N :=
  match hex_digit a, hex_digit b, hex_digit c, hex_digit d with
  | Some x, Some y, Some z, Some w =>
      Some (((x * 16 + y) * 16 + z) * 16 + w)%N
  | _, _, _, _ => None
  end.

(** The single-character escapes of a JSON string. *)
Definition simple_escape (c : N) : option N :=
  if (c =? 34)%N then Some 34%N          (* quote *)
  else if (c =? 92)%N then Some 92%N     (* backslash *)
  else if (c =? 47)%N then Some 47%N     (* slash *)
  else if (c =? 98)%N then Some 8%N      (* b *)
  else if (c =? 102)%N then Some 12%N    (* f *)
  else if (c =? 110)%N then Some 10%N    (* n *)
  else if (c =? 114)%N then Some 13%N    (* r *)
  else if (c =? 116)%N then Some 9%N     (* t *)
  else None.

(** The characters of a string literal after its opening quote, with the
    input that follows the closing quote; [None] is a syntax error. *)
Fixpoint parse_string_body (s acc : jsstring)
  : option (jsstring * jsstring) :=
  match s with
  | [] => None
  | c :: r =>
      if (c =? 34)%N then Some (rev acc, r)
      else if (c =? 92)%N then
        match r with
        | [] => None
        | e :: r1 =>
            if (e =? 117)%N then
              match r1 with
              | a :: b :: c' :: d :: r2 =>
                  match hex4 a b c' d with
                  | Some u => parse_string_body r2 (u :: acc)
                  | None => None
                  end
              | _ => None
              end
            else
              match simple_escape e with
              | Some u => parse_string_body r1 (u :: acc)
              | None => None
              end
        end
      else if (c <? 32)%N then None
      else parse_string_body r (c :: acc)
  end.

Fixpoint read_digits (s : jsstring) : list N * jsstring :=
  match s with
  | c :: r =>
      if is_digit c then let (ds, rest) := read_digits r in (c :: ds, rest)
      else ([], s)
  | [] => ([], [])
  end.

Definition digits_value (ds : list N) : Z :=
  fold_left (fun acc d => (acc * 10 + Z.of_N (d - 48))%Z) ds 0%Z.

(** The integer part: a lone zero, or digits that do not start with zero. *)
Definition read_int (s : jsstring) : option (list N * jsstring) :=
  match s with
  | c :: r =>
      if (c =? 48)%N then Some ([c], r)
      else if is_digit c then Some (read_digits s)
      else None
  | [] => None
  end.

(** The optional fraction: a point and at least one digit. *)
Definition read_frac (s : jsstring) : option (list N * jsstring) :=
  match s with
  | c :: r =>
      if (c =? 46)%N then
        match read_digits r with
        | ([], _) => None
        | (d :: ds, rest) => Some (d :: ds, rest)
        end
      else Some ([], s)
  | [] => Some ([], [])
  end.

(** An optional sign: whether it is a minus, and the input after it. *)
Definition read_sign (s : jsstring) : bool * jsstring :=
  match s with
  | g :: r =>
      if (g =? 45)%N then (true, r)
      else if (g =? 43)%N then (false, r)
      else (false, s)
  | [] => (false, [])
  end.

(** The optional exponent: e or E, an optional sign, at least one digit. *)
Definition read_exp (s : jsstring) : option (Z * jsstring) :=
  match s with
  | c :: r =>
      if ((c =? 101) || (c =? 69))%N then
        let (neg, r1) := read_sign r in
        match read_digits r1 with
        | ([], _) => None
        | (d :: ds, rest) =>
            Some (if neg then (- digits_value (d :: ds))%Z
                  else digits_value (d :: ds), rest)
        end
      else Some (0%Z, s)
  | [] => Some (0%Z, [])
  end.

Definition parse_number (s : jsstring) : option (Q * jsstring) :=
  let (neg, s1) :=
    match s with
    | c :: r => if (c =? 45)%N then (true, r) else (false, s)
    | [] => (false, [])
    end in
  match read_int s1 with
  | Some (ip, s2) =>
      match read_frac s2 with
      | Some (fp, s3) =>
          match read_exp s3 with
          | Some (e, s4) =>
              let mant := inject_Z (digits_value (ip ++ fp)) in
              let scale :=
                Qpower (inject_Z 10) (e - Z.of_nat (List.length fp)) in
              Some (if neg then - (mant * scale) else mant * scale, s4)
          | None => None
          end
      | None => None
      end
  | None => None
  end.

Definition starts_with_char (c : N) (s : jsstring) : option jsstring :=
  match s with
  | d :: r => if (c =? d)%N then Some r else None
  | [] => None
  end.

(** Recursive descent over values, array elements and object members;
    [fuel] bounds the number of nested and sequenced calls. *)
Fixpoint parse_value (fuel : nat) (s : jsstring) : presult value :=
  match fuel with
  | O => PFuel
  | S f =>
      let s := skip_ws s in
      match s with
      | [] => PSyntax
      | c :: r =>
          if (c =? 123)%N then                              (* { *)
            match starts_with_char 125 (skip_ws r) with       (* } *)
            | Some r' => POk (JObject []) r'
            | None => parse_members f (skip_ws r) []
            end
          else if (c =? 91)%N then                          (* [ *)
            match starts_with_char 93 (skip_ws r) with        (* ] *)
            | Some r' => POk (JArray []) r'
            | None => parse_elements f r []
            end
          else if (c =? 34)%N then
            match parse_string_body r [] with
            | Some (text, r') => POk (JString text) r'
            | None => PSyntax
            end
          else if (c =? 45)%N || is_digit c then
            match parse_number s with
            | Some (n, r') => POk (JNumber n) r'
            | None => PSyntax
            end
          else
            match strip_prefix (str "null") s with
            | Some r' => POk JNull r'
            | None =>
                match strip_prefix (str "true") s with
                | Some r' => POk (JBool true) r'
                | None =>
                    match strip_prefix (str "false") s with
                    | Some r' => POk (JBool false) r'
                    | None => PSyntax
                    end
                end
            end
      end
  end

with parse_elements (fuel : nat) (s : jsstring) (acc : list value)
  : presult value :=
  match fuel with
  | O => PFuel
  | S f =>
      match parse_value f s with
      | POk v r =>
          match skip_ws r with
          | c :: r' =>
              if (c =? 44)%N then parse_elements f r' (v :: acc)
              else if (c =? 93)%N then POk (JArray (rev (v :: acc))) r'
              else PSyntax
          | [] => PSyntax
          end
      | PSyntax => PSyntax
      | PFuel => PFuel
      end
  end

with parse_members (fuel : nat) (s : jsstring)
  (acc : list (jsstring * value)) : presult value :=
  match fuel with
  | O => PFuel
  | S f =>
      match starts_with_char 34 s with
      | None => PSyntax
      | Some r0 =>
          match parse_string_body r0 [] with
          | Some (key, r1) =>
              match starts_with_char 58 (skip_ws r1) with     (* : *)
              | None => PSyntax
              | Some r2 =>
                  match parse_value f r2 with
                  | POk v r3 =>
                      match skip_ws r3 with
                      | c :: r4 =>
                          if (c =? 44)%N then
                            parse_members f (skip_ws r4) ((key, v) :: acc)
                          else if (c =? 125)%N then
                            POk (JObject (rev ((key, v) :: acc))) r4
                          else PSyntax
                      | [] => PSyntax
                      end
                  | PSyntax => PSyntax
                  | PFuel => PFuel
                  end
              end
          | None => PSyntax
          end
      end
  end.

Definition parse_fuel (text : jsstring) : nat := 2 * List.length text + 2.

(** [JSON.parse(text)]: one value, surrounded by optional whitespace. Any
    failure is a [SyntaxError]. *)
Definition JSON_parse (text : jsstring) : completion value :=
  match parse_value (parse_fuel text) text with
  | POk v rest =>
      match skip_ws rest with
      | [] => Normal v
      | _ :: _ => Throw (ThrownError (str "Unexpected token in JSON"))
      end
  | PSyntax => Throw (ThrownError (str "Unexpected token in JSON"))
  | PFuel => Throw (ThrownError (str "Unexpected token in JSON"))
  end.

(** [ToBoolean] on a parsed value. *)
Definition truthy (v : value) : bool :=
  match v with
  | JNull => false
  | JBool b => b
  | JNumber n => truthy_num n
  | JString s => truthy_str s
  | JArray _ => true
  | JObject _ => true
  end.

(** Own property of an object literal; of duplicate keys the last wins. *)
Fixpoint lookup (key : jsstring) (members : list (jsstring * value))
  : option value :=
  match members with
  | [] => None
  | (k, v) :: rest =>
      match lookup key rest with
      | Some v' => Some v'
      | None => if jsstring_eqb k key then Some v else None
      end
  end.

(** [v.name] for a name that no built-in prototype defines ([choices],
    [delta], [content]): [None] is [undefined]; reading a property of
    [null] throws a [TypeError]. *)
Definition get_prop (v : value) (name : jsstring)
  : completion (option value) :=
  match v with
  | JNull => Throw (ThrownError (str "Cannot read properties of null"))
  | JObject members => Normal (lookup name members)
  | _ => Normal None
  end.

(** [v[0]]: the first element of an array, the first code unit of a
    string, the member named 0 of an object. *)
Definition get_index0 (v : value) : completion (option value) :=
  match v with
  | JNull => Throw (ThrownError (str "Cannot read properties of null"))
  | JObject members => Normal (lookup (str "0") members)
  | JArray items => Normal (nth_error items 0)
  | JString (c :: _) => Normal (Some (JString [c]))
  | _ => Normal None
  end.

(** [o?.name] and [o?.[0]]: [undefined] and [null] short-circuit. *)
Definition opt_chain (o : option value)
  (access : value -> completion (option value))
  : completion (option value) :=
  match o with
  | None => Normal None
  | Some JNull => Normal None
  | Some v => access v
  end.

End Json.

Import Json.

Notation "x <~ c ;; k" :=
  (match c with Normal x => k | Throw e => Throw e end)
  (at level 61, c at next level, right associativity).

(** [try { body } catch { handler }]. *)
Definition try_catch {A} (body : completion A)
  (handler : thrown -> completion A) : completion A :=
  match body with
  | Normal a => Normal a
  | Throw e => handler e
  end.

(* ------------------------------------------------------------------ *)
(** ** src/lib/benchmark-utils.ts: the SSE line parser *)

(** [WhiteSpace] and [LineTerminator] code units, as [String.prototype.trim]
    removes them. *)
Definition is_js_whitespace (c : N) : bool :=
  ((c =? 9) || (c =? 10) || (c =? 11) || (c =? 12) || (c =? 13)
   || (c =? 32) || (c =? 160) || (c =? 5760)
   || ((8192 <=? c) && (c <=? 8202))
   || (c =? 8232) || (c =? 8233) || (c =? 8239) || (c =? 8287)
   || (c =? 12288) || (c =? 65279))%N.

Fixpoint trimStart (s : jsstring) : jsstring :=
  match s with
  | c :: r => if is_js_whitespace c then trimStart r else s
  | [] => []
  end.

Definition trim (s : jsstring) : jsstring :=
  rev (trimStart (rev (trimStart s))).

Definition startsWith (s p : jsstring) : bool :=
  match strip_prefix p s with Some _ => true | None => false end.

Definition parseSSELine (line : jsstring) : completion (option value) :=
  let trimmed := trim line in
  if negb (truthy_str trimmed) || negb (startsWith trimmed (str "data: "))
  then Normal None
  else
    let data := skipn 6 trimmed in
    if jsstring_eqb data (str "[DONE]") then Normal None
    else
      try_catch
        (parsed <~ JSON_parse data ;;
         choices <~ get_prop parsed (str "choices") ;;
         first <~ opt_chain choices get_index0 ;;
         delta <~ opt_chain first (fun v => get_prop v (str "delta")) ;;
         content <~ opt_chain delta (fun v => get_prop v (str "content")) ;;
         Normal (match content with
                 | Some v => if truthy v then Some v else None
                 | None => None
                 end))
        (fun _ => Normal None).

(* ------------------------------------------------------------------ *)
(** ** [Array.prototype.sort] with a comparator

    The platform's sort is stable; for a consistent comparator its result
    is the one of a stable insertion sort, which is the model here: an
    element moves past exactly the elements it compares greater than. *)

Section ArraySort.

Variable A : Type.
Variable cmp : A -> A -> Q.

Fixpoint sort_insert (x : A) (l : list A) : list A :=
  match l with
  | [] => [x]
  | y :: l' => if Qgtb (cmp x y) 0 then y :: sort_insert x l'
               else x :: y :: l'
  end.

Definition Array_sort (l : list A) : list A := fold_right sort_insert [] l.

(** The comparator ranks neither element before the other. *)
Definition ranks_equal (x y : A) : bool :=
  Qle_bool (cmp x y) 0 && Qle_bool (cmp y x) 0.

End ArraySort.

(* ------------------------------------------------------------------ *)
(** ** src/lib/providers.ts *)

Record ProviderConfig := mkProvider {
  pc_name : jsstring;
  pc_model : jsstring;
  pc_color : jsstring;
  pc_endpoint : jsstring
}.

Definition providers : list (jsstring * ProviderConfig) :=
  [ (str "cerebras",
     mkProvider (str "Cerebras") (str "llama-3.3-70b") (str "#10B981")
       (str "cerebras-sdk"));
    (str "fireworks",
     mkProvider (str "Fireworks")
       (str "accounts/fireworks/models/llama-v3p3-70b-instruct")
       (str "#F59E0B")
       (str "https://api.fireworks.ai/inference/v1/chat/completions"));
    (str "groq",
     mkProvider (str "Groq") (str "llama-3.3-70b-versatile") (str "#EC4899")
       (str "https://api.groq.com/openai/v1/chat/completions")) ].

(** The own property [key] of an object literal used as a map. It is the
    value of [table[key]] for every key but the names of the members that
    the literal inherits from [Object.prototype], which [member_get] below
    accounts for. *)
Fixpoint record_get {V} (table : list (jsstring * V)) (key : jsstring)
  : option V :=
  match table with
  | [] => None
  | (k, v) :: rest => if jsstring_eqb k key then Some v
                      else record_get rest key
  end.

(** The names of the members of [Object.prototype], which every object
    literal inherits. *)
Definition Object_prototype_names : list jsstring :=
  [ str "constructor"; str "__defineGetter__"; str "__defineSetter__";
    str "hasOwnProperty"; str "__lookupGetter__"; str "__lookupSetter__";
    str "isPrototypeOf"; str "propertyIsEnumerable"; str "toString";
    str "valueOf"; str "__proto__"; str "toLocaleString" ].

Definition inherited (key : jsstring) : bool :=
  existsb (jsstring_eqb key) Object_prototype_names.

(** What [table[key]] finds on an object literal: the own property; or,
    for a name of [Object.prototype] that the literal does not define
    itself, the inherited member, which is a function (the prototype
    object for [__proto__]), hence truthy, and has none of the properties
    of the values of the table; or [undefined]. *)
Inductive member (V : Type) :=
| Own (v : V)
| Inherited
| Missing.

Arguments Inherited {V}.
Arguments Missing {V}.

Definition member_get {V} (table : list (jsstring * V)) (key : jsstring)
  : member V :=
  match record_get table key with
  | Some v => Own v
  | None => if inherited key then Inherited else Missing
  end.

(** [Object.keys(table)]: the own keys in insertion order. *)
Definition Object_keys {V} (table : list (jsstring * V)) : list jsstring :=
  List.map fst table.

(* ------------------------------------------------------------------ *)
(** ** src/app/api/benchmark/cerebras/route.ts and fireworks/route.ts

    The two routes share their control flow; they differ in the provider
    identifier and in the transport that delivers the content chunks. *)

Module ProviderRoute.

Record request_body := mkBody {
  prompt : option jsstring;
  max_tokens : option Q
}.

Inductive response :=
| BadRequest (error : jsstring)
| Json (result : BenchmarkResult).

(** How the upstream stream ends: exhausted, or an exception (a missing
    credential, a connection failure, a non-2xx status, a broken chunk). *)
Inductive stream_end :=
| StreamDone
| StreamThrows (e : thrown).

Section Route.

Variable clock : nat -> Q.

(** The [for await] loop over the stream: a chunk without content, or with
    empty content, is not passed to [updateMetrics]. *)
Fixpoint driveStream (metrics : StreamMetrics)
  (chunks : list (option jsstring)) : Oracle.M StreamMetrics :=
  match chunks with
  | [] => Oracle.ret metrics
  | chunk :: rest =>
      match chunk with
      | Some content =>
          if truthy_str content then
            m <- updateMetrics clock metrics content ;;
            driveStream m rest
          else driveStream metrics rest
      | None => driveStream metrics rest
      end
  end.

Definition POST (id : jsstring) (cfg : ProviderConfig)
  (body : completion request_body)
  (chunks : list (option jsstring)) (ending : stream_end)
  : Oracle.M response :=
  metrics <- createStreamMetrics clock ;;
  match body with
  | Throw e =>
      r <- buildErrorResult clock id (pc_model cfg) e (startTime metrics) ;;
      Oracle.ret (Json r)
  | Normal b =>
      if negb (truthy_opt truthy_str (prompt b)) then
        Oracle.ret (BadRequest (str "prompt is required"))
      else
        m <- driveStream metrics chunks ;;
        match ending with
        | StreamDone =>
            r <- buildSuccessResult clock id (pc_model cfg) m ;;
            Oracle.ret (Json r)
        | StreamThrows e =>
            r <- buildErrorResult clock id (pc_model cfg) e
                   (startTime metrics) ;;
            Oracle.ret (Json r)
        end
  end.

End Route.

End ProviderRoute.

(* ------------------------------------------------------------------ *)
(** ** src/app/api/benchmark/route.ts: the orchestrator *)

Module BenchmarkRoute.

Definition PROVIDER_ENDPOINTS : list (jsstring * jsstring) :=
  [ (str "cerebras", str "/api/benchmark/cerebras");
    (str "fireworks", str "/api/benchmark/fireworks");
    (str "groq", str "/api/benchmark/groq") ].

Record request_body := mkBody {
  prompt : option jsstring;
  max_tokens : option Q;
  requested : option (list jsstring)     (* the [providers] field *)
}.

(** What one sub-request does: [fetch] and [response.json()] deliver a
    result, or one of them rejects. *)
Inductive fetch_outcome :=
| Responded (result : BenchmarkResult)
| Rejects (e : thrown).

Inductive settled :=
| Fulfilled (value : BenchmarkResult)
| Rejected (reason : option thrown).

Inductive response :=
| Status400 (error : jsstring)
| Status500 (error : jsstring)
| Status200 (results : list BenchmarkResult) (prompt : jsstring)
    (max_tokens : Q).

(** The error-only entry the orchestrator builds in three places. *)
Definition errorEntry (provider message : jsstring) : BenchmarkResult :=
  mkResult provider (str "unknown") 0 0 0 0 None None (Some message).

(** [a.error] as a condition. *)
Definition has_error (r : BenchmarkResult) : bool :=
  truthy_opt truthy_str (error r).

Definition compareResults (a b : BenchmarkResult) : Q :=
  if has_error a && negb (has_error b) then 1
  else if negb (has_error a) && has_error b then -1
  else ttft_ms a - ttft_ms b.

Section Handler.

(** [fetch index url]: the outcome of the sub-request that the callback
    for position [index] sends to [url]. *)
Variable fetch : nat -> jsstring -> fetch_outcome.

Variable baseUrl : jsstring.

(** The callback of [selectedProviders.map]: the promise it returns,
    settled, and the URLs it fetched. The endpoint is looked up among the
    own keys of the table. For a requested name that the table inherits
    from [Object.prototype] the code finds the inherited member and goes
    on to a request whose URL is not one; the entry is an error entry for
    that name as well, with the text of that failure, where this
    definition has the text of the unknown provider. *)
Definition benchmarkPromise (index : nat) (provider : jsstring)
  : settled * list jsstring :=
  match record_get PROVIDER_ENDPOINTS provider with
  | None =>
      (Fulfilled (errorEntry provider (str "Unknown provider: " ++ provider)),
       [])
  | Some endpoint =>
      let url := baseUrl ++ endpoint in
      match fetch index url with
      | Responded result => (Fulfilled result, [url])
      | Rejects e =>
          (Fulfilled (errorEntry provider
                        (errorMessage (str "Request failed") e)),
           [url])
      end
  end.

Fixpoint mapIndexed {A B} (f : nat -> A -> B) (index : nat) (l : list A)
  : list B :=
  match l with
  | [] => []
  | a :: rest => f index a :: mapIndexed f (S index) rest
  end.

(** The callback of [settledResults.map]. *)
Definition unsettle (selectedProviders : list jsstring) (index : nat)
  (s : settled) : BenchmarkResult :=
  match s with
  | Fulfilled value => value
  | Rejected reason =>
      errorEntry (nth index selectedProviders [])
        (match reason with
         | Some (ThrownError message) =>
             if truthy_str message then message else str "Promise rejected"
         | _ => str "Promise rejected"
         end)
  end.

Definition selectProviders (requested : option (list jsstring))
  : list jsstring :=
  match requested with
  | Some (p :: ps) => p :: ps
  | _ => Object_keys PROVIDER_ENDPOINTS
  end.

(** The results before the sort, in the order of the requested list. *)
Definition collectResults (selectedProviders : list jsstring)
  : list BenchmarkResult :=
  mapIndexed (unsettle selectedProviders) 0
    (List.map fst (mapIndexed benchmarkPromise 0 selectedProviders)).

Definition fetchedUrls (selectedProviders : list jsstring)
  : list jsstring :=
  List.concat
    (List.map snd (mapIndexed benchmarkPromise 0 selectedProviders)).

(** The handler, with the URLs it fetched. The [timestamp] of the body is
    left out. *)
Definition POST (body : completion request_body)
  : response * list jsstring :=
  match body with
  | Throw e => (Status500 (errorMessage (str "Unknown error") e), [])
  | Normal b =>
      match prompt b with
      | Some p =>
          if truthy_str p then
            let selectedProviders := selectProviders (requested b) in
            (Status200
               (Array_sort compareResults (collectResults selectedProviders))
               p
               (match max_tokens b with
                | Some m => if truthy_num m then m else 256
                | None => 256
                end),
             fetchedUrls selectedProviders)
          else (Status400 (str "prompt is required"), [])
      | None => (Status400 (str "prompt is required"), [])
      end
  end.

End Handler.

End BenchmarkRoute.

(* ------------------------------------------------------------------ *)
(** ** src/app/api/benchmark/mock/route.ts *)

Module MockRoute.

Record fixture := mkFixture {
  f_ttft_ms : Q;
  f_tokens_per_second : Q;
  f_total_latency_ms : Q;
  f_token_count : Z;
  f_time_to_100_tokens_ms : Q;
  f_throughput_first_100 : Q
}.

Definition MOCK_BENCHMARKS : list (jsstring * fixture) :=
  [ (str "cerebras", mkFixture 52 (21563 # 10) 127 274 98 (10204 # 10));
    (str "groq", mkFixture 186 (5127 # 10) 534 274 382 (2618 # 10));
    (str "fireworks", mkFixture 245 (894 # 10) 3065 274 1340 (746 # 10)) ].

Module MOCK_SETTINGS.
Definition DEFAULT_VARIANCE_PERCENT : Q := 10.
Definition TTFT_VARIANCE_PERCENT : Q := 15.
Definition TPS_VARIANCE_PERCENT : Q := 10.
Definition LATENCY_VARIANCE_PERCENT : Q := 12.
Definition TOKEN_COUNT_VARIANCE : Q := 10.
Definition SIMULATED_LATENCY_MIN_MS : Q := 100.
Definition SIMULATED_LATENCY_MAX_MS : Q := 300.
End MOCK_SETTINGS.

Record request_body := mkBody {
  requested : option (list jsstring)     (* the [providers] field *)
}.

(** An element of [results]. Built from a fixture, its numbers are
    numbers. Built from a member inherited from [Object.prototype], which
    has none of the fields of a fixture, its [ttft_ms],
    [tokens_per_second], [total_latency_ms] and [token_count] are NaN
    (arithmetic on [undefined]), its two optional fields are [undefined]
    and it has no [error]; the response renders NaN as null. *)
Inductive entry :=
| Measured (result : BenchmarkResult)
| NotANumber (provider model : jsstring).

Definition providerOf (e : entry) : jsstring :=
  match e with
  | Measured result => provider result
  | NotANumber p _ => p
  end.

Inductive response :=
| Status500 (error : jsstring)
| Status200 (results : list entry) (mock : bool).

(** [providers[providerId]?.model || "unknown"]; an inherited member has
    no [model]. *)
Definition modelOf (providerId : jsstring) : jsstring :=
  match member_get providers providerId with
  | Own cfg => if truthy_str (pc_model cfg) then pc_model cfg
               else str "unknown"
  | Inherited => str "unknown"
  | Missing => str "unknown"
  end.

(** The comparator of the sort, [a.ttft_ms - b.ttft_ms]. With a NaN
    operand the difference is NaN, which [sort] takes for +0; such a
    comparator is not consistent, the order of the sorted array is then
    left to the platform, and only the elements of the array are stated
    for it. *)
Definition byTtft (a b : entry) : Q :=
  match a, b with
  | Measured x, Measured y => ttft_ms x - ttft_ms y
  | _, _ => 0
  end.

Section Handler.

(** [random n] is the [n]-th value of [Math.random()]. *)
Variable random : nat -> Q.

Definition Math_random : Oracle.M Q := Oracle.next random.

Definition addVariance (value variancePercent : Q) : Oracle.M Q :=
  let variance := value * (variancePercent / 100) in
  r <- Math_random ;;
  let delta := (r - (1 # 2)) * 2 * variance in
  Oracle.ret (roundToOneDecimal (value + delta)).

(** The delay that [simulateLatency] waits for. *)
Definition simulateLatency (minMs maxMs : Q) : Oracle.M Q :=
  r <- Math_random ;;
  Oracle.ret (minMs + r * (maxMs - minMs)).

Definition mockResult (providerId : jsstring) (mockData : fixture)
  : Oracle.M BenchmarkResult :=
  ttft <- addVariance (f_ttft_ms mockData)
            MOCK_SETTINGS.TTFT_VARIANCE_PERCENT ;;
  tps <- addVariance (f_tokens_per_second mockData)
           MOCK_SETTINGS.TPS_VARIANCE_PERCENT ;;
  total <- addVariance (f_total_latency_ms mockData)
             MOCK_SETTINGS.LATENCY_VARIANCE_PERCENT ;;
  r <- Math_random ;;
  let count :=
    (f_token_count mockData
     + Math_floor (r * MOCK_SETTINGS.TOKEN_COUNT_VARIANCE * 2
                   - MOCK_SETTINGS.TOKEN_COUNT_VARIANCE))%Z in
  t100 <- (if truthy_num (f_time_to_100_tokens_ms mockData) then
             v <- addVariance (f_time_to_100_tokens_ms mockData)
                    MOCK_SETTINGS.LATENCY_VARIANCE_PERCENT ;;
             Oracle.ret (Some v)
           else Oracle.ret None) ;;
  th100 <- (if truthy_num (f_throughput_first_100 mockData) then
              v <- addVariance (f_throughput_first_100 mockData)
                     MOCK_SETTINGS.TPS_VARIANCE_PERCENT ;;
              Oracle.ret (Some v)
            else Oracle.ret None) ;;
  Oracle.ret
    (mkResult providerId (modelOf providerId)
       ttft tps total count t100 th100 None).

(** The same object literal when [mockData] is a member inherited from
    [Object.prototype]: each field read from it is [undefined], so the
    three calls of [addVariance] and the token count still read
    [Math.random] and give NaN, and the two conditionals take their
    [undefined] branch. *)
Definition nanResult (providerId : jsstring) : Oracle.M entry :=
  _ <- Math_random ;;
  _ <- Math_random ;;
  _ <- Math_random ;;
  _ <- Math_random ;;
  Oracle.ret (NotANumber providerId (modelOf providerId)).

(** The [for ... of] loop that fills [results]: [continue] when
    [MOCK_BENCHMARKS[providerId]] is [undefined]. *)
Fixpoint mockLoop (providersToTest : list jsstring)
  : Oracle.M (list entry) :=
  match providersToTest with
  | [] => Oracle.ret []
  | providerId :: rest =>
      match member_get MOCK_BENCHMARKS providerId with
      | Missing => mockLoop rest
      | Own mockData =>
          _ <- simulateLatency MOCK_SETTINGS.SIMULATED_LATENCY_MIN_MS
                 MOCK_SETTINGS.SIMULATED_LATENCY_MAX_MS ;;
          result <- mockResult providerId mockData ;;
          results <- mockLoop rest ;;
          Oracle.ret (Measured result :: results)
      | Inherited =>
          _ <- simulateLatency MOCK_SETTINGS.SIMULATED_LATENCY_MIN_MS
                 MOCK_SETTINGS.SIMULATED_LATENCY_MAX_MS ;;
          result <- nanResult providerId ;;
          results <- mockLoop rest ;;
          Oracle.ret (result :: results)
      end
  end.

Definition selectProviders (requested : option (list jsstring))
  : list jsstring :=
  match requested with
  | Some (p :: ps) => p :: ps
  | _ => Object_keys providers
  end.

Definition POST (body : completion request_body) : Oracle.M response :=
  match body with
  | Throw e => Oracle.ret (Status500 (errorMessage (str "Unknown error") e))
  | Normal b =>
      results <- mockLoop (selectProviders (requested b)) ;;
      Oracle.ret
        (Status200
           (Array_sort byTtft results) true)
  end.

End Handler.

End MockRoute.

(* ------------------------------------------------------------------ *)
(** ** src/app/api/agent-race/route.ts *)

Module AgentRaceRoute.

Module AGENT_RACE_CONFIG.
Definition MAX_TOKENS_PER_STEP : Z := 150.
Definition OUTPUT_PREVIEW_LENGTH : nat := 150.
End AGENT_RACE_CONFIG.

Record step := mkStep {
  step_name : jsstring;
  step_prompt : jsstring -> jsstring
}.

Definition newlines : jsstring := [10%N; 10%N].

Definition STEPS : list step :=
  [ mkStep (str "Research")
      (fun company =>
         str "Find 3 key facts about " ++ company
         ++ str "'s business model, products, and recent news.");
    mkStep (str "Summarize")
      (fun prev =>
         str "Summarize this research into exactly 3 concise bullet points:"
         ++ newlines ++ prev);
    mkStep (str "Draft")
      (fun prev =>
         str "Write a 3-paragraph cold outreach email based on:"
         ++ newlines ++ prev);
    mkStep (str "Critique")
      (fun prev =>
         str "Critique this email. List 3 specific improvements:"
         ++ newlines ++ prev);
    mkStep (str "Revise")
      (fun prev =>
         str "Revise the email with these improvements:"
         ++ newlines ++ prev) ].

(** The messages written to the stream. *)
Inductive event :=
| StepRunning (step : Z) (name : jsstring)
| StepComplete (step : Z) (name : jsstring) (latency_ms : Z)
    (output_preview : jsstring)
| StepError (step : Z) (name : jsstring) (error : jsstring)
| StreamComplete (total_latency_ms : Z) (has_error : bool).

(** What the route does to the stream controller. *)
Inductive action :=
| Enqueue (e : event)
| Close.

Inductive call_outcome :=
| Content (content : jsstring)
| CallThrows (e : thrown).

Record request_body := mkBody {
  req_provider : option jsstring;
  req_company : option jsstring
}.

Inductive response :=
| Status400 (error : jsstring)
| Status500 (error : jsstring)
| EventStream (actions : list action).

Definition stepErrorMessage (e : thrown) : jsstring :=
  match e with
  | ThrownError message => message
  | ThrownOther rendered => rendered
  end.

Definition outputPreview (content : jsstring) : jsstring :=
  if (AGENT_RACE_CONFIG.OUTPUT_PREVIEW_LENGTH <? List.length content)%nat
  then firstn AGENT_RACE_CONFIG.OUTPUT_PREVIEW_LENGTH content ++ str "..."
  else content.

Section Handler.

Variable clock : nat -> Q.

(** [callProvider i provider prompt maxTokens]: the outcome of the call
    that the step at index [i] makes. *)
Variable callProvider : nat -> jsstring -> jsstring -> Z -> call_outcome.

Variable provider : jsstring.
Variable company : jsstring.

(** The [for] loop from index [i] on, over the steps still to run: the
    messages it sends, and the final [totalLatency] and [hasError]. *)
Fixpoint runSteps (steps : list step) (i : nat) (previousOutput : jsstring)
  (totalLatency : Z) : Oracle.M (list action * Z * bool) :=
  match steps with
  | [] => Oracle.ret ([], totalLatency, false)
  | s :: rest =>
      let number := Z.of_nat (i + 1) in
      let running := Enqueue (StepRunning number (step_name s)) in
      startTime <- now clock ;;
      let prompt := if (i =? 0)%nat then step_prompt s company
                    else step_prompt s previousOutput in
      match callProvider i provider prompt
              AGENT_RACE_CONFIG.MAX_TOKENS_PER_STEP with
      | Content content =>
          t <- now clock ;;
          let latency := Math_round (t - startTime) in
          out <- runSteps rest (S i) content (totalLatency + latency)%Z ;;
          let '(actions, total, hasError) := out in
          Oracle.ret
            (running
             :: Enqueue (StepComplete number (step_name s) latency
                           (outputPreview content))
             :: actions,
             total, hasError)
      | CallThrows e =>
          Oracle.ret
            ([running;
              Enqueue (StepError number (step_name s) (stepErrorMessage e))],
             totalLatency, true)
      end
  end.

(** The [start] callback of the stream. *)
Definition start : Oracle.M (list action) :=
  out <- runSteps STEPS 0 company 0%Z ;;
  let '(actions, total, hasError) := out in
  Oracle.ret (actions ++ [Enqueue (StreamComplete total hasError); Close]).

End Handler.

Definition knownProvider (p : jsstring) : bool :=
  existsb (jsstring_eqb p) [str "cerebras"; str "groq"; str "fireworks"].

Definition POST (clock : nat -> Q)
  (callProvider : nat -> jsstring -> jsstring -> Z -> call_outcome)
  (body : completion request_body) : Oracle.M response :=
  match body with
  | Throw e => Oracle.ret (Status500 (errorMessage (str "Unknown error") e))
  | Normal b =>
      match req_provider b with
      | None =>
          Oracle.ret
            (Status400
               (str "Invalid provider. Must be cerebras, groq, or fireworks"))
      | Some p =>
          if negb (truthy_str p) || negb (knownProvider p) then
            Oracle.ret
              (Status400
                 (str "Invalid provider. Must be cerebras, groq, or fireworks"))
          else
            match req_company b with
            | None => Oracle.ret (Status400 (str "company is required"))
            | Some c =>
                if negb (truthy_str c) then
                  Oracle.ret (Status400 (str "company is required"))
                else
                  actions <- start clock callProvider p c ;;
                  Oracle.ret (EventStream actions)
            end
      end
  end.

End AgentRaceRoute.

(* ------------------------------------------------------------------ *)
(** ** Vocabulary of the properties *)

(** The accumulator after each of a sequence of [updateMetrics] calls. *)
Fixpoint updateHistory (clock : nat -> Q) (metrics : StreamMetrics)
  (contents : list jsstring) : Oracle.M (list StreamMetrics) :=
  match contents with
  | [] => Oracle.ret []
  | content :: rest =>
      m <- updateMetrics clock metrics content ;;
      h <- updateHistory clock m rest ;;
      Oracle.ret (m :: h)
  end.

(** A chunk that the stream loop does not forward to [updateMetrics]. *)
Definition blank_chunk (chunk : option jsstring) : bool :=
  negb (truthy_opt truthy_str chunk).

(** The contents that the stream loop forwards to [updateMetrics]. *)
Definition forwarded (chunks : list (option jsstring)) : list jsstring :=
  flat_map (fun chunk => match chunk with
                         | Some content =>
                             if truthy_str content then [content] else []
                         | None => []
                         end) chunks.

(** What may change from an accumulator state to a later one: the token
    count does not decrease, and a recorded first-token time or
    time-to-100-tokens stays as recorded. *)
Definition evolves (a b : StreamMetrics) : Prop :=
  (tokenCount a <= tokenCount b)%Z
  /\ (forall t, firstTokenTime a = Some t -> firstTokenTime b = Some t)
  /\ (forall d, timeToHundredTokens a = Some d ->
                timeToHundredTokens b = Some d).

(** The token count is the estimate for the accumulated text, and the
    time to 100 tokens is recorded only with at least 100 tokens. *)
Definition counted (m : StreamMetrics) : Prop :=
  tokenCount m = estimateTokenCount (fullResponse m)
  /\ (timeToHundredTokens m <> None ->
      (DEFAULTS.TOKEN_THRESHOLD_FOR_METRICS <= tokenCount m)%Z).

(** The double quote, and the sample line of the specification:
    data: {"choices":[{"delta":{"content":"hi"}}]} *)
Definition dq : jsstring := [34%N].

Definition sample_line : jsstring :=
  str "data: {" ++ dq ++ str "choices" ++ dq ++ str ":[{"
  ++ dq ++ str "delta" ++ dq ++ str ":{"
  ++ dq ++ str "content" ++ dq ++ str ":" ++ dq ++ str "hi" ++ dq
  ++ str "}}]}".

(** The [error] field is present, whatever its text. *)
Definition error_present (r : BenchmarkResult) : bool :=
  match error r with Some _ => true | None => false end.

(** An error-only result: the error is present, the metrics are zero and
    the optional fields are absent. *)
Definition error_only (r : BenchmarkResult) : Prop :=
  error_present r = true
  /\ ttft_ms r == 0 /\ tokens_per_second r == 0 /\ total_latency_ms r == 0
  /\ token_count r = 0%Z
  /\ time_to_100_tokens_ms r = None /\ throughput_first_100 r = None.

(** The finalisation contract in the words of the specification, for the
    accumulator [m] finalised at the clock reading [clock n]. *)
Definition finalize_as_specified (clock : nat -> Q) (m : StreamMetrics)
  (n : nat) : Prop :=
  let c := Oracle.run (calculateBenchmarkMetrics clock m) n in
  let total := clock n - startTime m in
  ttftMs c == match firstTokenTime m with
              | Some f => f - startTime m
              | None => total
              end
  /\ totalLatencyMs c == total
  /\ tokensPerSecond c ==
       (if (tokenCount m =? 0)%Z || Qeq_bool total 0 then 0
        else inject_Z (tokenCount m) / (total / 1000))
  /\ match timeToHundredTokens m with
     | Some d => exists x, throughputFirst100 c = Some x
                           /\ x == 100 / (d / 1000)
     | None => throughputFirst100 c = None
     end
  /\ (firstTokenTime m = None -> ttftMs c == totalLatencyMs c).

(** In [out], no entry that satisfies [err] stands before one that does
    not. *)
Definition errors_last (err : BenchmarkResult -> bool)
  (out : list BenchmarkResult) : Prop :=
  forall i j a b, (i < j)%nat ->
    nth_error out i = Some a -> nth_error out j = Some b ->
    err a = true -> err b = true.

(** Entries that the comparator of the orchestrator cannot tell apart:
    the same error status and the same time to first token. *)
Definition same_rank (e : bool) (t : Q) (r : BenchmarkResult) : bool :=
  Bool.eqb (BenchmarkRoute.has_error r) e && Qeq_bool (ttft_ms r) t.

(** A successful measurement, used in the examples. *)
Definition groq_success : BenchmarkResult :=
  mkResult (str "groq") (str "llama-3.3-70b-versatile")
    5 100 50 10 None None None.

(** The entry that the orchestrator holds for position [index] of the
    selected providers before it sorts. *)
Definition entryFor (fetch : nat -> jsstring -> BenchmarkRoute.fetch_outcome)
  (baseUrl : jsstring) (index : nat) (id : jsstring) : BenchmarkResult :=
  match record_get BenchmarkRoute.PROVIDER_ENDPOINTS id with
  | None =>
      BenchmarkRoute.errorEntry id (str "Unknown provider: " ++ id)
  | Some endpoint =>
      match fetch index (baseUrl ++ endpoint) with
      | BenchmarkRoute.Responded result => result
      | BenchmarkRoute.Rejects e =>
          BenchmarkRoute.errorEntry id
            (errorMessage (str "Request failed") e)
      end
  end.

(** The provider has a mock fixture: the identifier is a key of
    [MOCK_BENCHMARKS]. *)
Definition has_fixture (id : jsstring) : bool :=
  match record_get MockRoute.MOCK_BENCHMARKS id with
  | Some _ => true
  | None => false
  end.

(** The mock route builds an entry for the identifier: the test
    [!mockData] of its loop fails, for a fixture or for a member inherited
    from [Object.prototype]. *)
Definition answered (id : jsstring) : bool :=
  match member_get MockRoute.MOCK_BENCHMARKS id with
  | Missing => false
  | _ => true
  end.

(** An entry as the mock route builds it from its tables: a measured
    result of a provider that has a fixture, without error; or the entry
    without numbers of a name inherited from [Object.prototype]. *)
Definition from_tables (e : MockRoute.entry) : Prop :=
  match e with
  | MockRoute.Measured r => has_fixture (provider r) = true /\ error r = None
  | MockRoute.NotANumber p m =>
      inherited p = true /\ has_fixture p = false /\ m = str "unknown"
  end.

(** The kind of an action on the agent-race stream, with the number of
    the step it reports. *)
Inductive tag :=
| TRunning (step : Z)
| TComplete (step : Z)
| TError (step : Z)
| TDone (has_error : bool)
| TClose.

Definition tag_of (a : AgentRaceRoute.action) : tag :=
  match a with
  | AgentRaceRoute.Enqueue (AgentRaceRoute.StepRunning n _) => TRunning n
  | AgentRaceRoute.Enqueue (AgentRaceRoute.StepComplete n _ _ _) =>
      TComplete n
  | AgentRaceRoute.Enqueue (AgentRaceRoute.StepError n _ _) => TError n
  | AgentRaceRoute.Enqueue (AgentRaceRoute.StreamComplete _ e) => TDone e
  | AgentRaceRoute.Close => TClose
  end.

Definition is_step_event (a : AgentRaceRoute.action) : bool :=
  match tag_of a with
  | TRunning _ | TComplete _ | TError _ => true
  | TDone _ | TClose => false
  end.

Definition is_close (a : AgentRaceRoute.action) : bool :=
  match a with AgentRaceRoute.Close => true | _ => false end.

Definition is_terminal (a : AgentRaceRoute.action) : bool :=
  match tag_of a with TDone _ => true | _ => false end.

(** The running/complete pairs of [count] steps, numbered from [first]. *)
Fixpoint successTags (first count : nat) : list tag :=
  match count with
  | O => []
  | S c => TRunning (Z.of_nat first) :: TComplete (Z.of_nat first)
           :: successTags (S first) c
  end.

(** The outcomes of the provider calls that a run makes, in order: the
    loop stops at the first call that throws. *)
Fixpoint callTrace
  (callProvider : nat -> jsstring -> jsstring -> Z
                  -> AgentRaceRoute.call_outcome)
  (provider company : jsstring) (steps : list AgentRaceRoute.step)
  (i : nat) (previousOutput : jsstring) : list AgentRaceRoute.call_outcome :=
  match steps with
  | [] => []
  | s :: rest =>
      let prompt := if (i =? 0)%nat then AgentRaceRoute.step_prompt s company
                    else AgentRaceRoute.step_prompt s previousOutput in
      match callProvider i provider prompt
              AgentRaceRoute.AGENT_RACE_CONFIG.MAX_TOKENS_PER_STEP with
      | AgentRaceRoute.Content c =>
          AgentRaceRoute.Content c
          :: callTrace callProvider provider company rest (S i) c
      | AgentRaceRoute.CallThrows e => [AgentRaceRoute.CallThrows e]
      end
  end.

(* ------------------------------------------------------------------ *)
(** ** Further vocabulary *)

(** The readings of [performance.now()] never go back. *)
Definition monotone_clock (clock : nat -> Q) : Prop :=
  forall i j, (i <= j)%nat -> clock i <= clock j.

(** The timestamps of an accumulator created at reading [n0], before
    reading [t]: the start is reading [n0], and a recorded first-token
    time or time to 100 tokens comes from a reading in between. *)
Definition stamped (clock : nat -> Q) (n0 t : nat) (m : StreamMetrics)
  : Prop :=
  startTime m = clock n0
  /\ (forall f, firstTokenTime m = Some f ->
        exists i, (n0 <= i < t)%nat /\ f = clock i)
  /\ (forall d, timeToHundredTokens m = Some d ->
        exists j, (n0 <= j < t)%nat /\ d = clock j - clock n0).

(* ------------------------------------------------------------------ *)
(** ** src/lib/benchmark-utils.ts: the stream reader

    The body of the response is given as the texts that the decoder
    returns for the successive reads, and the way the reads end. *)

Module StreamReader.

(** [s.split(sep)] for a separator of one code unit. *)
Fixpoint split (sep : N) (s : jsstring) : list jsstring :=
  match s with
  | [] => [[]]
  | c :: r =>
      if (c =? sep)%N then [] :: split sep r
      else match split sep r with
           | h :: t => (c :: h) :: t
           | [] => [[c]]
           end
  end.

Definition line_feed : N := 10.

Inductive read_end :=
| ReadDone
| ReadRejects (e : thrown).

(** What the generator does, as its consumer and the reader see it. *)
Inductive reader_event :=
| Yielded (content : value)
| Released.

(** How the generator ends: its body completes, it throws, or the
    consumer leaves the loop and the generator is returned. *)
Inductive generator_end :=
| Finished
| Failed (e : thrown)
| Stopped.

(** The [for] loop over complete lines: the contents it yields, and the
    exception that ends it, if any. *)
Fixpoint yieldLines (lines : list jsstring) : list value * option thrown :=
  match lines with
  | [] => ([], None)
  | line :: rest =>
      match parseSSELine line with
      | Throw e => ([], Some e)
      | Normal content =>
          let here := match content with
                      | Some v => if truthy v then [v] else []
                      | None => []
                      end in
          let (later, err) := yieldLines rest in
          (here ++ later, err)
      end
  end.

(** The [while] loop over the reads, from the current [buffer]: the
    contents yielded, and the buffer left at the end or the exception. *)
Fixpoint readLoop (pieces : list jsstring) (buffer : jsstring)
  : list value * (jsstring + thrown) :=
  match pieces with
  | [] => ([], inl buffer)
  | piece :: rest =>
      let lines := split line_feed (buffer ++ piece) in
      let buffer' := last lines [] in
      match yieldLines (removelast lines) with
      | (ys, Some e) => (ys, inr e)
      | (ys, None) =>
          let (later, out) := readLoop rest buffer' in
          (ys ++ later, out)
      end
  end.

(** The [try] block: the reads, then the rest of the buffer when the
    reads end normally. *)
Definition tryBlock (pieces : list jsstring) (ending : read_end)
  : list value * option thrown :=
  match readLoop pieces [] with
  | (ys, inr e) => (ys, Some e)
  | (ys, inl buffer) =>
      match ending with
      | ReadRejects e => (ys, Some e)
      | ReadDone =>
          if truthy_str (trim buffer) then
            let (last_ys, err) := yieldLines [buffer] in
            (ys ++ last_ys, err)
          else (ys, None)
      end
  end.

(** The generator, driven by a consumer that leaves its loop in the body
    for the item of index [stopAt], if there is one. Without a body the
    generator throws before it holds a reader. *)
Definition createStreamReader (body : option (list jsstring * read_end))
  (stopAt : option nat) : list reader_event * generator_end :=
  match body with
  | None => ([], Failed (ThrownError (str "No response body")))
  | Some (pieces, ending) =>
      let (ys, err) := tryBlock pieces ending in
      let full := (List.map Yielded ys ++ [Released],
                   match err with Some e => Failed e | None => Finished end) in
      match stopAt with
      | Some k =>
          if (k <? List.length ys)%nat
          then (List.map Yielded (firstn (S k) ys) ++ [Released], Stopped)
          else full
      | None => full
      end
  end.

(** The contents of a line, as the loops yield them. *)
Definition contentOf (line : jsstring) : list value :=
  match parseSSELine line with
  | Normal (Some v) => if truthy v then [v] else []
  | _ => []
  end.

End StreamReader.

(** [x] lies in the band of [pct] percent around [value], widened by the
    twentieth that rounding to one decimal can add. *)
Definition within_band (value pct x : Q) : Prop :=
  value - value * (pct / 100) - (1 # 20) < x
  /\ x <= value + value * (pct / 100) + (1 # 20).

(** [Math.random()] returns values from 0 up to, but not including, 1. *)
Definition unit_range (random : nat -> Q) : Prop :=
  forall i, 0 <= random i /\ random i < 1.

(** A mock result agrees with the fixture of its provider up to the
    configured variance. *)
Definition near_fixture (r : BenchmarkResult) : Prop :=
  exists fx,
    record_get MockRoute.MOCK_BENCHMARKS (provider r) = Some fx
    /\ within_band (MockRoute.f_ttft_ms fx)
         MockRoute.MOCK_SETTINGS.TTFT_VARIANCE_PERCENT (ttft_ms r)
    /\ within_band (MockRoute.f_tokens_per_second fx)
         MockRoute.MOCK_SETTINGS.TPS_VARIANCE_PERCENT (tokens_per_second r)
    /\ within_band (MockRoute.f_total_latency_ms fx)
         MockRoute.MOCK_SETTINGS.LATENCY_VARIANCE_PERCENT (total_latency_ms r)
    /\ (MockRoute.f_token_count fx - 10 <= token_count r
        <= MockRoute.f_token_count fx + 9)%Z
    /\ (exists t, time_to_100_tokens_ms r = Some t
                  /\ within_band (MockRoute.f_time_to_100_tokens_ms fx)
                       MockRoute.MOCK_SETTINGS.LATENCY_VARIANCE_PERCENT t)
    /\ (exists t, throughput_first_100 r = Some t
                  /\ within_band (MockRoute.f_throughput_first_100 fx)
                       MockRoute.MOCK_SETTINGS.TPS_VARIANCE_PERCENT t)
    /\ error r = None.

(** The latencies and previews that the complete events report. *)
Definition latencyOf (a : AgentRaceRoute.action) : list Z :=
  match a with
  | AgentRaceRoute.Enqueue (AgentRaceRoute.StepComplete _ _ l _) => [l]
  | _ => []
  end.

Definition previewOf (a : AgentRaceRoute.action) : list jsstring :=
  match a with
  | AgentRaceRoute.Enqueue (AgentRaceRoute.StepComplete _ _ _ p) => [p]
  | _ => []
  end.

Definition sumZ (l : list Z) : Z := fold_right Z.add 0%Z l.

Definition is_error_event (a : AgentRaceRoute.action) : bool :=
  match tag_of a with TError _ => true | _ => false end.

(** A step event carries the number and the name of one of the steps
    [names], numbered from [first + 1]. *)
Definition named_from (names : list jsstring) (first : nat)
  (a : AgentRaceRoute.action) : Prop :=
  match a with
  | AgentRaceRoute.Enqueue (AgentRaceRoute.StepRunning k name)
  | AgentRaceRoute.Enqueue (AgentRaceRoute.StepComplete k name _ _)
  | AgentRaceRoute.Enqueue (AgentRaceRoute.StepError k name _) =>
      exists j, k = Z.of_nat (first + j + 1) /\ nth_error names j = Some name
  | _ => True
  end.

(* ------------------------------------------------------------------ *)
(** ** src/lib/benchmark-utils.ts: credentials and API errors *)

(** [process.env]: the variables that are set, with their values. *)
Definition environment := jsstring -> option jsstring.

Definition getRequiredApiKey (env : environment) (envVar : jsstring)
  : completion jsstring :=
  match env envVar with
  | Some apiKey =>
      if truthy_str apiKey then Normal apiKey
      else Throw (ThrownError (envVar ++ str " not configured"))
  | None => Throw (ThrownError (envVar ++ str " not configured"))
  end.

(** The decimal digits of [n] before [acc], most significant first;
    [fuel] bounds their number. *)
Fixpoint digits_fuel (fuel : nat) (n : N) (acc : jsstring) : jsstring :=
  match fuel with
  | O => acc
  | S f =>
      let acc' := (48 + n mod 10)%N :: acc in
      if (n <? 10)%N then acc' else digits_fuel f (n / 10) acc'
  end.

(** [String(n)] for a natural number written without exponent, such as a
    status code: its decimal digits. A number has no more decimal digits
    than binary ones. *)
Definition Number_toString (n : N) : jsstring :=
  digits_fuel (S (N.to_nat (N.log2 n))) n [].

(** The [BenchmarkError] that [createApiError] builds; it is an [Error]. *)
Definition createApiError (provider : jsstring) (status : N)
  (body : jsstring) : thrown :=
  ThrownError
    (provider ++ str " API error: " ++ Number_toString status ++ str " - "
     ++ body).

(** What [fullResponse += content] appends: the content when it is a
    string, as its type says, and its string conversion otherwise. *)
Definition appended (ToString : value -> jsstring) (content : value)
  : jsstring :=
  match content with
  | JString s => s
  | other => ToString other
  end.

(** [providers.cerebras], [providers.fireworks], [providers.groq]: the
    keys that the sources name are present. *)
Definition providerConfig (id : jsstring) : ProviderConfig :=
  match record_get providers id with
  | Some cfg => cfg
  | None => mkProvider [] [] [] []
  end.

(* ------------------------------------------------------------------ *)
(** ** src/app/api/benchmark/fireworks/route.ts *)

Module FireworksRoute.

(** The request that the handler passes to [fetch]. *)
Record fetch_request := mkRequest {
  req_url : jsstring;
  req_authorization : jsstring;
  req_model : jsstring;
  req_prompt : jsstring;
  req_max_tokens : Q;
  req_stream : bool
}.

Record http_response := mkResponse {
  ok : bool;
  status : N;
  text : completion jsstring;                         (* [response.text()] *)
  body : option (list jsstring * StreamReader.read_end)  (* [response.body] *)
}.

Inductive fetch_outcome :=
| FetchRejects (e : thrown)
| FetchResolves (response : http_response).

Definition yielded (events : list StreamReader.reader_event) : list value :=
  flat_map (fun ev => match ev with
                      | StreamReader.Yielded content => [content]
                      | StreamReader.Released => []
                      end) events.

Section Route.

Variable clock : nat -> Q.
Variable env : environment.
Variable fetch : fetch_request -> fetch_outcome.
Variable ToString : value -> jsstring.

(** The [for await] loop over the contents of the reader. *)
Fixpoint consume (metrics : StreamMetrics) (contents : list value)
  : Oracle.M StreamMetrics :=
  match contents with
  | [] => Oracle.ret metrics
  | content :: rest =>
      m <- updateMetrics clock metrics (appended ToString content) ;;
      consume m rest
  end.

(** The handler, with the requests it sent. *)
Definition POST (request : completion ProviderRoute.request_body)
  : Oracle.M (ProviderRoute.response * list fetch_request) :=
  metrics <- createStreamMetrics clock ;;
  let provider := providerConfig (str "fireworks") in
  let failure := fun (e : thrown) (sent : list fetch_request) =>
    r <- buildErrorResult clock (str "fireworks") (pc_model provider) e
           (startTime metrics) ;;
    Oracle.ret (ProviderRoute.Json r, sent) in
  match request with
  | Throw e => failure e []
  | Normal b =>
      match ProviderRoute.prompt b with
      | None =>
          Oracle.ret (ProviderRoute.BadRequest (str "prompt is required"), [])
      | Some prompt =>
          if negb (truthy_str prompt) then
            Oracle.ret
              (ProviderRoute.BadRequest (str "prompt is required"), [])
          else
            match getRequiredApiKey env (str "FIREWORKS_API_KEY") with
            | Throw e => failure e []
            | Normal apiKey =>
                let sent :=
                  mkRequest (pc_endpoint provider)
                    (str "Bearer " ++ apiKey) (pc_model provider) prompt
                    (match ProviderRoute.max_tokens b with
                     | Some m => if truthy_num m then m
                                 else inject_Z DEFAULTS.MAX_TOKENS
                     | None => inject_Z DEFAULTS.MAX_TOKENS
                     end)
                    true in
                match fetch sent with
                | FetchRejects e => failure e [sent]
                | FetchResolves response =>
                    if negb (ok response) then
                      match text response with
                      | Throw e => failure e [sent]
                      | Normal errorText =>
                          failure
                            (createApiError (str "Fireworks")
                               (status response) errorText)
                            [sent]
                      end
                    else
                      let (events, ending) :=
                        StreamReader.createStreamReader (body response) None in
                      m <- consume metrics (yielded events) ;;
                      match ending with
                      | StreamReader.Failed e => failure e [sent]
                      | StreamReader.Finished
                      | StreamReader.Stopped =>   (* the loop has no break *)
                          r <- buildSuccessResult clock (str "fireworks")
                                 (pc_model provider) m ;;
                          Oracle.ret (ProviderRoute.Json r, [sent])
                      end
                end
            end
      end
  end.

End Route.

End FireworksRoute.

(* ------------------------------------------------------------------ *)
(** ** src/app/api/benchmark/cerebras/route.ts *)

Module CerebrasRoute.

(** The client key and the arguments of [chat.completions.create]. *)
Record sdk_request := mkRequest {
  req_apiKey : jsstring;
  req_model : jsstring;
  req_prompt : jsstring;
  req_max_tokens : Q;
  req_stream : bool
}.

(** [create] rejects, or resolves to a stream of chunks that ends or
    throws while it is iterated. *)
Inductive sdk_outcome :=
| CreateRejects (e : thrown)
| Stream (chunks : list value) (ending : ProviderRoute.stream_end).

(** [chunk.choices?.[0]?.delta?.content]. *)
Definition chunkContent (chunk : value) : completion (option value) :=
  choices <~ get_prop chunk (str "choices") ;;
  first <~ opt_chain choices get_index0 ;;
  delta <~ opt_chain first (fun v => get_prop v (str "delta")) ;;
  opt_chain delta (fun v => get_prop v (str "content")).

Section Route.

Variable clock : nat -> Q.
Variable env : environment.
Variable create : sdk_request -> sdk_outcome.
Variable ToString : value -> jsstring.

(** The [for await] loop over the chunks: the metrics, and the exception
    that the body of the loop threw, if any. *)
Fixpoint consume (metrics : StreamMetrics) (chunks : list value)
  : Oracle.M (StreamMetrics * option thrown) :=
  match chunks with
  | [] => Oracle.ret (metrics, None)
  | chunk :: rest =>
      match chunkContent chunk with
      | Throw e => Oracle.ret (metrics, Some e)
      | Normal content =>
          match content with
          | Some v =>
              if truthy v then
                m <- updateMetrics clock metrics (appended ToString v) ;;
                consume m rest
              else consume metrics rest
          | None => consume metrics rest
          end
      end
  end.

(** The handler, with the calls it made to the SDK. *)
Definition POST (request : completion ProviderRoute.request_body)
  : Oracle.M (ProviderRoute.response * list sdk_request) :=
  metrics <- createStreamMetrics clock ;;
  let provider := providerConfig (str "cerebras") in
  let failure := fun (e : thrown) (sent : list sdk_request) =>
    r <- buildErrorResult clock (str "cerebras") (pc_model provider) e
           (startTime metrics) ;;
    Oracle.ret (ProviderRoute.Json r, sent) in
  match request with
  | Throw e => failure e []
  | Normal b =>
      match ProviderRoute.prompt b with
      | None =>
          Oracle.ret (ProviderRoute.BadRequest (str "prompt is required"), [])
      | Some prompt =>
          if negb (truthy_str prompt) then
            Oracle.ret
              (ProviderRoute.BadRequest (str "prompt is required"), [])
          else
            match getRequiredApiKey env (str "CEREBRAS_API_KEY") with
            | Throw e => failure e []
            | Normal apiKey =>
                let sent :=
                  mkRequest apiKey (pc_model provider) prompt
                    (match ProviderRoute.max_tokens b with
                     | Some m => if truthy_num m then m
                                 else inject_Z DEFAULTS.MAX_TOKENS
                     | None => inject_Z DEFAULTS.MAX_TOKENS
                     end)
                    true in
                match create sent with
                | CreateRejects e => failure e [sent]
                | Stream chunks ending =>
                    out <- consume metrics chunks ;;
                    match out with
                    | (_, Some e) => failure e [sent]
                    | (m, None) =>
                        match ending with
                        | ProviderRoute.StreamThrows e => failure e [sent]
                        | ProviderRoute.StreamDone =>
                            r <- buildSuccessResult clock (str "cerebras")
                                   (pc_model provider) m ;;
                            Oracle.ret (ProviderRoute.Json r, [sent])
                        end
                    end
                end
            end
      end
  end.

End Route.

End CerebrasRoute.

(** The text of a content that is a string. *)
Definition textOf (content : value) : option jsstring :=
  match content with
  | JString s => Some s
  | _ => None
  end.

Definition is_text (content : value) : Prop :=
  exists s, content = JString s.

(** The result of a failed benchmark: the error and no measurement but
    the elapsed time. *)
Definition failed_with (id model0 message : jsstring) (r : BenchmarkResult)
  : Prop :=
  provider r = id /\ model r = model0 /\ error r = Some message
  /\ ttft_ms r = 0 /\ tokens_per_second r = 0 /\ token_count r = 0%Z
  /\ time_to_100_tokens_ms r = None /\ throughput_first_100 r = None.

(** The text that a chunk of the Cerebras stream carries, if any. *)
Definition chunkText (chunk : value) : option jsstring :=
  match CerebrasRoute.chunkContent chunk with
  | Normal (Some v) => textOf v
  | _ => None
  end.

(** A chunk whose content can be read and, when it counts, is a string. *)
Definition well_typed_chunk (chunk : value) : Prop :=
  exists content,
    CerebrasRoute.chunkContent chunk = Normal content
    /\ forall v, content = Some v -> truthy v = true -> is_text v.

(* ------------------------------------------------------------------ *)
(** ** src/app/api/agent-race/route.ts: [callProvider] *)

Module AgentRaceCall.

(** The client key and the arguments of [chat.completions.create]. *)
Record sdk_request := mkSdkRequest {
  sdk_apiKey : jsstring;
  sdk_model : jsstring;
  sdk_prompt : jsstring;
  sdk_max_tokens : Z
}.

Inductive sdk_outcome :=
| CreateRejects (e : thrown)
| CreateResolves (response : value).

Record fetch_request := mkRequest {
  req_url : jsstring;
  req_authorization : jsstring;
  req_model : jsstring;
  req_prompt : jsstring;
  req_max_tokens : Z
}.

Record http_response := mkResponse {
  ok : bool;
  status : N;
  text : completion jsstring;        (* [response.text()] *)
  json : completion value            (* [response.json()] *)
}.

Inductive fetch_outcome :=
| FetchRejects (e : thrown)
| FetchResolves (response : http_response).

(** [choices?.[0]?.message?.content || ""]. *)
Definition messageContent (choices : option value) : completion value :=
  first <~ opt_chain choices get_index0 ;;
  message <~ opt_chain first (fun v => get_prop v (str "message")) ;;
  content <~ opt_chain message (fun v => get_prop v (str "content")) ;;
  Normal (match content with
          | Some v => if truthy v then v else JString []
          | None => JString []
          end).

Section Call.

Variable env : environment.
Variable create : sdk_request -> sdk_outcome.
Variable fetch : fetch_request -> fetch_outcome.

(** The [content] of the object that [callProvider] resolves to, or the
    exception it rejects with. *)
Definition callProvider (provider prompt : jsstring) (maxTokens : Z)
  : completion value :=
  if jsstring_eqb provider (str "cerebras") then
    apiKey <~ getRequiredApiKey env (str "CEREBRAS_API_KEY") ;;
    let providerConfig := providerConfig (str "cerebras") in
    match create (mkSdkRequest apiKey (pc_model providerConfig) prompt
                    maxTokens) with
    | CreateRejects e => Throw e
    | CreateResolves response =>
        choices <~ get_prop response (str "choices") ;;
        messageContent choices
    end
  else
    let apiKeyEnv := if jsstring_eqb provider (str "fireworks")
                     then str "FIREWORKS_API_KEY" else str "GROQ_API_KEY" in
    apiKey <~ getRequiredApiKey env apiKeyEnv ;;
    match record_get providers provider with
    | None =>
        Throw
          (ThrownError
             (str "Cannot read properties of undefined (reading 'endpoint')"))
    | Some providerConfig =>
        match fetch (mkRequest (pc_endpoint providerConfig)
                       (str "Bearer " ++ apiKey) (pc_model providerConfig)
                       prompt maxTokens) with
        | FetchRejects e => Throw e
        | FetchResolves response =>
            if negb (ok response) then
              errorText <~ text response ;;
              Throw (createApiError provider (status response) errorText)
            else
              data <~ json response ;;
              choices <~ get_prop data (str "choices") ;;
              messageContent choices
        end
    end.

End Call.

End AgentRaceCall.

(** The variable that holds the credential of a provider of the race. *)
Definition credentialOf (provider : jsstring) : jsstring :=
  if jsstring_eqb provider (str "cerebras") then str "CEREBRAS_API_KEY"
  else if jsstring_eqb provider (str "fireworks") then str "FIREWORKS_API_KEY"
  else str "GROQ_API_KEY".

(** The race handler sees a rejected call as the exception it carries. *)
Definition rejects_alike
  (concrete : jsstring -> jsstring -> Z -> completion value)
  (callProvider : nat -> jsstring -> jsstring -> Z
                  -> AgentRaceRoute.call_outcome) : Prop :=
  forall i provider prompt maxTokens e,
    concrete provider prompt maxTokens = Throw e ->
    callProvider i provider prompt maxTokens = AgentRaceRoute.CallThrows e.

(* ------------------------------------------------------------------ *)
(** ** src/app/page.tsx: the selection, the request and the summary *)

Module Page.

(** [xs.includes(x)] on an array of strings. *)
Definition includes (xs : list jsstring) (x : jsstring) : bool :=
  existsb (jsstring_eqb x) xs.

Definition toggleProvider (providerId : jsstring) (prev : list jsstring)
  : list jsstring :=
  if includes prev providerId
  then filter (fun p => negb (jsstring_eqb p providerId)) prev
  else prev ++ [providerId].

(** The request that [runBenchmark] sends. *)
Record sent_request := mkSent {
  sent_endpoint : jsstring;
  sent_prompt : jsstring;
  sent_max_tokens : Z;
  sent_providers : list jsstring
}.

(** [runBenchmark]: the request, unless the guard returns first. *)
Definition runBenchmark (selectedProviders : list jsstring)
  (prompt : jsstring) (demoMode : bool) : option sent_request :=
  if (List.length selectedProviders =? 0)%nat
     || negb (truthy_str (trim prompt))
  then None
  else Some (mkSent
               (if demoMode then str "/api/benchmark/mock"
                else str "/api/benchmark")
               (trim prompt) DEFAULTS.MAX_TOKENS selectedProviders).

(** [xs.reduce(f)] without an initial value; the sources call it on
    non-empty arrays only. *)
Definition reduce {A} (f : A -> A -> A) (xs : list A) : option A :=
  match xs with
  | [] => None
  | x :: rest => Some (fold_left f rest x)
  end.

(** [Math.min(x, ...xs)] and [Math.max(x, ...xs)]. *)
Definition Math_min (x : Q) (xs : list Q) : Q :=
  fold_left (fun a b => if Qgtb a b then b else a) xs x.

Definition Math_max (x : Q) (xs : list Q) : Q :=
  fold_left (fun a b => if Qgtb b a then b else a) xs x.

Definition TOKEN_COUNT_VARIATION_RATIO : Q := 2.

Section Stats.

Variable results : list BenchmarkResult.

Definition validResults : list BenchmarkResult :=
  filter (fun r => negb (truthy_opt truthy_str (error r))) results.

Definition fastestTTFT : option BenchmarkResult :=
  if (List.length validResults =? 0)%nat then None
  else reduce (fun a b => if Qgtb (ttft_ms b) (ttft_ms a) then a else b)
         validResults.

Definition slowestTTFT : option BenchmarkResult :=
  if (List.length validResults =? 0)%nat then None
  else reduce (fun a b => if Qgtb (ttft_ms a) (ttft_ms b) then a else b)
         validResults.

Definition highestThroughput : option BenchmarkResult :=
  if (List.length validResults =? 0)%nat then None
  else reduce (fun a b => if Qgtb (tokens_per_second a) (tokens_per_second b)
                          then a else b)
         validResults.

Definition bestTTFT : Q :=
  match List.map ttft_ms validResults with
  | [] => 0
  | x :: xs => Math_min x xs
  end.

Definition bestTPS : Q :=
  match List.map tokens_per_second validResults with
  | [] => 0
  | x :: xs => Math_max x xs
  end.

Definition bestLatency : Q :=
  match List.map total_latency_ms validResults with
  | [] => 0
  | x :: xs => Math_min x xs
  end.

(** [Math.max(...tokenCounts, 0)] and [Math.min(...tokenCounts, 0)]. *)
Definition maxTokens : Z :=
  fold_right Z.max 0%Z (List.map token_count validResults).

Definition minTokens : Z :=
  fold_right Z.min 0%Z (List.map token_count validResults).

Definition tokenCountsVary : bool :=
  (0 <? minTokens)%Z
  && Qgtb (inject_Z maxTokens / inject_Z minTokens)
       TOKEN_COUNT_VARIATION_RATIO.

Definition bestThroughput100 : option BenchmarkResult :=
  if (List.length validResults =? 0)%nat then None
  else reduce
         (fun best r =>
            let t100 := match throughput_first_100 r with
                        | Some t => t
                        | None => tokens_per_second r
                        end in
            let bestT100 := match throughput_first_100 best with
                            | Some t => t
                            | None => tokens_per_second best
                            end in
            if Qgtb t100 bestT100 then r else best)
         validResults.

(** The result behind the throughput headline. *)
Definition headlineThroughput : option BenchmarkResult :=
  if tokenCountsVary then bestThroughput100 else highestThroughput.

(** The cells of the table that are marked as best. *)
Definition marksTTFT (result : BenchmarkResult) : bool :=
  Qeq_bool (ttft_ms result) bestTTFT
  && negb (truthy_opt truthy_str (error result)).

Definition marksTPS (result : BenchmarkResult) : bool :=
  Qeq_bool (tokens_per_second result) bestTPS
  && negb (truthy_opt truthy_str (error result)).

Definition marksLatency (result : BenchmarkResult) : bool :=
  Qeq_bool (total_latency_ms result) bestLatency
  && negb (truthy_opt truthy_str (error result)).

End Stats.

(** *** The ROI calculator *)

Definition DEFAULT_ESTIMATES : list (jsstring * Q) :=     (* [ttft_ms] *)
  [ (str "cerebras", 52); (str "groq", 186); (str "fireworks", 245) ].

(** [arr.find(pred)]. *)
Definition find_result (savedResults : list BenchmarkResult)
  (id : jsstring) : option BenchmarkResult :=
  find (fun r => jsstring_eqb (provider r) id) savedResults.

Inductive impact := Good | Warning | Bad.

Section Roi.

Variable savedResults : list BenchmarkResult.
Variable threshold : Q.          (* [USE_CASES[selectedUseCase].threshold] *)

(** [result?.ttft_ms ?? DEFAULT_ESTIMATES[id]?.ttft_ms ?? 500]. *)
Definition ttftOf (id : jsstring) : Q :=
  match find_result savedResults id with
  | Some r => ttft_ms r
  | None =>
      match record_get DEFAULT_ESTIMATES id with
      | Some estimate => estimate
      | None => 500
      end
  end.

Definition impactOf (id : jsstring) : impact :=
  if Qgtb threshold (ttftOf id) then Good
  else if Qgtb (threshold * 2) (ttftOf id) then Warning
  else Bad.

Definition viableProviders : list jsstring :=
  filter (fun id => Qgtb threshold (ttftOf id)) (Object_keys providers).

Definition nonViableProviders : list jsstring :=
  filter (fun id => negb (includes viableProviders id))
    (Object_keys providers).

End Roi.

End Page.

(** What the handlers read from the body that [runBenchmark] sends. *)
Definition orchestratorBody (s : Page.sent_request)
  : BenchmarkRoute.request_body :=
  BenchmarkRoute.mkBody (Some (Page.sent_prompt s))
    (Some (inject_Z (Page.sent_max_tokens s)))
    (Some (Page.sent_providers s)).

Definition mockBody (s : Page.sent_request) : MockRoute.request_body :=
  MockRoute.mkBody (Some (Page.sent_providers s)).

(** The selection after the toggles of a session, from the initial one. *)
Definition selectionAfter (toggles : list jsstring) : list jsstring :=
  fold_left (fun selected id => Page.toggleProvider id selected) toggles
    (Object_keys providers).

(* ------------------------------------------------------------------ *)
(** ** The platform's [JSON.stringify] *)

Module JsonText.

(** The data that the handlers serialise: integers, strings, booleans,
    arrays and objects. An object lists its properties in the order in
    which they are enumerated. *)
Inductive data :=
| DNull
| DBool (b : bool)
| DInt (n : Z)
| DString (s : jsstring)
| DArray (items : list data)
| DObject (members : list (jsstring * data)).

(** The value that [JSON.parse] is to return for the text of [d]. *)
Fixpoint to_value (d : data) : value :=
  match d with
  | DNull => JNull
  | DBool b => JBool b
  | DInt n => JNumber (inject_Z n)
  | DString s => JString s
  | DArray items => JArray (List.map to_value items)
  | DObject members =>
      JObject (List.map (fun kv => (fst kv, to_value (snd kv))) members)
  end.

(** Leading and trailing surrogates. *)
Definition is_lead (c : N) : bool := ((55296 <=? c) && (c <=? 56319))%N.
Definition is_trail (c : N) : bool := ((56320 <=? c) && (c <=? 57343))%N.

Definition hex_char (d : N) : N :=
  if (d <? 10)%N then (48 + d)%N else (87 + d)%N.

(** The escape of a code unit by its four lowercase hexadecimal digits. *)
Definition unicode_escape (c : N) : jsstring :=
  [92%N; 117%N; hex_char (c / 4096); hex_char ((c / 256) mod 16);
   hex_char ((c / 16) mod 16); hex_char (c mod 16)].

(** A code unit that is not a surrogate, as [QuoteJSONString] writes it. *)
Definition escape_unit (c : N) : jsstring :=
  if (c =? 8)%N then [92%N; 98%N]
  else if (c =? 9)%N then [92%N; 116%N]
  else if (c =? 10)%N then [92%N; 110%N]
  else if (c =? 12)%N then [92%N; 102%N]
  else if (c =? 13)%N then [92%N; 114%N]
  else if (c =? 34)%N then [92%N; 34%N]
  else if (c =? 92)%N then [92%N; 92%N]
  else if (c <? 32)%N then unicode_escape c
  else [c].

(** The string is read by code points: a surrogate pair is written as it
    is, a lone surrogate as its escape. *)
Fixpoint quote_body (s : jsstring) : jsstring :=
  match s with
  | [] => []
  | c :: r =>
      if is_lead c then
        match r with
        | d :: r' =>
            if is_trail d then c :: d :: quote_body r'
            else unicode_escape c ++ quote_body r
        | [] => unicode_escape c
        end
      else if is_trail c then unicode_escape c ++ quote_body r
      else escape_unit c ++ quote_body r
  end.

Definition QuoteJSONString (s : jsstring) : jsstring :=
  34%N :: quote_body s ++ [34%N].

Fixpoint strip_zeros (s : jsstring) : jsstring :=
  match s with
  | c :: r => if (c =? 48)%N then strip_zeros r else s
  | [] => []
  end.

(** [String(n)] for an integer: plain decimal digits below 10^21, and
    above that the significant digits with a decimal exponent. *)
Definition Integer_toString (z : Z) : jsstring :=
  let digits := Number_toString (Z.abs_N z) in
  let sign := if (z <? 0)%Z then [45%N] else [] in
  if (Z.abs z <? 10 ^ 21)%Z then sign ++ digits
  else
    sign
    ++ match rev (strip_zeros (rev digits)) with
       | [] => []
       | [d] => [d]
       | d :: ds => d :: 46%N :: ds
       end
    ++ str "e+" ++ Number_toString (N.of_nat (List.length digits - 1)).

Fixpoint join (sep : N) (parts : list jsstring) : jsstring :=
  match parts with
  | [] => []
  | [p] => p
  | p :: rest => p ++ sep :: join sep rest
  end.

(** [JSON.stringify(d)], without indentation. *)
Fixpoint JSON_stringify (d : data) : jsstring :=
  match d with
  | DNull => str "null"
  | DBool true => str "true"
  | DBool false => str "false"
  | DInt n => Integer_toString n
  | DString s => QuoteJSONString s
  | DArray items =>
      91%N :: join 44 (List.map JSON_stringify items) ++ [93%N]
  | DObject members =>
      123%N
      :: join 44
           (List.map (fun kv => QuoteJSONString (fst kv)
                                ++ 58%N :: JSON_stringify (snd kv))
              members)
      ++ [125%N]
  end.

End JsonText.

(** The integers that are written without exponent. *)
Fixpoint plain_integers (d : JsonText.data) : Prop :=
  match d with
  | JsonText.DInt n => (Z.abs n < 10 ^ 21)%Z
  | JsonText.DArray items =>
      fold_right (fun item rest => plain_integers item /\ rest) True items
  | JsonText.DObject members =>
      fold_right (fun kv rest => plain_integers (snd kv) /\ rest) True members
  | _ => True
  end.

(* ------------------------------------------------------------------ *)
(** ** src/app/api/agent-race/route.ts: the messages on the wire *)

Module AgentRaceWire.

(** The object that the handler passes to [sendSSEMessage] for an event. *)
Definition eventData (e : AgentRaceRoute.event) : JsonText.data :=
  match e with
  | AgentRaceRoute.StepRunning step name =>
      JsonText.DObject
        [ (str "step", JsonText.DInt step);
          (str "name", JsonText.DString name);
          (str "status", JsonText.DString (str "running")) ]
  | AgentRaceRoute.StepComplete step name latency preview =>
      JsonText.DObject
        [ (str "step", JsonText.DInt step);
          (str "name", JsonText.DString name);
          (str "status", JsonText.DString (str "complete"));
          (str "latency_ms", JsonText.DInt latency);
          (str "output_preview", JsonText.DString preview) ]
  | AgentRaceRoute.StepError step name message =>
      JsonText.DObject
        [ (str "step", JsonText.DInt step);
          (str "name", JsonText.DString name);
          (str "status", JsonText.DString (str "error"));
          (str "error", JsonText.DString message) ]
  | AgentRaceRoute.StreamComplete total hasError =>
      JsonText.DObject
        [ (str "complete", JsonText.DBool true);
          (str "total_latency_ms", JsonText.DInt total);
          (str "has_error", JsonText.DBool hasError) ]
  end.

(** The text that [sendSSEMessage] encodes and enqueues. *)
Definition sendSSEMessage (d : JsonText.data) : jsstring :=
  str "data: " ++ JsonText.JSON_stringify d ++ [10%N; 10%N].

(** The chunks of the response body: what is enqueued until the close. *)
Fixpoint enqueued (actions : list AgentRaceRoute.action) : list jsstring :=
  match actions with
  | [] => []
  | AgentRaceRoute.Enqueue e :: rest =>
      sendSSEMessage (eventData e) :: enqueued rest
  | AgentRaceRoute.Close :: _ => []
  end.

End AgentRaceWire.

(* ------------------------------------------------------------------ *)
(** ** src/app/page.tsx: the reader of the agent race *)

Module RaceClient.

Record AgentStepStatus := mkStep {
  step : Z;
  name : jsstring;
  status : option value;
  latency_ms : option value;
  output_preview : option value;
  error : option value
}.

Record AgentRaceState := mkState {
  steps : list AgentStepStatus;
  totalLatency : option value;
  complete : bool;
  race_error : option jsstring
}.

Definition AGENT_STEPS : list jsstring :=
  [str "Research"; str "Summarize"; str "Draft"; str "Critique";
   str "Revise"].

Definition initialState : AgentRaceState :=
  mkState
    (BenchmarkRoute.mapIndexed
       (fun i name =>
          mkStep (Z.of_nat i + 1) name (Some (JString (str "pending")))
            None None None)
       0 AGENT_STEPS)
    (Some (JNumber 0)) false None.

(** [s.split(sep)] for the separator of two line feeds. *)
Fixpoint split_blank (s : jsstring) : list jsstring :=
  match s with
  | [] => [[]]
  | c :: r =>
      let push := match split_blank r with
                  | h :: t => (c :: h) :: t
                  | [] => [[c]]
                  end in
      if (c =? 10)%N then
        match r with
        | d :: r' => if (d =? 10)%N then [] :: split_blank r' else push
        | [] => push
        end
      else push
  end.

(** [step.step === parsed.step]. *)
Definition strictEquals (stepNumber : Z) (v : option value) : bool :=
  match v with
  | Some (JNumber q) => Qeq_bool q (inject_Z stepNumber)
  | _ => false
  end.

(** The function passed to [setAgentRaces], on the entry of the provider;
    an exception in it is thrown when the state is rendered. *)
Definition updater (current : AgentRaceState) (parsed : value)
  : completion AgentRaceState :=
  finished <~ get_prop parsed (str "complete") ;;
  if truthy_opt truthy finished then
    total <~ get_prop parsed (str "total_latency_ms") ;;
    Normal (mkState (steps current) total true (race_error current))
  else
    parsedStep <~ get_prop parsed (str "step") ;;
    parsedStatus <~ get_prop parsed (str "status") ;;
    parsedLatency <~ get_prop parsed (str "latency_ms") ;;
    parsedPreview <~ get_prop parsed (str "output_preview") ;;
    parsedError <~ get_prop parsed (str "error") ;;
    Normal
      (mkState
         (List.map
            (fun s =>
               if strictEquals (step s) parsedStep
               then mkStep (step s) (name s) parsedStatus parsedLatency
                      parsedPreview parsedError
               else s)
            (steps current))
         (totalLatency current) (complete current) (race_error current)).

Definition processLine (state : AgentRaceState) (line : jsstring)
  : completion AgentRaceState :=
  if negb (startsWith line (str "data: ")) then Normal state
  else
    match JSON_parse (skipn 6 line) with
    | Throw _ => Normal state                      (* skip invalid JSON *)
    | Normal parsed => updater state parsed
    end.

Fixpoint processLines (state : AgentRaceState) (lines : list jsstring)
  : completion AgentRaceState :=
  match lines with
  | [] => Normal state
  | line :: rest =>
      s <~ processLine state line ;;
      processLines s rest
  end.

(** The [while] loop over the reads, from the current [buffer]; what is
    left in the buffer when the reads end is not looked at. *)
Fixpoint readLoop (pieces : list jsstring) (buffer : jsstring)
  (state : AgentRaceState) : completion AgentRaceState :=
  match pieces with
  | [] => Normal state
  | piece :: rest =>
      let lines := split_blank (buffer ++ piece) in
      s <~ processLines state (removelast lines) ;;
      readLoop rest (last lines []) s
  end.

Inductive fetch_outcome :=
| FetchRejects (e : thrown)
| FetchResolves (ok : bool) (status : N)
    (body : option (list jsstring * StreamReader.read_end)).

(** One race promise: the state of the provider at the end and the
    [success] flag. *)
Definition race (outcome : fetch_outcome)
  : completion (AgentRaceState * bool) :=
  let failed := fun (state : AgentRaceState) (e : thrown) =>
    Normal (mkState (steps state) (totalLatency state) (complete state)
              (Some (errorMessage (str "Unknown error") e)),
            false) in
  match outcome with
  | FetchRejects e => failed initialState e
  | FetchResolves ok status body =>
      if negb ok then
        failed initialState
          (ThrownError (str "HTTP error: " ++ Number_toString status))
      else
        match body with
        | None => failed initialState (ThrownError (str "No response body"))
        | Some (pieces, ending) =>
            state <~ readLoop pieces [] initialState ;;
            match ending with
            | StreamReader.ReadDone => Normal (state, true)
            | StreamReader.ReadRejects e => failed state e
            end
        end
  end.

End RaceClient.

(** The integers of an event are written without exponent. *)
Definition plain_event (a : AgentRaceRoute.action) : Prop :=
  match a with
  | AgentRaceRoute.Enqueue e => plain_integers (AgentRaceWire.eventData e)
  | AgentRaceRoute.Close => True
  end.

(** What the page shows for a step after an event: the fields of the
    event, and nothing for a field that the event does not have. *)
Definition shown (e : AgentRaceRoute.event) (s : RaceClient.AgentStepStatus)
  : RaceClient.AgentStepStatus :=
  match e with
  | AgentRaceRoute.StepRunning k _ =>
      if (RaceClient.step s =? k)%Z
      then RaceClient.mkStep (RaceClient.step s) (RaceClient.name s)
             (Some (JString (str "running"))) None None None
      else s
  | AgentRaceRoute.StepComplete k _ latency preview =>
      if (RaceClient.step s =? k)%Z
      then RaceClient.mkStep (RaceClient.step s) (RaceClient.name s)
             (Some (JString (str "complete")))
             (Some (JNumber (inject_Z latency))) (Some (JString preview)) None
      else s
  | AgentRaceRoute.StepError k _ message =>
      if (RaceClient.step s =? k)%Z
      then RaceClient.mkStep (RaceClient.step s) (RaceClient.name s)
             (Some (JString (str "error"))) None None (Some (JString message))
      else s
  | AgentRaceRoute.StreamComplete _ _ => s
  end.

(** The state of the page after an event of the race. *)
Definition applyEvent (state : RaceClient.AgentRaceState)
  (e : AgentRaceRoute.event) : RaceClient.AgentRaceState :=
  match e with
  | AgentRaceRoute.StreamComplete total _ =>
      RaceClient.mkState (RaceClient.steps state)
        (Some (JNumber (inject_Z total))) true (RaceClient.race_error state)
  | _ =>
      RaceClient.mkState (List.map (shown e) (RaceClient.steps state))
        (RaceClient.totalLatency state) (RaceClient.complete state)
        (RaceClient.race_error state)
  end.

Definition eventsOf (actions : list AgentRaceRoute.action)
  : list AgentRaceRoute.event :=
  flat_map (fun a => match a with
                     | AgentRaceRoute.Enqueue e => [e]
                     | AgentRaceRoute.Close => []
                     end) actions.

(** The input after a number does not continue it. *)
Definition number_ends (rest : jsstring) : Prop :=
  match rest with
  | [] => True
  | c :: _ => is_digit c = false /\ c <> 46%N /\ c <> 101%N /\ c <> 69%N
  end.

(** The first character of a text: not whitespace, and none of the
    closing brackets. *)
Definition starts_value (text : jsstring) : Prop :=
  exists c r, text = c :: r /\ is_json_ws c = false
              /\ c <> 93%N /\ c <> 125%N.

(** What the round trip states of one datum. *)
Definition parses_back (d : JsonText.data) : Prop :=
  plain_integers d ->
  forall rest, number_ends rest ->
    exists f0, forall f, (f0 <= f)%nat ->
      parse_value f (JsonText.JSON_stringify d ++ rest) = POk (JsonText.to_value d) rest.

(** The events of the steps that complete, one per content, numbered
    from [first + 1], the clock standing at [n]. *)
Fixpoint completedEvents (clock : nat -> Q) (names : list jsstring)
  (first n : nat) (contents : list jsstring) : list AgentRaceRoute.event :=
  match names, contents with
  | name :: names', content :: contents' =>
      AgentRaceRoute.StepRunning (Z.of_nat (first + 1)) name
      :: AgentRaceRoute.StepComplete (Z.of_nat (first + 1)) name
           (Math_round (clock (S n) - clock n))
           (AgentRaceRoute.outputPreview content)
      :: completedEvents clock names' (S first) (S (S n)) contents'
  | _, _ => []
  end.

(** The events of the step of index [k] when its call fails. *)
Definition failedEvents (names : list jsstring) (k : nat) (e : thrown)
  : list AgentRaceRoute.event :=
  match nth_error names k with
  | Some name =>
      [ AgentRaceRoute.StepRunning (Z.of_nat (k + 1)) name;
        AgentRaceRoute.StepError (Z.of_nat (k + 1)) name
          (AgentRaceRoute.stepErrorMessage e) ]
  | None => []
  end.

Definition eventLatency (e : AgentRaceRoute.event) : list Z :=
  match e with
  | AgentRaceRoute.StepComplete _ _ l _ => [l]
  | _ => []
  end.

(** The steps that the page shows as complete, as pending, and in error. *)
Fixpoint completedSteps (clock : nat -> Q) (names : list jsstring)
  (first n : nat) (contents : list jsstring)
  : list RaceClient.AgentStepStatus :=
  match names, contents with
  | name :: names', content :: contents' =>
      RaceClient.mkStep (Z.of_nat first + 1) name
        (Some (JString (str "complete")))
        (Some (JNumber (inject_Z (Math_round (clock (S n) - clock n)))))
        (Some (JString (AgentRaceRoute.outputPreview content))) None
      :: completedSteps clock names' (S first) (S (S n)) contents'
  | _, _ => []
  end.

Definition pendingSteps (names : list jsstring) (first : nat)
  : list RaceClient.AgentStepStatus :=
  BenchmarkRoute.mapIndexed
    (fun i name =>
       RaceClient.mkStep (Z.of_nat i + 1) name
         (Some (JString (str "pending"))) None None None)
    first names.

Definition failedSteps (names : list jsstring) (k : nat) (e : thrown)
  : list RaceClient.AgentStepStatus :=
  match nth_error names k with
  | Some name =>
      [ RaceClient.mkStep (Z.of_nat k + 1) name
          (Some (JString (str "error"))) None None
          (Some (JString (AgentRaceRoute.stepErrorMessage e))) ]
  | None => []
  end.

(** The step that an event is about. *)
Definition event_step (e : AgentRaceRoute.event) : option Z :=
  match e with
  | AgentRaceRoute.StepRunning k _
  | AgentRaceRoute.StepComplete k _ _ _
  | AgentRaceRoute.StepError k _ _ => Some k
  | AgentRaceRoute.StreamComplete _ _ => None
  end.

(* ------------------------------------------------------------------ *)
(** ** src/app/page.tsx: the start of the agent race *)

Module RacePage.

Definition AGENT_PROVIDERS : list jsstring :=
  [str "cerebras"; str "groq"; str "fireworks"].

(** The initial value of [selectedAgentProviders]. *)
Definition initialSelection : list jsstring := [str "cerebras"; str "groq"].

Definition toggleAgentProvider (provider : jsstring) (prev : list jsstring)
  : list jsstring :=
  if Page.includes prev provider
  then filter (fun p => negb (jsstring_eqb p provider)) prev
  else prev ++ [provider].

(** [runAgentRace]: the bodies of the requests it sends, one per selected
    provider, unless the guard returns first. *)
Definition runAgentRace (selectedAgentProviders : list jsstring)
  (companyName : jsstring) : list AgentRaceRoute.request_body :=
  if (List.length selectedAgentProviders =? 0)%nat
     || negb (truthy_str (trim companyName))
  then []
  else List.map
         (fun provider =>
            AgentRaceRoute.mkBody (Some provider) (Some (trim companyName)))
         selectedAgentProviders.

End RacePage.

(** The selection of the race after the toggles of a session. *)
Definition raceSelectionAfter (toggles : list jsstring) : list jsstring :=
  fold_left (fun selected id => RacePage.toggleAgentProvider id selected)
    toggles RacePage.initialSelection.

(* ------------------------------------------------------------------ *)
(** * Properties *)

(** ** Numbers and strings *)

Lemma jsstring_eqb_eq a b : jsstring_eqb a b = true <-> a = b.
Proof.
  unfold jsstring_eqb; destruct (list_eq_dec N.eq_dec a b); split;
    congruence.
Qed.

Lemma jsstring_eqb_refl a : jsstring_eqb a a = true.
Proof. apply jsstring_eqb_eq; reflexivity. Qed.

Lemma Qgtb_lt a b : Qgtb a b = true <-> b < a.
Proof.
  unfold Qgtb. rewrite negb_true_iff. split; intro H.
  - apply Qnot_le_lt. intro Hle. apply Qle_bool_iff in Hle. congruence.
  - destruct (Qle_bool a b) eqn:E; [|reflexivity].
    apply Qle_bool_iff in E. exfalso. apply (Qlt_not_le _ _ H E).
Qed.

Lemma Qgtb_le a b : Qgtb a b = false <-> a <= b.
Proof.
  unfold Qgtb. rewrite negb_false_iff. apply Qle_bool_iff.
Qed.

Lemma truthy_num_neq x : truthy_num x = true <-> ~ x == 0.
Proof.
  unfold truthy_num. rewrite negb_true_iff. split; intro H.
  - apply Qeq_bool_neq; assumption.
  - destruct (Qeq_bool x 0) eqn:E; [|reflexivity].
    apply Qeq_bool_iff in E. contradiction.
Qed.

Lemma truthy_num_eq x : truthy_num x = false <-> x == 0.
Proof.
  unfold truthy_num. rewrite negb_false_iff. apply Qeq_bool_iff.
Qed.

Lemma estimateTokenCount_mono (a b : jsstring) :
  (List.length a <= List.length b)%nat ->
  (estimateTokenCount a <= estimateTokenCount b)%Z.
Proof.
  intro H. unfold estimateTokenCount, Math_ceil.
  apply Qceiling_resp_le.
  apply Qmult_le_compat_r.
  - rewrite <- Zle_Qle. lia.
  - unfold DEFAULTS.CHARS_PER_TOKEN. unfold Qle; simpl; lia.
Qed.

Lemma estimateTokenCount_nonneg (a : jsstring) :
  (0 <= estimateTokenCount a)%Z.
Proof.
  change 0%Z with (estimateTokenCount []).
  apply estimateTokenCount_mono. simpl; lia.
Qed.

(** ** The failure path of the provider routes *)

Section ErrorResult.

Variable clock : nat -> Q.

(** C1 (as amended). [buildErrorResult] always sets the error field, zeroes
    the time to first token, the throughput and the token count, leaves
    both optional fields absent, and reports as total latency the rounded
    time elapsed since the start time. *)
Theorem buildErrorResult_fields (provider0 model0 : jsstring) (e : thrown)
  (start : Q) (n : nat) :
  let r := Oracle.run (buildErrorResult clock provider0 model0 e start) n in
  error r = Some (errorMessage (str "Unknown error") e)
  /\ provider r = provider0 /\ model r = model0
  /\ ttft_ms r = 0 /\ tokens_per_second r = 0 /\ token_count r = 0%Z
  /\ total_latency_ms r = inject_Z (Math_round (clock n - start))
  /\ time_to_100_tokens_ms r = None /\ throughput_first_100 r = None
  /\ (forall cfg body chunks,
        truthy_opt truthy_str (ProviderRoute.prompt body) = true ->
        exists t,
          fst (ProviderRoute.POST clock provider0 cfg (Normal body) chunks
                 (ProviderRoute.StreamThrows e) n)
          = ProviderRoute.Json
              (Oracle.run (buildErrorResult clock provider0 (pc_model cfg) e
                             (clock n)) t)).
Proof.
  cbn zeta. repeat (split; [reflexivity|]).
  intros cfg body chunks Hp.
  unfold ProviderRoute.POST, createStreamMetrics, now, Oracle.next,
    Oracle.bind, Oracle.ret, Oracle.run.
  rewrite Hp. cbn [negb startTime].
  destruct (ProviderRoute.driveStream clock
              (mkMetrics (clock n) None None 0 []) chunks (S n)) as [m t].
  exists t. unfold buildErrorResult, now, Oracle.next, Oracle.bind, Oracle.ret.
  reflexivity.
Qed.

End ErrorResult.

(** C1 (as stated) fails: a provider call that started at 1000 ms and
    failed at 1250 ms yields a total latency of 250 ms, not zero. *)
Lemma buildErrorResult_latency_not_zero :
  let r := Oracle.run
             (buildErrorResult (fun _ => 1250) (str "cerebras")
                (str "llama-3.3-70b") (ThrownError (str "fetch failed"))
                1000) 0 in
  error_present r = true
  /\ total_latency_ms r = 250
  /\ ~ error_only r.
Proof.
  cbn. split; [reflexivity|]. split; [reflexivity|].
  intros (_ & _ & _ & H & _). revert H. cbn. unfold Qeq; cbn. lia.
Qed.

(** ** Finalisation of the accumulator *)

Section Finalize.

Variable clock : nat -> Q.

Lemma calculateBenchmarkMetrics_run (m : StreamMetrics) (n : nat) :
  calculateBenchmarkMetrics clock m n =
  (mkCalculated
     (match firstTokenTime m with
      | Some f => if truthy_num f then f - startTime m
                  else clock n - startTime m
      | None => clock n - startTime m
      end)
     (clock n - startTime m)
     (if (0 <? tokenCount m)%Z && Qgtb (clock n - startTime m) 0
      then (inject_Z (tokenCount m) / (clock n - startTime m)) * 1000
      else 0)
     (match timeToHundredTokens m with
      | Some d => if truthy_num d then Some (100 / (d / 1000)) else None
      | None => None
      end),
   S n).
Proof. reflexivity. Qed.

Lemma per_second (count total : Q) :
  ~ total == 0 -> (count / total) * 1000 == count / (total / 1000).
Proof. intro H. field. exact H. Qed.

(** C4 (as amended). For an accumulator whose first-token timestamp, if
    recorded, is not the clock reading 0, finalised at a reading [now] that
    is not before the start, with a non-negative token count: the time to
    first token is [firstTokenTime - startTime] if a first token was
    recorded and [now - startTime] otherwise; the total latency is
    [now - startTime]; tokens per second is the token count divided by the
    total latency in seconds, and 0 when either is zero; the throughput of
    the first 100 tokens is 100 divided by [timeToHundredTokens] in seconds
    when that time is recorded and not zero, and null when it is unset or
    zero. Without a recorded first token, the time to first token equals
    the total latency. *)
Theorem calculateBenchmarkMetrics_spec (m : StreamMetrics) (n : nat) :
  (forall f, firstTokenTime m = Some f -> ~ f == 0) ->
  startTime m <= clock n ->
  (0 <= tokenCount m)%Z ->
  let c := Oracle.run (calculateBenchmarkMetrics clock m) n in
  let total := clock n - startTime m in
  ttftMs c = match firstTokenTime m with
             | Some f => f - startTime m
             | None => total
             end
  /\ totalLatencyMs c = total
  /\ tokensPerSecond c ==
       (if (tokenCount m =? 0)%Z || Qeq_bool total 0 then 0
        else inject_Z (tokenCount m) / (total / 1000))
  /\ throughputFirst100 c =
       match timeToHundredTokens m with
       | Some d => if Qeq_bool d 0 then None else Some (100 / (d / 1000))
       | None => None
       end
  /\ (firstTokenTime m = None -> ttftMs c = totalLatencyMs c).
Proof.
  intros Hfirst Hclock Hcount c total. subst c.
  unfold Oracle.run. rewrite calculateBenchmarkMetrics_run. cbn [fst].
  cbn [ttftMs totalLatencyMs tokensPerSecond throughputFirst100].
  fold total.
  split; [|split; [reflexivity|split; [|split]]].
  - destruct (firstTokenTime m) as [f|] eqn:Ef; [|reflexivity].
    destruct (truthy_num f) eqn:Et; [reflexivity|].
    apply truthy_num_eq in Et. exfalso. exact (Hfirst f eq_refl Et).
  - destruct (Z.eqb_spec (tokenCount m) 0) as [Ez|Ez].
    + rewrite Ez. reflexivity.
    + assert (Hpos : (0 <? tokenCount m)%Z = true) by (apply Z.ltb_lt; lia).
      rewrite Hpos. cbn [andb orb].
      destruct (Qeq_bool total 0) eqn:Eq.
      * apply Qeq_bool_iff in Eq.
        assert (Hg : Qgtb total 0 = false)
          by (apply Qgtb_le; rewrite Eq; apply Qle_refl).
        rewrite Hg. reflexivity.
      * apply Qeq_bool_neq in Eq.
        assert (Hg : Qgtb total 0 = true).
        { apply Qgtb_lt. apply Qle_lt_or_eq in Hclock.
          unfold total. destruct Hclock as [Hlt|Heq].
          - rewrite <- (Qplus_opp_r (startTime m)).
            apply Qplus_lt_l. exact Hlt.
          - exfalso. apply Eq. unfold total. rewrite Heq. ring. }
        rewrite Hg. apply per_second. exact Eq.
  - destruct (timeToHundredTokens m) as [d|]; [|reflexivity].
    unfold truthy_num. destruct (Qeq_bool d 0); reflexivity.
  - intro Hnone. rewrite Hnone. reflexivity.
Qed.

End Finalize.

(** A concrete finalisation that meets the three hypotheses: 40 tokens,
    first token at 1200 ms, started at 1000 ms, finalised at 1500 ms. *)
Lemma calculateBenchmarkMetrics_spec_witness :
  let m := mkMetrics 1000 (Some 1200) None 40 (repeat 97%N 160) in
  let c := Oracle.run (calculateBenchmarkMetrics (fun _ => 1500) m) 0 in
  ttftMs c = 1200 - 1000
  /\ totalLatencyMs c = 1500 - 1000
  /\ tokensPerSecond c == 80
  /\ throughputFirst100 c = None.
Proof.
  intros m c.
  destruct (@calculateBenchmarkMetrics_spec (fun _ => 1500) m 0%nat)
    as (H1 & H2 & H3 & H4 & _).
  - intros f Hf. injection Hf as <-. discriminate.
  - cbn. discriminate.
  - cbn. lia.
  - split; [exact H1|]. split; [exact H2|]. split; [|exact H4].
    refine (Qeq_trans _ _ _ H3 _). vm_compute. reflexivity.
Defined.

(** C4 (as stated) fails. With a clock that reads 7 at creation and still
    reads 7 while a first chunk of 400 characters is recorded, the
    accumulator has reached the 100-token threshold after 0 ms, and the
    finalisation reports no throughput for the first 100 tokens. *)
Lemma finalize_zero_elapsed_counterexample :
  let clock := fun _ : nat => 7 in
  let m := Oracle.run
             (m0 <- createStreamMetrics clock ;;
              updateMetrics clock m0 (repeat 97%N 400)) 0 in
  tokenCount m = 100%Z
  /\ timeToHundredTokens m = Some (7 - 7)
  /\ throughputFirst100 (Oracle.run (calculateBenchmarkMetrics clock m) 3)
     = None
  /\ ~ finalize_as_specified clock m 3.
Proof.
  intros clock m.
  assert (Hm : m = mkMetrics 7 (Some 7) (Some (7 - 7)) 100 (repeat 97%N 400))
    by (vm_compute; reflexivity).
  rewrite Hm. split; [reflexivity|]. split; [reflexivity|].
  split; [reflexivity|].
  intros (_ & _ & _ & H & _). cbn in H.
  destruct H as (x & Hx & _). discriminate Hx.
Qed.

(** ** Updates of the accumulator *)

Lemma nth_error_sorted {A} (R : A -> A -> Prop) (l : list A) :
  Sorted.StronglySorted R l ->
  forall i j a b, (i < j)%nat ->
    nth_error l i = Some a -> nth_error l j = Some b -> R a b.
Proof.
  induction 1 as [|x l Hs IH Hall]; intros i j a b Hij Ha Hb.
  - destruct i; discriminate.
  - destruct j as [|j]; [lia|]. destruct i as [|i].
    + injection Ha as <-. cbn in Hb. apply nth_error_In in Hb.
      rewrite Forall_forall in Hall. apply Hall; assumption.
    + cbn in Ha, Hb. apply (IH i j); [lia|assumption|assumption].
Qed.

Lemma last_default {A} (l : list A) (x d d' : A) :
  last (x :: l) d = last (x :: l) d'.
Proof.
  revert x. induction l as [|y l IH]; intro x; [reflexivity|].
  change (last (y :: l) d = last (y :: l) d'). apply IH.
Qed.

Section Updates.

Variable clock : nat -> Q.

Lemma evolves_refl m : evolves m m.
Proof. repeat split; auto; lia. Qed.

Lemma evolves_trans a b c : evolves a b -> evolves b c -> evolves a c.
Proof.
  intros (H1 & H2 & H3) (K1 & K2 & K3). repeat split; auto; lia.
Qed.

Lemma updateMetrics_run (m : StreamMetrics) (c : jsstring) (n : nat) :
  updateMetrics clock m c n =
  let n1 := match firstTokenTime m with None => S n | Some _ => n end in
  let count := estimateTokenCount (fullResponse m ++ c) in
  let reached := (DEFAULTS.TOKEN_THRESHOLD_FOR_METRICS <=? count)%Z in
  (mkMetrics (startTime m)
     (match firstTokenTime m with
      | None => Some (clock n)
      | Some t => Some t
      end)
     (match timeToHundredTokens m with
      | None => if reached then Some (clock n1 - startTime m) else None
      | Some d => Some d
      end)
     count (fullResponse m ++ c),
   match timeToHundredTokens m with
   | None => if reached then S n1 else n1
   | Some _ => n1
   end).
Proof.
  unfold updateMetrics, Oracle.bind, Oracle.ret, now, Oracle.next.
  destruct (firstTokenTime m), (timeToHundredTokens m);
    destruct (DEFAULTS.TOKEN_THRESHOLD_FOR_METRICS
              <=? estimateTokenCount (fullResponse m ++ c))%Z;
    reflexivity.
Qed.

Lemma updateMetrics_first (m : StreamMetrics) (c : jsstring) (n : nat) :
  firstTokenTime (fst (updateMetrics clock m c n)) =
  match firstTokenTime m with None => Some (clock n) | Some t => Some t end.
Proof. rewrite updateMetrics_run. reflexivity. Qed.

Lemma updateMetrics_evolves (m : StreamMetrics) (c : jsstring) (n : nat) :
  counted m ->
  evolves m (fst (updateMetrics clock m c n))
  /\ counted (fst (updateMetrics clock m c n)).
Proof.
  intros (Hcount & Hreach). rewrite updateMetrics_run. cbn.
  split; [split; [|split]|split].
  - rewrite Hcount. apply estimateTokenCount_mono.
    rewrite length_app. lia.
  - intros t Ht. rewrite Ht. reflexivity.
  - intros d Hd. rewrite Hd. reflexivity.
  - reflexivity.
  - destruct (timeToHundredTokens m) as [d|] eqn:Ed.
    + intros _. assert (H : timeToHundredTokens m <> None) by congruence.
      rewrite Ed in H. specialize (Hreach H). rewrite Hcount in Hreach.
      etransitivity; [exact Hreach|].
      apply estimateTokenCount_mono. rewrite length_app. lia.
    + destruct (Z.leb_spec DEFAULTS.TOKEN_THRESHOLD_FOR_METRICS
                  (estimateTokenCount (fullResponse m ++ c))) as [Hle|Hlt].
      * intros _. exact Hle.
      * intro H. contradiction.
Qed.

(** Along a sequence of updates every state evolves from every earlier
    one, and no state is without a first-token time. *)
Lemma updateHistory_sorted (contents : list jsstring) :
  forall (m : StreamMetrics) (n : nat), counted m ->
    Sorted.StronglySorted evolves (m :: fst (updateHistory clock m contents n))
    /\ Forall (fun b => counted b /\ firstTokenTime b <> None)
         (fst (updateHistory clock m contents n)).
Proof.
  induction contents as [|c rest IH]; intros m n Hm.
  - cbn. split; constructor; constructor.
  - cbn [updateHistory]. unfold Oracle.bind, Oracle.ret.
    destruct (updateMetrics clock m c n) as [m1 n1] eqn:Eu.
    destruct (updateHistory clock m1 rest n1) as [h n2] eqn:Eh.
    cbn [fst].
    destruct (@updateMetrics_evolves m c n Hm) as [Hev Hc1].
    rewrite Eu in Hev, Hc1. cbn [fst] in Hev, Hc1.
    destruct (IH m1 n1 Hc1) as [Hs Hall]. rewrite Eh in Hs, Hall.
    cbn [fst] in Hs, Hall.
    split.
    + constructor; [exact Hs|].
      constructor; [exact Hev|].
      apply Sorted.StronglySorted_inv in Hs. destruct Hs as [_ Hs].
      eapply Forall_impl; [|exact Hs].
      intros b Hb. eapply evolves_trans; eassumption.
    + constructor; [|exact Hall].
      split; [exact Hc1|].
      pose proof (updateMetrics_first m c n) as Hf. rewrite Eu in Hf.
      cbn [fst] in Hf. rewrite Hf. destruct (firstTokenTime m); discriminate.
Qed.

Lemma driveStream_blank (pre : list (option jsstring)) :
  forallb blank_chunk pre = true ->
  forall m n, ProviderRoute.driveStream clock m pre n = (m, n).
Proof.
  induction pre as [|ch pre IH]; intros Hb m n; [reflexivity|].
  cbn in Hb. apply andb_true_iff in Hb. destruct Hb as [Hch Hpre].
  cbn [ProviderRoute.driveStream]. unfold blank_chunk in Hch.
  destruct ch as [c|]; cbn in Hch.
  - apply negb_true_iff in Hch. rewrite Hch. apply IH; assumption.
  - apply IH; assumption.
Qed.

Lemma driveStream_app (pre post : list (option jsstring)) :
  forall m n,
    ProviderRoute.driveStream clock m (pre ++ post) n =
    ProviderRoute.driveStream clock
      (fst (ProviderRoute.driveStream clock m pre n)) post
      (snd (ProviderRoute.driveStream clock m pre n)).
Proof.
  induction pre as [|ch pre IH]; intros m n; [reflexivity|].
  cbn [app ProviderRoute.driveStream].
  destruct ch as [c|]; [|apply IH].
  destruct (truthy_str c); [|apply IH].
  unfold Oracle.bind. destruct (updateMetrics clock m c n) as [m1 n1].
  apply IH.
Qed.

Lemma driveStream_keeps_first (chunks : list (option jsstring)) :
  forall m n t, firstTokenTime m = Some t ->
    firstTokenTime (fst (ProviderRoute.driveStream clock m chunks n)) = Some t.
Proof.
  induction chunks as [|ch rest IH]; intros m n t Ht; [exact Ht|].
  cbn [ProviderRoute.driveStream].
  destruct ch as [c|]; [|apply IH; exact Ht].
  destruct (truthy_str c); [|apply IH; exact Ht].
  unfold Oracle.bind.
  pose proof (updateMetrics_first m c n) as Hf.
  destruct (updateMetrics clock m c n) as [m1 n1]. cbn [fst] in Hf.
  apply IH. rewrite Hf, Ht. reflexivity.
Qed.

Lemma driveStream_history (chunks : list (option jsstring)) :
  forall m n,
    fst (ProviderRoute.driveStream clock m chunks n) =
    last (fst (updateHistory clock m (forwarded chunks) n)) m.
Proof.
  induction chunks as [|ch rest IH]; intros m n; [reflexivity|].
  cbn [ProviderRoute.driveStream forwarded flat_map].
  fold (forwarded rest).
  destruct ch as [c|]; [|apply IH].
  destruct (truthy_str c); [|apply IH].
  cbn [app updateHistory]. unfold Oracle.bind, Oracle.ret.
  destruct (updateMetrics clock m c n) as [m1 n1].
  rewrite IH.
  destruct (updateHistory clock m1 (forwarded rest) n1) as [h n2].
  cbn [fst]. destruct h as [|s h]; [reflexivity|].
  change (last (s :: h) m1 = last (s :: h) m). apply last_default.
Qed.

(** C5. Start from a freshly created accumulator. Along any sequence of
    [updateMetrics] calls, between any state and any later one the token
    count does not decrease and a recorded [firstTokenTime] or
    [timeToHundredTokens] is kept as it is (each is assigned at most once
    and never reset); in every state the token count is the ceiling of
    the accumulated length over 4, and [timeToHundredTokens] is recorded
    only with at least 100 tokens; [firstTokenTime] is unset exactly
    before the first update. The stream loop of the routes makes these
    calls for the non-empty chunks only, so [firstTokenTime] stays unset
    over leading empty chunks and is the clock reading taken at the first
    non-empty one. *)
Theorem updateMetrics_invariants (contents : list jsstring)
  (chunks : list (option jsstring)) (n : nat) :
  let fresh := fst (createStreamMetrics clock n) in
  let n0 := snd (createStreamMetrics clock n) in
  let states := fresh :: fst (updateHistory clock fresh contents n0) in
  (forall i j a b, (i <= j)%nat ->
     nth_error states i = Some a -> nth_error states j = Some b ->
     (tokenCount a <= tokenCount b)%Z
     /\ (forall t, firstTokenTime a = Some t -> firstTokenTime b = Some t)
     /\ (forall d, timeToHundredTokens a = Some d ->
                   timeToHundredTokens b = Some d))
  /\ (forall i b, nth_error states i = Some b ->
        tokenCount b = Math_ceil (inject_Z (Z.of_nat (List.length
                                                        (fullResponse b)))
                                  / 4)
        /\ (timeToHundredTokens b <> None -> (100 <= tokenCount b)%Z)
        /\ (firstTokenTime b = None <-> i = 0%nat))
  /\ (forall pre c post,
        forallb blank_chunk pre = true -> truthy_str c = true ->
        firstTokenTime (fst (ProviderRoute.driveStream clock fresh pre n0))
        = None
        /\ firstTokenTime
             (fst (ProviderRoute.driveStream clock fresh
                     (pre ++ Some c :: post) n0))
           = Some (clock n0))
  /\ fst (ProviderRoute.driveStream clock fresh chunks n0)
     = last (fst (updateHistory clock fresh (forwarded chunks) n0)) fresh.
Proof.
  intros fresh n0 states.
  assert (Hfresh : counted fresh).
  { split; [reflexivity|]. intro H. exfalso. apply H. reflexivity. }
  destruct (@updateHistory_sorted contents fresh n0 Hfresh) as [Hs Hall].
  fold states in Hs.
  split; [|split; [|split]].
  - intros i j a b Hij Ha Hb.
    destruct (Nat.eq_dec i j) as [->|Hne].
    + rewrite Ha in Hb. injection Hb as <-. apply evolves_refl.
    + apply (nth_error_sorted Hs) with (i := i) (j := j);
        [lia|assumption|assumption].
  - intros i b Hb. destruct i as [|i].
    + injection Hb as <-. split; [reflexivity|]. split.
      * intro H. exfalso. apply H. reflexivity.
      * split; reflexivity.
    + cbn in Hb. apply nth_error_In in Hb.
      rewrite Forall_forall in Hall. destruct (Hall b Hb) as [[Hc Hr] Hf].
      split; [exact Hc|]. split; [exact Hr|].
      split; [intro; contradiction|discriminate].
  - intros pre c post Hpre Hc.
    rewrite driveStream_app, (driveStream_blank pre Hpre). cbn [fst snd].
    split; [reflexivity|].
    cbn [ProviderRoute.driveStream]. rewrite Hc. unfold Oracle.bind.
    pose proof (updateMetrics_first fresh c n0) as Hf.
    destruct (updateMetrics clock fresh c n0) as [m1 n1]. cbn [fst] in Hf.
    apply driveStream_keeps_first. exact Hf.
  - apply driveStream_history.
Qed.

(** A stream without any content: the route reports a time to first
    token equal to the total latency, and no tokens. *)
Lemma route_without_content (id : jsstring) (cfg : ProviderConfig)
  (body : ProviderRoute.request_body) (chunks : list (option jsstring))
  (n : nat) :
  truthy_opt truthy_str (ProviderRoute.prompt body) = true ->
  forallb blank_chunk chunks = true ->
  exists r,
    fst (ProviderRoute.POST clock id cfg (Normal body) chunks
           ProviderRoute.StreamDone n) = ProviderRoute.Json r
    /\ ttft_ms r = total_latency_ms r
    /\ token_count r = 0%Z /\ error r = None.
Proof.
  intros Hp Hblank.
  unfold ProviderRoute.POST, createStreamMetrics, now, Oracle.next,
    Oracle.bind, Oracle.ret.
  rewrite Hp. cbn [negb]. rewrite (driveStream_blank chunks Hblank).
  eexists. split; [reflexivity|]. repeat split.
Qed.

End Updates.

(** C5 (as stated) fails. On a fresh accumulator the update with an empty
    chunk records [firstTokenTime], at the clock reading of that call; the
    update with the first non-empty chunk, [abc], finds it recorded and
    keeps it. The time is assigned on the first update call, not on the
    first non-empty content chunk. *)
Lemma updateMetrics_stamps_empty_chunk :
  let clock := fun n : nat => inject_Z (Z.of_nat n) in
  let fresh := Oracle.run (createStreamMetrics clock) 0 in
  let states := fst (updateHistory clock fresh [[]; str "abc"] 1%nat) in
  firstTokenTime fresh = None
  /\ List.map fullResponse states = [[]; str "abc"]
  /\ List.map firstTokenTime states = [Some 1; Some 1]
  /\ ~ (forall m, nth_error states 0 = Some m ->
          fullResponse m = [] -> firstTokenTime m = None).
Proof.
  cbv zeta. split; [reflexivity|]. split; [vm_compute; reflexivity|].
  split; [vm_compute; reflexivity|].
  intro H.
  specialize (H (mkMetrics 0 (Some 1) None 0 []) eq_refl eq_refl).
  discriminate H.
Qed.

(** ** Adequacy of the recursion budget of the JSON parser *)

Lemma skip_ws_length (s : jsstring) :
  (List.length (skip_ws s) <= List.length s)%nat.
Proof.
  induction s as [|c r IH]; [apply Nat.le_refl|].
  cbn [skip_ws]. destruct (is_json_ws c); cbn [List.length]; lia.
Qed.

Lemma starts_with_char_length (c : N) (s r : jsstring) :
  starts_with_char c s = Some r -> List.length s = S (List.length r).
Proof.
  destruct s as [|d s']; [discriminate|]. cbn.
  destruct (c =? d)%N; [|discriminate]. intro H. injection H as ->.
  reflexivity.
Qed.

Lemma strip_prefix_length (p s r : jsstring) :
  strip_prefix p s = Some r ->
  List.length s = (List.length p + List.length r)%nat.
Proof.
  revert s. induction p as [|a p IH]; intros s H.
  - cbn in H. injection H as ->. reflexivity.
  - destruct s as [|b s']; [discriminate|]. cbn in H.
    destruct (a =? b)%N; [|discriminate].
    cbn [List.length]. rewrite (IH _ H). reflexivity.
Qed.

Lemma parse_string_body_consumes (s : jsstring) :
  forall acc v r, parse_string_body s acc = Some (v, r) ->
                  (List.length r < List.length s)%nat.
Proof.
  induction s as [s IH] using (well_founded_induction
                                 (Wf_nat.well_founded_ltof _ (@List.length N))).
  unfold Wf_nat.ltof in IH. intros acc v r'.
  destruct s as [|c r]; [discriminate|].
  cbn [parse_string_body].
  destruct (c =? 34)%N.
  { intro H. injection H as _ <-. cbn; lia. }
  destruct (c =? 92)%N.
  - destruct r as [|e r1]; [discriminate|].
    destruct (e =? 117)%N.
    + destruct r1 as [|a [|b [|c' [|d r2]]]]; try discriminate.
      destruct (hex4 a b c' d) as [u|]; [|discriminate].
      intro H. apply IH in H; cbn in *; lia.
    + destruct (simple_escape e) as [u|]; [|discriminate].
      intro H. apply IH in H; cbn in *; lia.
  - destruct (c <? 32)%N; [discriminate|].
    intro H. apply IH in H; cbn in *; lia.
Qed.

Lemma read_digits_length (s : jsstring) :
  (List.length (snd (read_digits s)) <= List.length s)%nat.
Proof.
  induction s as [|c r IH]; [apply Nat.le_refl|].
  cbn [read_digits]. destruct (is_digit c); [|apply Nat.le_refl].
  destruct (read_digits r) as [ds rest]. cbn in *. lia.
Qed.

Lemma read_int_consumes (s : jsstring) (ds : list N) (r : jsstring) :
  read_int s = Some (ds, r) -> (List.length r < List.length s)%nat.
Proof.
  destruct s as [|c s']; [discriminate|]. cbn [read_int].
  destruct (c =? 48)%N.
  - intro H. injection H as _ <-. cbn; lia.
  - destruct (is_digit c) eqn:Ed; [|discriminate].
    cbn [read_digits]. rewrite Ed.
    pose proof (read_digits_length s') as Hl.
    destruct (read_digits s') as [ds' rest]. cbn [snd] in Hl.
    intro H. injection H as _ <-. cbn; lia.
Qed.

Lemma read_frac_length (s : jsstring) (ds : list N) (r : jsstring) :
  read_frac s = Some (ds, r) -> (List.length r <= List.length s)%nat.
Proof.
  destruct s as [|c s']; cbn [read_frac].
  - intro H. injection H as _ <-. apply Nat.le_refl.
  - destruct (c =? 46)%N.
    + pose proof (read_digits_length s') as Hl.
      destruct (read_digits s') as [[|d ds'] rest]; [discriminate|].
      cbn [snd] in Hl. intro H. injection H as _ <-. cbn; lia.
    + intro H. injection H as _ <-. apply Nat.le_refl.
Qed.

Lemma read_sign_length (s : jsstring) :
  (List.length (snd (read_sign s)) <= List.length s)%nat.
Proof.
  destruct s as [|g r]; [apply Nat.le_refl|]. cbn [read_sign].
  destruct (g =? 45)%N; [cbn; lia|].
  destruct (g =? 43)%N; cbn; lia.
Qed.

Lemma read_exp_length (s : jsstring) (e : Z) (r : jsstring) :
  read_exp s = Some (e, r) -> (List.length r <= List.length s)%nat.
Proof.
  destruct s as [|c s']; cbn [read_exp].
  - intro H. injection H as _ <-. apply Nat.le_refl.
  - destruct ((c =? 101) || (c =? 69))%N.
    + pose proof (read_sign_length s') as Hs.
      destruct (read_sign s') as [neg r1]. cbn [snd] in Hs.
      pose proof (read_digits_length r1) as Hl.
      destruct (read_digits r1) as [[|d ds'] rest]; [discriminate|].
      cbn [snd] in Hl. intro H. injection H as _ <-. cbn; lia.
    + intro H. injection H as _ <-. apply Nat.le_refl.
Qed.

Lemma parse_number_consumes (s : jsstring) (q : Q) (r : jsstring) :
  parse_number s = Some (q, r) -> (List.length r < List.length s)%nat.
Proof.
  unfold parse_number.
  set (sign := match s with
               | [] => (false, [])
               | c :: r => if (c =? 45)%N then (true, r) else (false, s)
               end).
  assert (Hsign : (List.length (snd sign) <= List.length s)%nat).
  { subst sign. destruct s as [|c r']; [apply Nat.le_refl|].
    destruct (c =? 45)%N; cbn; lia. }
  destruct sign as [neg s1]. cbn [snd] in Hsign.
  destruct (read_int s1) as [[ip s2]|] eqn:Ei; [|discriminate].
  apply read_int_consumes in Ei.
  destruct (read_frac s2) as [[fp s3]|] eqn:Ef; [|discriminate].
  apply read_frac_length in Ef.
  destruct (read_exp s3) as [[e s4]|] eqn:Ee; [|discriminate].
  apply read_exp_length in Ee.
  intro H. injection H as _ <-. lia.
Qed.

(** With a budget of twice the length of the input plus one (plus two for
    the loops over elements and members) the parser never runs out of
    budget, and a parsed value has consumed input. *)
Lemma parse_budget (fuel : nat) :
  (forall s, (2 * List.length s + 1 <= fuel)%nat ->
     parse_value fuel s <> PFuel
     /\ forall v r, parse_value fuel s = POk v r ->
                    (List.length r < List.length s)%nat)
  /\ (forall s acc, (2 * List.length s + 2 <= fuel)%nat ->
        parse_elements fuel s acc <> PFuel
        /\ forall v r, parse_elements fuel s acc = POk v r ->
                       (List.length r < List.length s)%nat)
  /\ (forall s acc, (2 * List.length s + 2 <= fuel)%nat ->
        parse_members fuel s acc <> PFuel
        /\ forall v r, parse_members fuel s acc = POk v r ->
                       (List.length r < List.length s)%nat).
Proof.
  induction fuel as [|f (IHv & IHe & IHm)].
  - repeat split; intros; lia.
  - split; [|split].
    + intros s Hf. cbn [parse_value].
      pose proof (skip_ws_length s) as Hws.
      destruct (skip_ws s) as [|c r] eqn:Es;
        [split; [discriminate|intros; discriminate]|].
      cbn [List.length] in Hws.
      destruct (c =? 123)%N.
      { pose proof (skip_ws_length r) as Hwr.
        destruct (starts_with_char 125 (skip_ws r)) as [r'|] eqn:Ec.
        - apply starts_with_char_length in Ec.
          split; [discriminate|]. intros v r0 H. injection H as _ <-. lia.
        - destruct (IHm (skip_ws r) [] ltac:(lia)) as [Hn Hl].
          split; [exact Hn|]. intros v r0 H. specialize (Hl v r0 H). lia. }
      destruct (c =? 91)%N.
      { pose proof (skip_ws_length r) as Hwr.
        destruct (starts_with_char 93 (skip_ws r)) as [r'|] eqn:Ec.
        - apply starts_with_char_length in Ec.
          split; [discriminate|]. intros v r0 H. injection H as _ <-. lia.
        - destruct (IHe r [] ltac:(lia)) as [Hn Hl].
          split; [exact Hn|]. intros v r0 H. specialize (Hl v r0 H). lia. }
      destruct (c =? 34)%N.
      { destruct (parse_string_body r []) as [[text r']|] eqn:Ep;
          [|split; [discriminate|intros; discriminate]].
        apply parse_string_body_consumes in Ep.
        split; [discriminate|]. intros v r0 H. injection H as _ <-. lia. }
      destruct ((c =? 45)%N || is_digit c).
      { destruct (parse_number (c :: r)) as [[q r']|] eqn:Ep;
          [|split; [discriminate|intros; discriminate]].
        apply parse_number_consumes in Ep. cbn [List.length] in Ep.
        split; [discriminate|]. intros v r0 H. injection H as _ <-. lia. }
      destruct (strip_prefix (str "null") (c :: r)) as [r'|] eqn:E1.
      { apply strip_prefix_length in E1. cbn [List.length] in E1.
        split; [discriminate|]. intros v r0 H. injection H as _ <-.
        cbn in E1. lia. }
      destruct (strip_prefix (str "true") (c :: r)) as [r'|] eqn:E2.
      { apply strip_prefix_length in E2. cbn [List.length] in E2.
        split; [discriminate|]. intros v r0 H. injection H as _ <-.
        cbn in E2. lia. }
      destruct (strip_prefix (str "false") (c :: r)) as [r'|] eqn:E3.
      { apply strip_prefix_length in E3. cbn [List.length] in E3.
        split; [discriminate|]. intros v r0 H. injection H as _ <-.
        cbn in E3. lia. }
      split; [discriminate|intros; discriminate].
    + intros s acc Hf. cbn [parse_elements].
      destruct (IHv s ltac:(lia)) as [Hn Hl].
      destruct (parse_value f s) as [v r| |] eqn:Ev;
        [|split; [discriminate|intros; discriminate]|contradiction].
      specialize (Hl v r eq_refl).
      pose proof (skip_ws_length r) as Hws.
      destruct (skip_ws r) as [|c r'];
        [split; [discriminate|intros; discriminate]|].
      cbn [List.length] in Hws.
      destruct (c =? 44)%N.
      { destruct (IHe r' (v :: acc) ltac:(lia)) as [Hn' Hl'].
        split; [exact Hn'|]. intros v0 rr H. specialize (Hl' v0 rr H). lia. }
      destruct (c =? 93)%N;
        [|split; [discriminate|intros; discriminate]].
      split; [discriminate|]. intros v0 rr H. injection H as _ <-. lia.
    + intros s acc Hf. cbn [parse_members].
      destruct (starts_with_char 34 s) as [r0|] eqn:E0;
        [|split; [discriminate|intros; discriminate]].
      apply starts_with_char_length in E0.
      destruct (parse_string_body r0 []) as [[key r1]|] eqn:Ek;
        [|split; [discriminate|intros; discriminate]].
      apply parse_string_body_consumes in Ek.
      pose proof (skip_ws_length r1) as Hw1.
      destruct (starts_with_char 58 (skip_ws r1)) as [r2|] eqn:E2;
        [|split; [discriminate|intros; discriminate]].
      apply starts_with_char_length in E2.
      destruct (IHv r2 ltac:(lia)) as [Hn Hl].
      destruct (parse_value f r2) as [v r3| |] eqn:Ev;
        [|split; [discriminate|intros; discriminate]|contradiction].
      specialize (Hl v r3 eq_refl).
      pose proof (skip_ws_length r3) as Hw3.
      destruct (skip_ws r3) as [|c r4];
        [split; [discriminate|intros; discriminate]|].
      cbn [List.length] in Hw3.
      pose proof (skip_ws_length r4) as Hw4.
      destruct (c =? 44)%N.
      { destruct (IHm (skip_ws r4) ((key, v) :: acc) ltac:(lia)) as [Hn' Hl'].
        split; [exact Hn'|]. intros v0 rr H. specialize (Hl' v0 rr H). lia. }
      destruct (c =? 125)%N;
        [|split; [discriminate|intros; discriminate]].
      split; [discriminate|]. intros v0 rr H. injection H as _ <-. lia.
Qed.

(** [JSON_parse] throws only for a syntax error or for input after the
    value: its budget is never exhausted. *)
Lemma JSON_parse_budget (text : jsstring) :
  parse_value (parse_fuel text) text <> PFuel.
Proof.
  apply (parse_budget (parse_fuel text)). unfold parse_fuel. lia.
Qed.

Lemma JSON_parse_throws (text : jsstring) (e : thrown) :
  JSON_parse text = Throw e ->
  parse_value (parse_fuel text) text = PSyntax
  \/ exists v rest,
       parse_value (parse_fuel text) text = POk v rest
       /\ skip_ws rest <> [].
Proof.
  unfold JSON_parse. pose proof (JSON_parse_budget text) as Hb.
  destruct (parse_value (parse_fuel text) text) as [v rest| |];
    [|left; reflexivity|contradiction].
  destruct (skip_ws rest) as [|c r] eqn:Es; [discriminate|].
  intros _. right. exists v, rest. split; [reflexivity|].
  rewrite Es. discriminate.
Qed.

(** ** The SSE line parser *)

Lemma try_catch_returns {A} (body : completion A) (a : A) :
  exists v, try_catch body (fun _ => Normal a) = Normal v.
Proof. destruct body; cbn; eauto. Qed.

Lemma startsWith_app (p rest : jsstring) : startsWith (p ++ rest) p = true.
Proof.
  unfold startsWith.
  assert (H : strip_prefix p (p ++ rest) = Some rest).
  { induction p as [|c p IH]; [reflexivity|].
    cbn. rewrite N.eqb_refl. exact IH. }
  rewrite H. reflexivity.
Qed.

Lemma trimStart_suffix (s : jsstring) :
  exists w, s = w ++ trimStart s.
Proof.
  induction s as [|c r (w & IH)]; [exists []; reflexivity|].
  cbn [trimStart]. destruct (is_js_whitespace c).
  - exists (c :: w). cbn. rewrite <- IH. reflexivity.
  - exists []. reflexivity.
Qed.

Lemma trimStart_length (s : jsstring) :
  (List.length (trimStart s) <= List.length s)%nat.
Proof.
  destruct (trimStart_suffix s) as [w Hw]. rewrite Hw at 2.
  rewrite length_app. lia.
Qed.

Lemma trimStart_idem (s : jsstring) : trimStart (trimStart s) = trimStart s.
Proof.
  induction s as [|c r IH]; [reflexivity|].
  cbn [trimStart]. destruct (is_js_whitespace c) eqn:E; [exact IH|].
  cbn [trimStart]. rewrite E. reflexivity.
Qed.

Lemma trimStart_fixed_head (c : N) (r : jsstring) :
  trimStart (c :: r) = c :: r -> is_js_whitespace c = false.
Proof.
  cbn [trimStart]. destruct (is_js_whitespace c); [|reflexivity].
  intro H. pose proof (trimStart_length r) as Hl. rewrite H in Hl.
  cbn in Hl. lia.
Qed.

Lemma trim_idem (s : jsstring) : trim (trim s) = trim s.
Proof.
  unfold trim. set (t := trimStart s).
  assert (Ht : trimStart t = t) by apply trimStart_idem.
  assert (Hp : trimStart (rev (trimStart (rev t))) = rev (trimStart (rev t))).
  { destruct (trimStart_suffix (rev t)) as [w Hw].
    apply (f_equal (@rev N)) in Hw. rewrite rev_involutive, rev_app_distr in Hw.
    destruct (rev (trimStart (rev t))) as [|c p]; [reflexivity|].
    rewrite Hw in Ht. cbn [app] in Ht.
    apply trimStart_fixed_head in Ht. cbn [trimStart]. rewrite Ht.
    reflexivity. }
  rewrite Hp, rev_involutive, trimStart_idem. reflexivity.
Qed.

(** C6. [parseSSELine] returns for every line and never throws. It yields
    null for a line whose payload after the [data: ] prefix is [[DONE]],
    for a line whose payload [JSON.parse] rejects, and for a line that
    does not start with [data: ] (the prefix is looked for once the
    surrounding whitespace is trimmed, as the function does); the sample
    line of the specification yields the string [hi]. *)
Theorem parseSSELine_cases :
  (forall line, exists v, parseSSELine line = Normal v)
  /\ (forall line, trim line = str "data: " ++ str "[DONE]" ->
        parseSSELine line = Normal None)
  /\ parseSSELine (str "data: [DONE]") = Normal None
  /\ (forall line data e, trim line = str "data: " ++ data ->
        JSON_parse data = Throw e -> parseSSELine line = Normal None)
  /\ (forall line, startsWith (trim line) (str "data: ") = false ->
        parseSSELine line = Normal None)
  /\ parseSSELine sample_line = Normal (Some (JString (str "hi")))
  /\ (forall line, parseSSELine line = parseSSELine (trim line)).
Proof.
  split; [|split; [|split; [|split; [|split; [|split]]]]].
  - intro line. unfold parseSSELine.
    destruct (negb (truthy_str (trim line))
              || negb (startsWith (trim line) (str "data: ")));
      [eauto|].
    destruct (jsstring_eqb (skipn 6 (trim line)) (str "[DONE]")); [eauto|].
    apply try_catch_returns.
  - intros line H. unfold parseSSELine. rewrite H. reflexivity.
  - vm_compute. reflexivity.
  - intros line data e Htrim Hparse. unfold parseSSELine. rewrite Htrim.
    rewrite startsWith_app.
    change (skipn 6 (str "data: " ++ data)) with data.
    change (truthy_str (str "data: " ++ data)) with true.
    cbn [negb orb].
    destruct (jsstring_eqb data (str "[DONE]")); [reflexivity|].
    rewrite Hparse. reflexivity.
  - intros line H. unfold parseSSELine. rewrite H.
    rewrite orb_true_r. reflexivity.
  - vm_compute. reflexivity.
  - intro line. unfold parseSSELine. rewrite trim_idem. reflexivity.
Qed.

(** C6 (as stated) fails for a padded line. The line made of a space,
    a tab and the sample line does not begin with the prefix [data: ];
    [parseSSELine], which trims the line before it looks for the prefix,
    yields the string [hi] for it, not null. *)
Lemma parseSSELine_padded_line :
  let line := [32%N; 9%N] ++ sample_line in
  startsWith line (str "data: ") = false
  /\ parseSSELine line = Normal (Some (JString (str "hi")))
  /\ parseSSELine line <> Normal None.
Proof.
  cbv zeta.
  assert (H : parseSSELine ([32%N; 9%N] ++ sample_line)
              = Normal (Some (JString (str "hi"))))
    by (vm_compute; reflexivity).
  split; [vm_compute; reflexivity|]. split; [exact H|].
  rewrite H. discriminate.
Qed.

(** ** The stable sort *)

Section SortFacts.

Variable A : Type.
Variable cmp : A -> A -> Q.

Lemma sort_insert_perm (x : A) (l : list A) :
  Permutation (sort_insert cmp x l) (x :: l).
Proof.
  induction l as [|y l IH]; [apply Permutation_refl|].
  cbn. destruct (Qgtb (cmp x y) 0).
  - eapply Permutation_trans; [apply perm_skip, IH | apply perm_swap].
  - apply Permutation_refl.
Qed.

Lemma Array_sort_perm (l : list A) : Permutation (Array_sort cmp l) l.
Proof.
  induction l as [|x l IH]; [apply Permutation_refl|].
  cbn. eapply Permutation_trans; [apply sort_insert_perm|].
  apply perm_skip, IH.
Qed.

Lemma Array_sort_length (l : list A) :
  List.length (Array_sort cmp l) = List.length l.
Proof. apply Permutation_length, Array_sort_perm. Qed.

(** An element passes only elements it compares greater than, so the
    elements of a class whose members never compare greater than one
    another keep their order. *)
Lemma sort_insert_filter (P : A -> bool) (x : A) (l : list A) :
  (forall a b, P a = true -> P b = true -> cmp a b <= 0) ->
  filter P (sort_insert cmp x l) = filter P (x :: l).
Proof.
  intro Hclass. induction l as [|y l IH]; [reflexivity|].
  cbn [sort_insert]. destruct (Qgtb (cmp x y) 0) eqn:E; [|reflexivity].
  apply Qgtb_lt in E.
  cbn [filter]. rewrite IH. cbn [filter].
  destruct (P x) eqn:Px, (P y) eqn:Py; try reflexivity.
  exfalso. apply (Qlt_not_le _ _ E). apply Hclass; assumption.
Qed.

Lemma Array_sort_stable (P : A -> bool) (l : list A) :
  (forall a b, P a = true -> P b = true -> cmp a b <= 0) ->
  filter P (Array_sort cmp l) = filter P l.
Proof.
  intro Hclass. induction l as [|x l IH]; [reflexivity|].
  cbn [Array_sort fold_right]. fold (Array_sort cmp l).
  rewrite sort_insert_filter by assumption.
  cbn [filter]. rewrite IH. reflexivity.
Qed.

Hypothesis cmp_asym : forall a b, 0 < cmp a b -> cmp b a <= 0.
Hypothesis cmp_trans :
  forall a b c, cmp a b <= 0 -> cmp b c <= 0 -> cmp a c <= 0.

Lemma sort_insert_sorted (x : A) (l : list A) :
  StronglySorted (fun a b => cmp a b <= 0) l ->
  StronglySorted (fun a b => cmp a b <= 0) (sort_insert cmp x l).
Proof.
  induction 1 as [|y l Hs IH Hall].
  - constructor; constructor.
  - cbn [sort_insert]. destruct (Qgtb (cmp x y) 0) eqn:E.
    + apply Qgtb_lt in E. constructor; [exact IH|].
      eapply Permutation_Forall;
        [apply Permutation_sym, sort_insert_perm|].
      constructor; [apply cmp_asym; exact E | exact Hall].
    + apply Qgtb_le in E. constructor.
      * constructor; assumption.
      * constructor; [exact E|].
        eapply Forall_impl; [|exact Hall].
        intros z Hz. eapply cmp_trans; eassumption.
Qed.

Lemma Array_sort_sorted (l : list A) :
  StronglySorted (fun a b => cmp a b <= 0) (Array_sort cmp l).
Proof.
  induction l as [|x l IH]; [constructor|].
  cbn. apply sort_insert_sorted. exact IH.
Qed.

Lemma cmp_refl (a : A) : cmp a a <= 0.
Proof.
  destruct (Qlt_le_dec 0 (cmp a a)) as [H|H]; [|exact H].
  apply cmp_asym. exact H.
Qed.

Lemma ranks_equal_refl (a : A) : ranks_equal cmp a a = true.
Proof.
  unfold ranks_equal. apply andb_true_iff.
  split; apply Qle_bool_iff, cmp_refl.
Qed.

Lemma sorted_head_le (h : A) (t : list A) (x : A) :
  StronglySorted (fun a b => cmp a b <= 0) (h :: t) ->
  In x (h :: t) -> cmp h x <= 0.
Proof.
  intros Hs [<-|Hin]; [apply cmp_refl|].
  apply StronglySorted_inv in Hs. destruct Hs as [_ Hall].
  rewrite Forall_forall in Hall. apply Hall. exact Hin.
Qed.

(** A sorted list is determined by the order of the elements inside each
    class of equally ranked elements. *)
Lemma stable_sorted_unique (l1 : list A) :
  forall l2,
    StronglySorted (fun a b => cmp a b <= 0) l1 ->
    StronglySorted (fun a b => cmp a b <= 0) l2 ->
    (forall x, filter (ranks_equal cmp x) l1 = filter (ranks_equal cmp x) l2) ->
    l1 = l2.
Proof.
  induction l1 as [|h1 t1 IH]; intros l2 Hs1 Hs2 Hf.
  - destruct l2 as [|h2 t2]; [reflexivity|].
    specialize (Hf h2). cbn [filter] in Hf.
    rewrite ranks_equal_refl in Hf. discriminate.
  - destruct l2 as [|h2 t2].
    + specialize (Hf h1). cbn [filter] in Hf.
      rewrite ranks_equal_refl in Hf. discriminate.
    + assert (H12 : cmp h1 h2 <= 0).
      { apply (sorted_head_le Hs1).
        assert (Hin : In h2 (filter (ranks_equal cmp h2) (h1 :: t1))).
        { rewrite Hf. cbn [filter]. rewrite ranks_equal_refl. left.
          reflexivity. }
        apply filter_In in Hin. apply Hin. }
      assert (H21 : cmp h2 h1 <= 0).
      { apply (sorted_head_le Hs2).
        assert (Hin : In h1 (filter (ranks_equal cmp h1) (h2 :: t2))).
        { rewrite <- Hf. cbn [filter]. rewrite ranks_equal_refl. left.
          reflexivity. }
        apply filter_In in Hin. apply Hin. }
      assert (Heq : h1 = h2).
      { pose proof (Hf h1) as H. cbn [filter] in H.
        rewrite ranks_equal_refl in H.
        assert (E : ranks_equal cmp h1 h2 = true).
        { unfold ranks_equal. apply andb_true_iff.
          split; apply Qle_bool_iff; assumption. }
        rewrite E in H. injection H as H _. exact H. }
      subst h2. f_equal.
      apply StronglySorted_inv in Hs1, Hs2.
      apply IH; [apply Hs1 | apply Hs2 |].
      intro x. specialize (Hf x). cbn [filter] in Hf.
      destruct (ranks_equal cmp x h1); [injection Hf as Hf|]; exact Hf.
Qed.

(** Any reordering of [l] that is sorted and keeps the order of equally
    ranked elements is the list that [Array_sort] computes. *)
Lemma Array_sort_unique (l out : list A) :
  StronglySorted (fun a b => cmp a b <= 0) out ->
  (forall x, filter (ranks_equal cmp x) out = filter (ranks_equal cmp x) l) ->
  out = Array_sort cmp l.
Proof.
  intros Hs Hf. apply stable_sorted_unique;
    [exact Hs | apply Array_sort_sorted |].
  intro x. rewrite Hf. symmetry. apply Array_sort_stable.
  intros a b Ha Hb. unfold ranks_equal in Ha, Hb.
  apply andb_true_iff in Ha, Hb. destruct Ha as [_ Ha], Hb as [Hb _].
  apply Qle_bool_iff in Ha, Hb. eapply cmp_trans; eassumption.
Qed.

End SortFacts.

(** ** The ranking of the orchestrator *)

Import BenchmarkRoute.

Lemma compareResults_le (a b : BenchmarkResult) :
  compareResults a b <= 0 <->
  (has_error a = false /\ has_error b = true)
  \/ (has_error a = has_error b /\ ttft_ms a <= ttft_ms b).
Proof.
  unfold compareResults.
  destruct (has_error a), (has_error b); cbn [andb negb].
  - split.
    + intro H. right. split; [reflexivity|]. lra.
    + intros [[H _]|[_ H]]; [discriminate|]. lra.
  - split.
    + intro H. exfalso. revert H. unfold Qle; cbn; lia.
    + intros [[H _]|[H _]]; discriminate.
  - split.
    + intros _. left. split; reflexivity.
    + intros _. unfold Qle; cbn; lia.
  - split.
    + intro H. right. split; [reflexivity|]. lra.
    + intros [[_ H]|[_ H]]; [discriminate|]. lra.
Qed.

Lemma compareResults_asym (a b : BenchmarkResult) :
  0 < compareResults a b -> compareResults b a <= 0.
Proof.
  intro H. apply compareResults_le.
  assert (Hn : ~ compareResults a b <= 0) by (apply Qlt_not_le; exact H).
  rewrite compareResults_le in Hn.
  destruct (has_error a) eqn:Ea, (has_error b) eqn:Eb.
  - right. split; [reflexivity|].
    apply Qlt_le_weak, Qnot_le_lt. intro K. apply Hn. right. auto.
  - left. auto.
  - exfalso. apply Hn. left. auto.
  - right. split; [reflexivity|].
    apply Qlt_le_weak, Qnot_le_lt. intro K. apply Hn. right. auto.
Qed.

Lemma compareResults_trans (a b c : BenchmarkResult) :
  compareResults a b <= 0 -> compareResults b c <= 0 ->
  compareResults a c <= 0.
Proof.
  rewrite !compareResults_le.
  intros [[Ha Hb]|[Hab Tab]] [[Hb' Hc]|[Hbc Tbc]].
  - congruence.
  - left. split; congruence.
  - left. split; congruence.
  - right. split; [congruence|]. eapply Qle_trans; eassumption.
Qed.

Lemma same_rank_class (e : bool) (t : Q) (a b : BenchmarkResult) :
  same_rank e t a = true -> same_rank e t b = true ->
  compareResults a b <= 0.
Proof.
  unfold same_rank. rewrite !andb_true_iff.
  intros [Ea Ta] [Eb Tb].
  apply Bool.eqb_prop in Ea, Eb. apply Qeq_bool_iff in Ta, Tb.
  apply compareResults_le. right. split; [congruence|].
  rewrite Ta, Tb. apply Qle_refl.
Qed.

(** X1. What the ranking guarantees. The array that the orchestrator returns
    is its collected results, reordered by the stable sort. An entry whose
    error message is not empty stands after every entry whose error is
    absent or empty, whatever its numbers; entries of the same error
    status are in ascending order of [ttft_ms]; and entries that the
    comparator ranks equal (same error status, equal [ttft_ms]) keep the
    order in which they were collected. *)
Theorem orchestrator_ranking (rs : list BenchmarkResult) :
  let out := Array_sort compareResults rs in
  Permutation out rs
  /\ errors_last has_error out
  /\ (forall i j a b, (i < j)%nat ->
        nth_error out i = Some a -> nth_error out j = Some b ->
        has_error a = has_error b -> ttft_ms a <= ttft_ms b)
  /\ (forall e t, filter (same_rank e t) out = filter (same_rank e t) rs)
  /\ (forall fetch baseUrl b,
        truthy_opt truthy_str (prompt b) = true ->
        exists p mt,
          fst (POST fetch baseUrl (Normal b)) =
          Status200
            (Array_sort compareResults
               (collectResults fetch baseUrl (selectProviders (requested b))))
            p mt).
Proof.
  intro out.
  pose proof (Array_sort_sorted compareResults compareResults_asym
                compareResults_trans rs) as Hs.
  fold out in Hs.
  split; [apply Array_sort_perm|].
  split; [|split; [|split]].
  - intros i j a b Hij Ha Hb Herr.
    pose proof (nth_error_sorted Hs Hij Ha Hb) as Hle.
    apply compareResults_le in Hle.
    destruct Hle as [[H _]|[H _]]; congruence.
  - intros i j a b Hij Ha Hb Hsame.
    pose proof (nth_error_sorted Hs Hij Ha Hb) as Hle.
    apply compareResults_le in Hle.
    destruct Hle as [[H1 H2]|[_ H]]; [congruence|exact H].
  - intros e t. apply Array_sort_stable. apply same_rank_class.
  - intros fetch baseUrl b Hp. unfold POST.
    destruct (prompt b) as [p|]; [|discriminate].
    cbn in Hp. rewrite Hp. cbn [fst]. eauto.
Qed.

(** C3, at an input where the ranking misses an error. The sub-request
    for cerebras rejects with an [Error] whose message is empty and groq
    answers with a time to first token of 5 ms: the orchestrator builds
    the error-only entry of cerebras, whose empty message the comparator
    takes for no error, and returns it first, before the error-free entry
    of groq. *)
Lemma empty_error_message_ranked_first :
  let fetch := fun (i : nat) (_ : jsstring) =>
                 match i with
                 | O => Rejects (ThrownError [])
                 | S _ => Responded groq_success
                 end in
  let body := mkBody (Some (str "hello")) None
                (Some [str "cerebras"; str "groq"]) in
  let results := [errorEntry (str "cerebras") []; groq_success] in
  fst (POST fetch (str "http://localhost:3000") (Normal body))
  = Status200 results (str "hello") 256
  /\ error_only (errorEntry (str "cerebras") [])
  /\ error_present groq_success = false
  /\ ~ errors_last error_present results.
Proof.
  cbv zeta. split; [vm_compute; reflexivity|].
  split; [repeat split; reflexivity|].
  split; [reflexivity|].
  intro H.
  specialize (H 0%nat 1%nat (errorEntry (str "cerebras") []) groq_success).
  cbn in H. discriminate H; auto.
Qed.

(** ** One result per requested provider *)

Lemma mapIndexed_length {A B} (f : nat -> A -> B) (l : list A) :
  forall k, List.length (mapIndexed f k l) = List.length l.
Proof.
  induction l as [|a l IH]; intro k; [reflexivity|].
  cbn. rewrite IH. reflexivity.
Qed.

Lemma mapIndexed_nth {A B} (f : nat -> A -> B) (l : list A) :
  forall k i, nth_error (mapIndexed f k l) i
              = option_map (f (k + i)%nat) (nth_error l i).
Proof.
  induction l as [|a l IH]; intros k i.
  - destruct i; reflexivity.
  - destruct i as [|i]; cbn.
    + rewrite Nat.add_0_r. reflexivity.
    + rewrite IH. replace (S k + i)%nat with (k + S i)%nat by lia.
      reflexivity.
Qed.

Lemma mapIndexed_compose {A B C D} (f : nat -> A -> B) (h : B -> C)
  (g : nat -> C -> D) (l : list A) :
  forall k, mapIndexed g k (List.map h (mapIndexed f k l))
            = mapIndexed (fun i a => g i (h (f i a))) k l.
Proof.
  induction l as [|a l IH]; intro k; [reflexivity|].
  cbn. rewrite IH. reflexivity.
Qed.

Lemma mapIndexed_ext {A B} (f g : nat -> A -> B) (l : list A) :
  (forall i a, f i a = g i a) ->
  forall k, mapIndexed f k l = mapIndexed g k l.
Proof.
  intros H. induction l as [|a l IH]; intro k; [reflexivity|].
  cbn. rewrite H, IH. reflexivity.
Qed.

Section Collect.

Variable fetch : nat -> jsstring -> fetch_outcome.
Variable baseUrl : jsstring.

Lemma collectResults_entries (ids : list jsstring) :
  collectResults fetch baseUrl ids = mapIndexed (entryFor fetch baseUrl) 0 ids.
Proof.
  unfold collectResults. rewrite mapIndexed_compose.
  apply mapIndexed_ext. intros i id.
  unfold benchmarkPromise, entryFor.
  destruct (record_get PROVIDER_ENDPOINTS id) as [endpoint|]; [|reflexivity].
  destruct (fetch i (baseUrl ++ endpoint)); reflexivity.
Qed.

Lemma fetchedUrls_endpoints (ids : list jsstring) :
  fetchedUrls fetch baseUrl ids
  = flat_map (fun id => match record_get PROVIDER_ENDPOINTS id with
                        | Some endpoint => [baseUrl ++ endpoint]
                        | None => []
                        end) ids.
Proof.
  unfold fetchedUrls. generalize 0%nat.
  induction ids as [|id ids' IH]; intro k; [reflexivity|].
  cbn [mapIndexed List.map List.concat flat_map]. rewrite IH.
  f_equal. unfold benchmarkPromise.
  destruct (record_get PROVIDER_ENDPOINTS id) as [endpoint|]; [|reflexivity].
  destruct (fetch k (baseUrl ++ endpoint)); reflexivity.
Qed.





End Collect.



(** C8. A request without a prompt is answered with status 400 and the
    error [prompt is required], and no sub-request is sent, whatever the
    other fields are; the same holds for an empty prompt. *)
Theorem missing_prompt_is_rejected
  (fetch : nat -> jsstring -> fetch_outcome) (baseUrl : jsstring)
  (mt : option Q) (req : option (list jsstring)) :
  POST fetch baseUrl (Normal (mkBody None mt req))
  = (Status400 (str "prompt is required"), [])
  /\ POST fetch baseUrl (Normal (mkBody (Some []) mt req))
     = (Status400 (str "prompt is required"), []).
Proof. split; reflexivity. Qed.


(** ** The mock route *)

Lemma inherited_names (key : jsstring) :
  inherited key = true -> In key Object_prototype_names.
Proof.
  unfold inherited. intro H. apply existsb_exists in H.
  destruct H as (x & Hin & Heq).
  apply jsstring_eqb_eq in Heq. subst x. exact Hin.
Qed.

(** None of the inherited names is a key of the tables of the mock
    route. *)
Lemma inherited_not_own (key : jsstring) :
  inherited key = true ->
  has_fixture key = false
  /\ MockRoute.modelOf key = str "unknown"
  /\ member_get MockRoute.MOCK_BENCHMARKS key = Inherited.
Proof.
  intro H. pose proof (@inherited_names key H) as Hin.
  unfold Object_prototype_names in Hin. cbn [In] in Hin.
  repeat (destruct Hin as [<-|Hin];
          [split; [|split]; vm_compute; reflexivity|]).
  destruct Hin.
Qed.

Lemma member_get_own {V} (table : list (jsstring * V)) (key : jsstring)
  (v : V) :
  member_get table key = Own v -> record_get table key = Some v.
Proof.
  unfold member_get. destruct (record_get table key) as [w|].
  - intro H. injection H as ->. reflexivity.
  - destruct (inherited key); discriminate.
Qed.

Lemma member_get_inherited {V} (table : list (jsstring * V))
  (key : jsstring) :
  member_get table key = Inherited -> inherited key = true.
Proof.
  unfold member_get. destruct (record_get table key) as [w|];
    [discriminate|].
  destruct (inherited key); [reflexivity|discriminate].
Qed.

Lemma Array_sort_map {A B} (f : A -> B) (cmpA : A -> A -> Q)
  (cmpB : B -> B -> Q) :
  (forall a b, cmpB (f a) (f b) = cmpA a b) ->
  forall l, Array_sort cmpB (List.map f l) = List.map f (Array_sort cmpA l).
Proof.
  intros H l. induction l as [|x l IH]; [reflexivity|].
  cbn [List.map]. unfold Array_sort in *. cbn [fold_right]. rewrite IH.
  generalize (fold_right (sort_insert cmpA) [] l). intro s.
  induction s as [|y s IHs]; [reflexivity|].
  cbn [List.map sort_insert]. rewrite H.
  destruct (Qgtb (cmpA x y) 0); cbn [List.map]; [rewrite IHs|]; reflexivity.
Qed.

Lemma unanswered (id : jsstring) :
  has_fixture id = false -> inherited id = false -> answered id = false.
Proof.
  unfold has_fixture, answered, member_get.
  destruct (record_get MockRoute.MOCK_BENCHMARKS id); [discriminate|].
  intros _ ->. reflexivity.
Qed.

Section Mock.

Variable random : nat -> Q.

Lemma mockResult_fields (id : jsstring) (fx : MockRoute.fixture) (n : nat) :
  provider (fst (MockRoute.mockResult random id fx n)) = id
  /\ error (fst (MockRoute.mockResult random id fx n)) = None.
Proof.
  unfold MockRoute.mockResult, MockRoute.addVariance, MockRoute.Math_random,
    Oracle.bind, Oracle.ret, Oracle.next.
  destruct (truthy_num (MockRoute.f_time_to_100_tokens_ms fx));
    destruct (truthy_num (MockRoute.f_throughput_first_100 fx));
    split; reflexivity.
Qed.

Lemma mockLoop_providers (ids : list jsstring) :
  forall n,
    List.map MockRoute.providerOf (fst (MockRoute.mockLoop random ids n))
    = filter answered ids
    /\ Forall from_tables (fst (MockRoute.mockLoop random ids n)).
Proof.
  induction ids as [|id ids' IH]; intro n; [split; [reflexivity|constructor]|].
  cbn [MockRoute.mockLoop filter]. unfold answered at 1.
  destruct (member_get MockRoute.MOCK_BENCHMARKS id) as [fx| |] eqn:Hget;
    [| |apply IH].
  - unfold Oracle.bind, Oracle.ret.
    destruct (MockRoute.simulateLatency random
                MockRoute.MOCK_SETTINGS.SIMULATED_LATENCY_MIN_MS
                MockRoute.MOCK_SETTINGS.SIMULATED_LATENCY_MAX_MS n) as [d n1].
    destruct (mockResult_fields id fx n1) as [Hp He].
    destruct (MockRoute.mockResult random id fx n1) as [r n2].
    cbn [fst] in Hp, He.
    destruct (IH n2) as [IHp IHe].
    destruct (MockRoute.mockLoop random ids' n2) as [rs n3].
    cbn [fst] in *. split.
    + cbn [List.map MockRoute.providerOf]. rewrite Hp, IHp. reflexivity.
    + constructor; [|assumption]. cbn [from_tables]. split; [|exact He].
      rewrite Hp. apply member_get_own in Hget.
      unfold has_fixture. rewrite Hget. reflexivity.
  - unfold Oracle.bind, Oracle.ret.
    destruct (MockRoute.simulateLatency random
                MockRoute.MOCK_SETTINGS.SIMULATED_LATENCY_MIN_MS
                MockRoute.MOCK_SETTINGS.SIMULATED_LATENCY_MAX_MS n) as [d n1].
    unfold MockRoute.nanResult, MockRoute.Math_random, Oracle.bind,
      Oracle.ret, Oracle.next. cbn [fst snd].
    destruct (IH (S (S (S (S n1))))) as [IHp IHe].
    destruct (MockRoute.mockLoop random ids' (S (S (S (S n1))))) as [rs n3].
    cbn [fst] in *. split.
    + cbn [List.map MockRoute.providerOf]. rewrite IHp. reflexivity.
    + constructor; [|assumption]. cbn [from_tables].
      apply member_get_inherited in Hget.
      destruct (@inherited_not_own id Hget) as (H1 & H2 & _).
      split; [exact Hget|]. split; assumption.
Qed.

(** Without a name inherited from [Object.prototype] among the
    identifiers, every entry is a measured result. *)
Lemma mockLoop_measured (ids : list jsstring) :
  Forall (fun id => inherited id = false) ids ->
  forall n, exists rs,
    fst (MockRoute.mockLoop random ids n) = List.map MockRoute.Measured rs
    /\ List.map provider rs = filter has_fixture ids.
Proof.
  induction 1 as [|id ids' Hid Hids IH]; intro n;
    [exists []; split; reflexivity|].
  cbn [MockRoute.mockLoop filter]. unfold member_get, has_fixture at 1.
  rewrite Hid.
  destruct (record_get MockRoute.MOCK_BENCHMARKS id) as [fx|]; [|apply IH].
  unfold Oracle.bind, Oracle.ret.
  destruct (MockRoute.simulateLatency random
              MockRoute.MOCK_SETTINGS.SIMULATED_LATENCY_MIN_MS
              MockRoute.MOCK_SETTINGS.SIMULATED_LATENCY_MAX_MS n) as [d n1].
  destruct (mockResult_fields id fx n1) as [Hp _].
  destruct (MockRoute.mockResult random id fx n1) as [r n2].
  cbn [fst] in Hp.
  destruct (IH n2) as (rs & Hrs & Hprov).
  destruct (MockRoute.mockLoop random ids' n2) as [es n3].
  cbn [fst] in *. exists (r :: rs). subst es. split; [reflexivity|].
  cbn [List.map]. rewrite Hp, Hprov. reflexivity.
Qed.

(** X27. The mock route answers with one entry for each requested
    identifier at which the lookup in [MOCK_BENCHMARKS] is truthy, and
    with nothing for the others. An identifier that has no fixture and is
    not the name of a member inherited from [Object.prototype] is skipped:
    no entry bears it, and no entry carries an error, so the results can
    be fewer than the requested identifiers. The orchestrator, asked for
    the same list, holds the error entry of an unknown provider for every
    such identifier without an endpoint. *)
Theorem mock_route_skips_unknown_providers (ids : list jsstring) (n : nat) :
  ids <> [] ->
  exists results,
    fst (MockRoute.POST random (Normal (MockRoute.mkBody (Some ids))) n)
    = MockRoute.Status200 results true
    /\ Permutation (List.map MockRoute.providerOf results)
         (filter answered ids)
    /\ List.length results = List.length (filter answered ids)
    /\ (List.length results <= List.length ids)%nat
    /\ (forall id, In id ids ->
          has_fixture id = false -> inherited id = false ->
          forall e, In e results -> MockRoute.providerOf e <> id)
    /\ Forall from_tables results
    /\ (forall fetch baseUrl id, In id ids ->
          inherited id = false ->
          record_get PROVIDER_ENDPOINTS id = None ->
          In (errorEntry id (str "Unknown provider: " ++ id))
            (Array_sort compareResults (collectResults fetch baseUrl ids))).
Proof.
  intro Hids.
  destruct (mockLoop_providers ids n) as [Hp He].
  assert (Hsel : MockRoute.selectProviders (Some ids) = ids)
    by (destruct ids; [contradiction|reflexivity]).
  unfold MockRoute.POST. cbn [MockRoute.requested]. rewrite Hsel.
  unfold Oracle.bind, Oracle.ret.
  destruct (MockRoute.mockLoop random ids n) as [rs n1]. cbn [fst] in *.
  exists (Array_sort MockRoute.byTtft rs).
  assert (Hperm : Permutation
                    (List.map MockRoute.providerOf
                       (Array_sort MockRoute.byTtft rs))
                    (filter answered ids)).
  { rewrite <- Hp. apply Permutation_map, Array_sort_perm. }
  split; [reflexivity|]. split; [exact Hperm|].
  assert (Hlen : List.length (Array_sort MockRoute.byTtft rs)
                 = List.length (filter answered ids)).
  { rewrite <- (length_map MockRoute.providerOf).
    apply Permutation_length, Hperm. }
  split; [exact Hlen|].
  split; [rewrite Hlen; apply filter_length_le|].
  split; [|split].
  - intros id Hin Hfix Hinh e He' Heq.
    assert (Hid : In id (filter answered ids)).
    { eapply Permutation_in; [exact Hperm|].
      rewrite <- Heq. apply in_map. exact He'. }
    apply filter_In in Hid. destruct Hid as [_ Hid].
    rewrite (@unanswered id Hfix Hinh) in Hid. discriminate.
  - eapply Permutation_Forall;
      [apply Permutation_sym, Array_sort_perm | exact He].
  - intros fetch baseUrl id Hin _ Hnone.
    eapply Permutation_in; [apply Permutation_sym, Array_sort_perm|].
    rewrite collectResults_entries.
    apply In_nth_error in Hin. destruct Hin as [i Hi].
    apply nth_error_In with (n := i).
    rewrite mapIndexed_nth, Hi. cbn [option_map Nat.add].
    unfold entryFor. rewrite Hnone. reflexivity.
Qed.

End Mock.

(** Asked for cerebras and for an unknown identifier, the mock route
    returns a single result, for cerebras; the orchestrator returns two,
    one of them the error entry of the unknown identifier. *)
Lemma mock_route_skips_unknown_providers_witness :
  let ids := [str "cerebras"; str "bogus"] in
  let fetch := fun (_ : nat) (_ : jsstring) => Responded groq_success in
  exists results,
    fst (MockRoute.POST (fun _ => 1 # 2)
           (Normal (MockRoute.mkBody (Some ids))) 0%nat)
    = MockRoute.Status200 results true
    /\ List.map MockRoute.providerOf results = [str "cerebras"]
    /\ (List.length results < List.length ids)%nat
    /\ In (errorEntry (str "bogus") (str "Unknown provider: bogus"))
         (Array_sort compareResults
            (collectResults fetch (str "http://localhost:3000") ids)).
Proof.
  intros ids fetch.
  destruct (@mock_route_skips_unknown_providers (fun _ => 1 # 2) ids 0%nat)
    as (results & Hpost & Hperm & Hlen & _ & _ & _ & Horch).
  - discriminate.
  - exists results. split; [exact Hpost|].
    change (filter answered ids) with [str "cerebras"] in Hperm, Hlen.
    split; [apply Permutation_length_1_inv, Permutation_sym, Hperm|].
    split; [rewrite Hlen; cbn; lia|].
    apply (Horch fetch (str "http://localhost:3000") (str "bogus"));
      [right; left; reflexivity | reflexivity | reflexivity].
Defined.

(** C10, at an identifier that the loop of the mock route fails to skip.
    [toString] has no mock fixture, but [MOCK_BENCHMARKS['toString']]
    finds the function that every object inherits from
    [Object.prototype], which is truthy: the test [!mockData] does not
    skip the identifier, and the route answers with one entry for it, with
    the model [unknown] and NaN for its numbers. *)
Theorem mock_route_answers_inherited_name :
  let id := str "toString" in
  let body := MockRoute.mkBody (Some [id]) in
  let results := [MockRoute.NotANumber id (str "unknown")] in
  has_fixture id = false
  /\ (forall random n,
        fst (MockRoute.POST random (Normal body) n)
        = MockRoute.Status200 results true)
  /\ List.map MockRoute.providerOf results = [id]
  /\ ~ (forall e, In e results -> MockRoute.providerOf e <> id).
Proof.
  cbv zeta. split; [reflexivity|]. split; [intros random n; reflexivity|].
  split; [reflexivity|].
  intro H.
  apply (H (MockRoute.NotANumber (str "toString") (str "unknown")));
    [left; reflexivity | reflexivity].
Qed.

(** ** The agent-race sequencer *)

Section AgentRace.

Import AgentRaceRoute.

Variable clock : nat -> Q.
Variable callProvider : nat -> jsstring -> jsstring -> Z -> call_outcome.
Variable provider0 company : jsstring.

Let run_steps := runSteps clock callProvider provider0 company.
Let trace_of := callTrace callProvider provider0 company.

(** The calls of a run either all return, one per step, or return for
    fewer steps than there are and then throw. *)
Lemma callTrace_shape (steps : list step) :
  forall i prev,
    (exists cs, trace_of steps i prev = List.map Content cs
                /\ List.length cs = List.length steps)
    \/ (exists cs e, trace_of steps i prev
                     = List.map Content cs ++ [CallThrows e]
                     /\ (List.length cs < List.length steps)%nat).
Proof.
  induction steps as [|s rest IH]; intros i prev.
  - left. exists []. split; reflexivity.
  - unfold trace_of. cbn [callTrace].
    destruct (callProvider i provider0 _ _) as [c|e].
    + destruct (IH (S i) c) as [(cs & Ht & Hl)|(cs & e & Ht & Hl)].
      * left. exists (c :: cs). unfold trace_of in Ht. rewrite Ht.
        split; [reflexivity|cbn; lia].
      * right. exists (c :: cs), e. unfold trace_of in Ht. rewrite Ht.
        split; [reflexivity|cbn; lia].
    + right. exists [], e. split; [reflexivity|cbn; lia].
Qed.

Lemma map_Content_inj (a b : list jsstring) :
  List.map Content a = List.map Content b -> a = b.
Proof.
  revert b. induction a as [|x a IH]; intros [|y b] H; try discriminate.
  - reflexivity.
  - cbn [List.map] in H. inversion H; subst. f_equal. apply IH. assumption.
Qed.

Lemma map_Content_no_throw (a b : list jsstring) (e : thrown) :
  List.map Content a <> List.map Content b ++ [CallThrows e].
Proof.
  revert b. induction a as [|x a IH]; intros [|y b] H;
    cbn [List.map app] in H; inversion H; subst.
  eapply IH. eassumption.
Qed.

Lemma trace_throw_inj (a b : list jsstring) (e f : thrown) :
  List.map Content a ++ [CallThrows e] = List.map Content b ++ [CallThrows f]
  -> a = b /\ e = f.
Proof.
  revert b. induction a as [|x a IH]; intros [|y b] H.
  - cbn in H. inversion H; subst. split; reflexivity.
  - cbn [List.map app] in H. inversion H.
  - cbn [List.map app] in H. inversion H.
  - cbn [List.map app] in H. inversion H; subst.
    match goal with K : _ ++ _ = _ ++ _ |- _ =>
      destruct (IH _ K) as [-> ->] end.
    split; reflexivity.
Qed.

Lemma runSteps_success (steps : list step) :
  forall i prev total n cs,
    trace_of steps i prev = List.map Content cs ->
    exists acts total',
      fst (run_steps steps i prev total n) = (acts, total', false)
      /\ List.map tag_of acts = successTags (i + 1) (List.length steps)
      /\ forallb is_step_event acts = true.
Proof.
  induction steps as [|s rest IH]; intros i prev total n cs Ht.
  - exists [], total. repeat split; reflexivity.
  - unfold trace_of in Ht. cbn [callTrace] in Ht.
    unfold run_steps. cbn [runSteps].
    unfold Oracle.bind, Oracle.ret, now, Oracle.next.
    destruct (callProvider i provider0 _ _) as [c|e].
    + destruct cs as [|c0 cs]; [discriminate|].
      cbn [List.map] in Ht. injection Ht as _ Ht.
      destruct (IH (S i) c
                  (total + Math_round (clock (S n) - clock n))%Z
                  (S (S n)) cs Ht)
        as (acts & total' & Hrun & Htags & Hall).
      unfold run_steps in Hrun.
      destruct (runSteps clock callProvider provider0 company rest (S i) c
                  (total + Math_round (clock (S n) - clock n))%Z (S (S n)))
        as [[[acts0 t0] e0] n0].
      cbn [fst] in Hrun. injection Hrun as -> -> ->.
      eexists. eexists. split; [reflexivity|].
      split.
      * cbn [List.map tag_of List.length successTags]. rewrite Htags.
        reflexivity.
      * cbn [forallb]. exact Hall.
    + destruct cs; discriminate.
Qed.

Lemma runSteps_failure (steps : list step) :
  forall i prev total n cs e,
    trace_of steps i prev = List.map Content cs ++ [CallThrows e] ->
    exists acts total' name,
      fst (run_steps steps i prev total n) = (acts, total', true)
      /\ List.map tag_of acts
         = successTags (i + 1) (List.length cs)
           ++ [TRunning (Z.of_nat (i + 1 + List.length cs));
               TError (Z.of_nat (i + 1 + List.length cs))]
      /\ forallb is_step_event acts = true
      /\ In (Enqueue (StepError (Z.of_nat (i + 1 + List.length cs)) name
                        (stepErrorMessage e))) acts.
Proof.
  induction steps as [|s rest IH]; intros i prev total n cs e Ht.
  - destruct cs; discriminate.
  - unfold trace_of in Ht. cbn [callTrace] in Ht.
    unfold run_steps. cbn [runSteps].
    unfold Oracle.bind, Oracle.ret, now, Oracle.next.
    destruct (callProvider i provider0 _ _) as [c|e'].
    + destruct cs as [|c0 cs]; [discriminate|].
      cbn [List.map app] in Ht. injection Ht as _ Ht.
      destruct (IH (S i) c
                  (total + Math_round (clock (S n) - clock n))%Z
                  (S (S n)) cs e Ht)
        as (acts & total' & name & Hrun & Htags & Hall & Hin).
      unfold run_steps in Hrun.
      destruct (runSteps clock callProvider provider0 company rest (S i) c
                  (total + Math_round (clock (S n) - clock n))%Z (S (S n)))
        as [[[acts0 t0] e0] n0].
      cbn [fst] in Hrun. injection Hrun as -> -> ->.
      eexists. eexists. exists name. split; [reflexivity|].
      replace (i + 1 + List.length (c0 :: cs))%nat
        with (S i + 1 + List.length cs)%nat by (cbn; lia).
      split; [|split].
      * cbn [List.map tag_of List.length successTags app]. rewrite Htags.
        reflexivity.
      * cbn [forallb]. exact Hall.
      * right. right. exact Hin.
    + destruct cs as [|c0 cs]; [|discriminate].
      cbn [List.map app] in Ht. injection Ht as ->.
      eexists. eexists. exists (step_name s). split; [reflexivity|].
      cbn [List.length]. rewrite Nat.add_0_r.
      split; [reflexivity|]. split; [reflexivity|].
      right. left. reflexivity.
Qed.

Lemma forallb_step_no_close (acts : list action) :
  forallb is_step_event acts = true ->
  filter is_close acts = [] /\ filter is_terminal acts = [].
Proof.
  induction acts as [|a acts IH]; intro H; [split; reflexivity|].
  cbn in H. apply andb_true_iff in H. destruct H as [Ha Hr].
  destruct (IH Hr) as [Hc Hd]. cbn [filter]. rewrite Hc, Hd.
  unfold is_step_event in Ha. unfold is_terminal.
  destruct a as [ev|]; [|discriminate].
  destruct ev; cbn in *; try discriminate; split; reflexivity.
Qed.

(** C7. Take the calls that a run makes. If the call of step [k] is the
    first that fails, the stream carries the running/complete pairs of
    the steps before [k], then the running and the error event of step
    [k], then one terminal event with [has_error] set, then the close;
    no event of a later step is sent. If all five calls return, it
    carries the five pairs, one terminal event without the error flag,
    and the close. In every run the stream is closed exactly once and the
    terminal event is sent exactly once, as the last message before the
    close. *)
Theorem agent_race_event_sequence (n : nat) :
  let acts := fst (start clock callProvider provider0 company n) in
  let trace := trace_of STEPS 0%nat company in
  (forall cs e, trace = List.map Content cs ++ [CallThrows e] ->
     let k := Z.of_nat (S (List.length cs)) in
     (List.length cs < 5)%nat
     /\ List.map tag_of acts
        = successTags 1 (List.length cs)
          ++ [TRunning k; TError k; TDone true; TClose]
     /\ exists name, In (Enqueue (StepError k name (stepErrorMessage e))) acts)
  /\ (forall cs, trace = List.map Content cs ->
        List.map tag_of acts = successTags 1 5 ++ [TDone false; TClose])
  /\ (exists body total err,
        acts = body ++ [Enqueue (StreamComplete total err); Close]
        /\ forallb is_step_event body = true)
  /\ List.length (filter is_close acts) = 1%nat
  /\ List.length (filter is_terminal acts) = 1%nat.
Proof.
  intros acts trace.
  assert (Hstart : forall body total err,
            fst (run_steps STEPS 0%nat company 0%Z n) = (body, total, err) ->
            acts = body ++ [Enqueue (StreamComplete total err); Close]).
  { intros body total err Hrun. unfold acts, start, Oracle.bind, Oracle.ret.
    unfold run_steps in Hrun.
    destruct (runSteps clock callProvider provider0 company STEPS 0 company 0 n)
      as [[[b t] e] n']. cbn [fst] in Hrun. injection Hrun as -> -> ->.
    reflexivity. }
  assert (Hfail : forall cs e,
            trace = List.map Content cs ++ [CallThrows e] ->
            (List.length cs < 5)%nat
            /\ exists body total name,
                 acts = body ++ [Enqueue (StreamComplete total true); Close]
                 /\ List.map tag_of body
                    = successTags 1 (List.length cs)
                      ++ [TRunning (Z.of_nat (S (List.length cs)));
                          TError (Z.of_nat (S (List.length cs)))]
                 /\ forallb is_step_event body = true
                 /\ In (Enqueue (StepError (Z.of_nat (S (List.length cs)))
                                   name (stepErrorMessage e))) body).
  { intros cs e Ht. split.
    - destruct (callTrace_shape STEPS 0 company)
        as [(cs' & Ht' & _)|(cs' & e' & Ht' & Hl)].
      + exfalso. fold trace in Ht'. rewrite Ht in Ht'. symmetry in Ht'.
        eapply map_Content_no_throw. exact Ht'.
      + fold trace in Ht'. rewrite Ht in Ht'.
        apply trace_throw_inj in Ht'. destruct Ht' as [-> _]. exact Hl.
    - destruct (@runSteps_failure STEPS 0%nat company 0%Z n cs e Ht)
        as (body & total & name & Hrun & Htags & Hall & Hin).
      exists body, total, name.
      split; [apply Hstart; exact Hrun|].
      split; [exact Htags|]. split; [exact Hall | exact Hin]. }
  assert (Hok : forall cs, trace = List.map Content cs ->
            exists body total,
              acts = body ++ [Enqueue (StreamComplete total false); Close]
              /\ List.map tag_of body = successTags 1 5
              /\ forallb is_step_event body = true).
  { intros cs Ht.
    destruct (@runSteps_success STEPS 0%nat company 0%Z n cs Ht)
      as (body & total & Hrun & Htags & Hall).
    exists body, total. split; [apply Hstart; exact Hrun|].
    split; [exact Htags | exact Hall]. }
  assert (Hshape : exists body total err,
            acts = body ++ [Enqueue (StreamComplete total err); Close]
            /\ forallb is_step_event body = true).
  { destruct (callTrace_shape STEPS 0 company)
      as [(cs & Ht & _)|(cs & e & Ht & _)].
    - destruct (Hok cs Ht) as (body & total & Ha & _ & Hall).
      exists body, total, false. split; assumption.
    - destruct (Hfail cs e Ht) as (_ & body & total & name & Ha & _ & Hall & _).
      exists body, total, true. split; assumption. }
  split; [|split; [|split; [exact Hshape|]]].
  - intros cs e Ht k.
    destruct (Hfail cs e Ht) as (Hlen & body & total & name & Ha & Htags & _ & Hin).
    split; [exact Hlen|]. split.
    + rewrite Ha, map_app, Htags, <- app_assoc. reflexivity.
    + exists name. rewrite Ha. apply in_or_app. left. exact Hin.
  - intros cs Ht. destruct (Hok cs Ht) as (body & total & Ha & Htags & _).
    rewrite Ha, map_app, Htags. reflexivity.
  - destruct Hshape as (body & total & err & Ha & Hall).
    apply forallb_step_no_close in Hall. destruct Hall as [Hc Hd].
    rewrite Ha, !filter_app, Hc, Hd. split; reflexivity.
Qed.

End AgentRace.

(** The run whose first call fails: running and error for step 1, the
    terminal event with the error flag, the close. *)
Lemma agent_race_event_sequence_witness :
  let failing := fun (_ : nat) (_ _ : jsstring) (_ : Z) =>
                   AgentRaceRoute.CallThrows
                     (ThrownError (str "GROQ_API_KEY not configured")) in
  List.map tag_of
    (fst (AgentRaceRoute.start (fun _ => 0) failing (str "groq")
            (str "Acme") 0%nat))
  = [TRunning 1; TError 1; TDone true; TClose].
Proof.
  intro failing.
  destruct (@agent_race_event_sequence (fun _ => 0) failing (str "groq")
              (str "Acme") 0%nat) as (Hfail & _).
  destruct (Hfail [] (ThrownError (str "GROQ_API_KEY not configured"))
              eq_refl) as (_ & Htags & _).
  exact Htags.
Defined.

(** ** Worked examples *)

Example Math_round_ties :
  Math_round (5 # 2) = 3%Z /\ Math_round (- (5 # 2)) = (-2)%Z
  /\ Math_round (12 # 5) = 2%Z.
Proof. repeat split; reflexivity. Qed.

Example estimateTokenCount_samples :
  estimateTokenCount [] = 0%Z
  /\ estimateTokenCount (str "a") = 1%Z
  /\ estimateTokenCount (str "abcd") = 1%Z
  /\ estimateTokenCount (str "abcde") = 2%Z
  /\ estimateTokenCount (repeat 97%N 397) = 100%Z.
Proof. repeat split; vm_compute; reflexivity. Qed.

Example JSON_parse_samples :
  JSON_parse (str " [1, 2.5e1, -0.25, true, null, {}] ")
  = Normal (JArray [JNumber 1; JNumber 25; JNumber (- (25 # 100)); JBool true;
                    JNull; JObject []])
  /\ (exists e, JSON_parse (str "[1,]") = Throw e)
  /\ (exists e, JSON_parse (str "01") = Throw e)
  /\ (exists e, JSON_parse (str "{bad") = Throw e)
  /\ parseSSELine (str "data: {bad") = Normal None
  /\ parseSSELine (str "data: null") = Normal None
  /\ parseSSELine (str ": keep-alive") = Normal None.
Proof.
  split; [vm_compute; reflexivity|].
  repeat split; try (eexists; vm_compute; reflexivity);
    vm_compute; reflexivity.
Qed.

(** A run of the cerebras route: created at 1000 ms, one reading every
    100 ms, the chunks Hello, an empty one and one without content, then
    world; eleven characters make three tokens in 200 ms. *)
Example provider_route_run :
  let clock := fun n : nat => 1000 + 100 * inject_Z (Z.of_nat n) in
  let cfg := mkProvider (str "Cerebras") (str "llama-3.3-70b")
               (str "#10B981") (str "cerebras-sdk") in
  Oracle.run
    (ProviderRoute.POST clock (str "cerebras") cfg
       (Normal (ProviderRoute.mkBody (Some (str "Say hello")) None))
       [Some (str "Hello"); Some []; None; Some (str " world")]
       ProviderRoute.StreamDone) 0
  = ProviderRoute.Json
      (mkResult (str "cerebras") (str "llama-3.3-70b") 100 (150 # 10) 200 3
         None None None).
Proof. vm_compute. reflexivity. Qed.

(** With [Math.random()] at one half the mock route returns the fixture
    values, the fastest first. *)
Example mock_route_run :
  exists a b c,
    Oracle.run (MockRoute.POST (fun _ => 1 # 2)
                  (Normal (MockRoute.mkBody None))) 0
    = MockRoute.Status200
        [MockRoute.Measured a; MockRoute.Measured b; MockRoute.Measured c]
        true
    /\ List.map provider [a; b; c]
       = [str "cerebras"; str "groq"; str "fireworks"]
    /\ ttft_ms a == 52 /\ ttft_ms b == 186 /\ ttft_ms c == 245.
Proof.
  do 3 eexists. split; [vm_compute; reflexivity|].
  split; [reflexivity|]. repeat split.
Qed.

(** A race whose third call fails. *)
Example agent_race_third_step_fails :
  let calls := fun (i : nat) (_ _ : jsstring) (_ : Z) =>
                 if (i <? 2)%nat then AgentRaceRoute.Content (str "some text")
                 else AgentRaceRoute.CallThrows (ThrownOther (str "timeout")) in
  fst (AgentRaceRoute.start (fun n => 40 * inject_Z (Z.of_nat n)) calls
         (str "groq") (str "Acme") 0%nat)
  = [ AgentRaceRoute.Enqueue (AgentRaceRoute.StepRunning 1 (str "Research"));
      AgentRaceRoute.Enqueue
        (AgentRaceRoute.StepComplete 1 (str "Research") 40 (str "some text"));
      AgentRaceRoute.Enqueue (AgentRaceRoute.StepRunning 2 (str "Summarize"));
      AgentRaceRoute.Enqueue
        (AgentRaceRoute.StepComplete 2 (str "Summarize") 40 (str "some text"));
      AgentRaceRoute.Enqueue (AgentRaceRoute.StepRunning 3 (str "Draft"));
      AgentRaceRoute.Enqueue
        (AgentRaceRoute.StepError 3 (str "Draft") (str "timeout"));
      AgentRaceRoute.Enqueue (AgentRaceRoute.StreamComplete 80 true);
      AgentRaceRoute.Close ].
Proof. vm_compute. reflexivity. Qed.

(** Three updates of 200, 200 and 100 characters, one clock reading every
    10 ms: the first token is recorded at the first update, the time to
    100 tokens at the second, and neither changes afterwards. *)
Example updateHistory_run :
  let clock := fun n : nat => 10 * inject_Z (Z.of_nat (S n)) in
  let fresh := Oracle.run (createStreamMetrics clock) 0 in
  let states :=
    fresh :: Oracle.run
               (updateHistory clock fresh
                  [repeat 97%N 200; repeat 97%N 200; repeat 97%N 100]) 1 in
  List.map tokenCount states = [0; 50; 100; 125]%Z
  /\ List.map firstTokenTime states = [None; Some 20; Some 20; Some 20]
  /\ List.map timeToHundredTokens states
     = [None; None; Some (30 - 10); Some (30 - 10)].
Proof. vm_compute. repeat split. Qed.

(* ------------------------------------------------------------------ *)
(** * Further properties of the sources *)

(** ** Token estimate and rounding *)

Lemma Qfloor_frac (a : Z) (b : positive) : Qfloor (a # b) = (a / Zpos b)%Z.
Proof. reflexivity. Qed.

(** X2. [estimateTokenCount] is the integer ceiling of a quarter of the
    length: zero for the empty text, and otherwise the least count whose
    four-fold covers the length. *)
Theorem estimateTokenCount_ceiling (text : jsstring) :
  let len := Z.of_nat (List.length text) in
  estimateTokenCount text = ((len + 3) / 4)%Z
  /\ (4 * (estimateTokenCount text - 1) < len <= 4 * estimateTokenCount text)%Z
  /\ (estimateTokenCount text = 0%Z <-> text = []).
Proof.
  intro len.
  assert (H : estimateTokenCount text = ((len + 3) / 4)%Z).
  { unfold estimateTokenCount, Math_ceil, Qceiling, DEFAULTS.CHARS_PER_TOKEN.
    fold len. unfold Qdiv, Qmult, Qinv, Qopp, inject_Z. cbn [Qnum Qden].
    rewrite Qfloor_frac. change (Z.pos (1 * 4)) with 4%Z.
    rewrite Z.mul_1_r.
    pose proof (Z.div_mod (- len) 4 ltac:(lia)) as H1.
    pose proof (Z.mod_pos_bound (- len) 4 ltac:(lia)) as H2.
    pose proof (Z.div_mod (len + 3) 4 ltac:(lia)) as H3.
    pose proof (Z.mod_pos_bound (len + 3) 4 ltac:(lia)) as H4.
    lia. }
  split; [exact H|]. rewrite H.
  pose proof (Z.div_mod (len + 3) 4 ltac:(lia)) as H3.
  pose proof (Z.mod_pos_bound (len + 3) 4 ltac:(lia)) as H4.
  split; [lia|].
  split.
  - intro Hz. destruct text as [|c r]; [reflexivity|].
    subst len. cbn [List.length] in *. lia.
  - intros ->. reflexivity.
Qed.

Lemma Math_round_bounds (x : Q) :
  x - (1 # 2) < inject_Z (Math_round x) /\ inject_Z (Math_round x) <= x + (1 # 2).
Proof.
  unfold Math_round. split.
  - pose proof (Qlt_floor (x + (1 # 2))) as H.
    rewrite inject_Z_plus in H. change (inject_Z 1) with 1 in H. lra.
  - apply Qfloor_le.
Qed.

Lemma Math_round_mono (x y : Q) : x <= y -> (Math_round x <= Math_round y)%Z.
Proof.
  intro H. unfold Math_round. apply Qfloor_resp_le. lra.
Qed.

Lemma Math_round_comp (x y : Q) : x == y -> Math_round x = Math_round y.
Proof.
  intro H. unfold Math_round. apply Qfloor_comp. rewrite H. reflexivity.
Qed.

Lemma Math_round_integer (k : Z) : Math_round (inject_Z k) = k.
Proof.
  unfold Math_round.
  assert (H1 : (k <= Qfloor (inject_Z k + (1 # 2)))%Z).
  { rewrite <- (Qfloor_Z k) at 1. apply Qfloor_resp_le. lra. }
  assert (H2 : (Qfloor (inject_Z k + (1 # 2)) < k + 1)%Z).
  { rewrite Zlt_Qlt. eapply Qle_lt_trans; [apply Qfloor_le|].
    rewrite inject_Z_plus. change (inject_Z 1) with 1. lra. }
  lia.
Qed.

(** X3. [roundToOneDecimal] moves a value by at most a twentieth, keeps the
    order of values, and leaves a value that it produced unchanged. *)
Theorem roundToOneDecimal_properties (v w : Q) :
  (v - (1 # 20) < roundToOneDecimal v /\ roundToOneDecimal v <= v + (1 # 20))
  /\ (v <= w -> roundToOneDecimal v <= roundToOneDecimal w)
  /\ roundToOneDecimal (roundToOneDecimal v) == roundToOneDecimal v
  /\ (0 <= v -> 0 <= roundToOneDecimal v).
Proof.
  unfold roundToOneDecimal.
  pose proof (Math_round_bounds (v * 10)) as [Hlo Hhi].
  assert (Hmono : forall a b : Q, a <= b ->
            inject_Z (Math_round (a * 10)) / 10
            <= inject_Z (Math_round (b * 10)) / 10).
  { intros a b Hab.
    assert (H : (Math_round (a * 10) <= Math_round (b * 10))%Z)
      by (apply Math_round_mono; lra).
    rewrite Zle_Qle in H.
    apply Qmult_le_compat_r; [exact H|]. unfold Qle; cbn; lia. }
  split; [split|split; [|split]].
  - apply Qlt_shift_div_l; [reflexivity|]. lra.
  - apply Qle_shift_div_r; [reflexivity|]. lra.
  - apply Hmono.
  - assert (E : inject_Z (Math_round (v * 10)) / 10 * 10
                == inject_Z (Math_round (v * 10))) by (field).
    rewrite (Math_round_comp E), Math_round_integer. reflexivity.
  - intro Hv.
    assert (H : (Math_round (0 * 10) <= Math_round (v * 10))%Z)
      by (apply Math_round_mono; lra).
    change (Math_round (0 * 10)) with 0%Z in H. rewrite Zle_Qle in H.
    change (inject_Z 0) with 0 in H.
    apply Qle_shift_div_l; [reflexivity|]. lra.
Qed.

(** ** The stream loop and the success path of the provider routes *)

Lemma roundToOneDecimal_nonneg (v : Q) : 0 <= v -> 0 <= roundToOneDecimal v.
Proof.
  intro Hv. unfold roundToOneDecimal.
  assert (H : (Math_round (0 * 10) <= Math_round (v * 10))%Z)
    by (apply Math_round_mono; lra).
  change (Math_round (0 * 10)) with 0%Z in H. rewrite Zle_Qle in H.
  change (inject_Z 0) with 0 in H.
  apply Qle_shift_div_l; [reflexivity|]. lra.
Qed.

Lemma Math_round_nonneg (x : Q) : 0 <= x -> 0 <= inject_Z (Math_round x).
Proof.
  intro H. change 0 with (inject_Z 0). rewrite <- Zle_Qle.
  change 0%Z with (Math_round 0). apply Math_round_mono. exact H.
Qed.

Lemma Math_round_le (x y : Q) :
  x <= y -> inject_Z (Math_round x) <= inject_Z (Math_round y).
Proof. intro H. rewrite <- Zle_Qle. apply Math_round_mono. exact H. Qed.

Lemma forwarded_text_nonempty (chunks : list (option jsstring)) :
  forwarded chunks <> [] -> List.concat (forwarded chunks) <> [].
Proof.
  induction chunks as [|ch rest IH]; [intro H; contradiction|].
  unfold forwarded. cbn [flat_map]. fold (forwarded rest).
  destruct ch as [c|]; [|exact IH].
  destruct c as [|u c']; [exact IH|].
  intros _. cbn. discriminate.
Qed.

Lemma estimateTokenCount_pos (text : jsstring) :
  text <> [] -> (1 <= estimateTokenCount text)%Z.
Proof.
  destruct text as [|c r]; [intro H; contradiction|]. intros _.
  change 1%Z with (estimateTokenCount [c]).
  apply estimateTokenCount_mono. cbn. lia.
Qed.

Lemma first100_nonzero (d : Q) : ~ d == 0 -> ~ 100 / (d / 1000) == 0.
Proof.
  intros Hd H.
  assert (E : 100 / (d / 1000) * (d / 1000) == 100) by (field; exact Hd).
  rewrite H in E. revert E. unfold Qeq; cbn. lia.
Qed.

Section StreamLoop.

Variable clock : nat -> Q.

Lemma driveStream_text (chunks : list (option jsstring)) :
  forall m n,
    tokenCount m = estimateTokenCount (fullResponse m) ->
    let m' := fst (ProviderRoute.driveStream clock m chunks n) in
    fullResponse m' = fullResponse m ++ List.concat (forwarded chunks)
    /\ tokenCount m' = estimateTokenCount (fullResponse m')
    /\ startTime m' = startTime m.
Proof.
  induction chunks as [|ch rest IH]; intros m n Hm.
  - cbn. rewrite app_nil_r. auto.
  - cbn [ProviderRoute.driveStream]. unfold forwarded. cbn [flat_map].
    fold (forwarded rest).
    destruct ch as [c|]; [|apply IH; exact Hm].
    destruct (truthy_str c); [|apply IH; exact Hm].
    unfold Oracle.bind.
    pose proof (updateMetrics_run clock m c n) as Hu.
    destruct (updateMetrics clock m c n) as [m1 n1].
    injection Hu as Hm1 _.
    assert (H1 : tokenCount m1 = estimateTokenCount (fullResponse m1))
      by (rewrite Hm1; reflexivity).
    destruct (IH m1 n1 H1) as (Ht & Hc & Hs).
    cbn zeta. rewrite Ht, Hc, Hs, Ht. rewrite Hm1. cbn [fullResponse startTime].
    cbn [List.concat app]. rewrite <- !app_assoc. auto.
Qed.

Lemma updateMetrics_stamped (n0 t : nat) (m : StreamMetrics) (c : jsstring) :
  (n0 <= t)%nat -> stamped clock n0 t m -> counted m ->
  stamped clock n0 (snd (updateMetrics clock m c t))
    (fst (updateMetrics clock m c t))
  /\ counted (fst (updateMetrics clock m c t))
  /\ (t <= snd (updateMetrics clock m c t))%nat.
Proof.
  intros Hn0 (Hs & Hf & Hd) Hc.
  destruct (updateMetrics_evolves clock c t Hc) as [_ Hc'].
  split; [|split; [exact Hc'|]]; rewrite updateMetrics_run; cbn zeta;
    cbn [fst snd startTime firstTokenTime timeToHundredTokens];
    set (n1 := match firstTokenTime m with None => S t | Some _ => t end);
    assert (Hn1 : (t <= n1)%nat)
      by (subst n1; destruct (firstTokenTime m); lia);
    set (reached := (DEFAULTS.TOKEN_THRESHOLD_FOR_METRICS
                     <=? estimateTokenCount (fullResponse m ++ c))%Z);
    set (fin := match timeToHundredTokens m with
                | None => if reached then S n1 else n1
                | Some _ => n1
                end);
    assert (Hfin : (n1 <= fin)%nat)
      by (subst fin; destruct (timeToHundredTokens m);
          [lia | destruct reached; lia]).
  - split; [exact Hs|]. split.
    + intros f Hfm. destruct (firstTokenTime m) as [f0|] eqn:Ef.
      * destruct (Hf f0 eq_refl) as (i & Hi & Hfi). injection Hfm as <-.
        exists i. split; [lia|exact Hfi].
      * injection Hfm as <-. exists t. subst n1. split; [lia|reflexivity].
    + intros d Hdm. destruct (timeToHundredTokens m) as [d0|] eqn:Ed.
      * destruct (Hd d0 eq_refl) as (j & Hj & Hdj). injection Hdm as <-.
        exists j. split; [lia|exact Hdj].
      * destruct reached; [|discriminate]. injection Hdm as <-.
        exists n1. subst fin. split; [lia|]. rewrite Hs. reflexivity.
  - lia.
Qed.

Lemma driveStream_stamped (chunks : list (option jsstring)) :
  forall n0 t m,
    (n0 <= t)%nat -> stamped clock n0 t m -> counted m ->
    stamped clock n0 (snd (ProviderRoute.driveStream clock m chunks t))
      (fst (ProviderRoute.driveStream clock m chunks t))
    /\ counted (fst (ProviderRoute.driveStream clock m chunks t))
    /\ (t <= snd (ProviderRoute.driveStream clock m chunks t))%nat.
Proof.
  induction chunks as [|ch rest IH]; intros n0 t m Hn0 Hs Hc.
  - cbn. auto.
  - cbn [ProviderRoute.driveStream].
    destruct ch as [c|]; [|apply IH; assumption].
    destruct (truthy_str c); [|apply IH; assumption].
    unfold Oracle.bind.
    destruct (updateMetrics_stamped c Hn0 Hs Hc) as (Hs1 & Hc1 & Ht1).
    destruct (updateMetrics clock m c t) as [m1 t1]. cbn [fst snd] in *.
    destruct (IH n0 t1 m1 ltac:(lia) Hs1 Hc1) as (Hs2 & Hc2 & Ht2).
    split; [exact Hs2|]. split; [exact Hc2|]. lia.
Qed.

End StreamLoop.

(** X4. The accumulated text is the concatenation of the non-empty chunks and
    the token count is its estimate, whatever the clock reads: two streams
    that carry the same text in different chunks end with the same text
    and the same token count. *)
Theorem driveStream_chunking (clock clock' : nat -> Q)
  (chunks chunks' : list (option jsstring)) (n n' : nat) :
  let run := fun ck cs k =>
    fst (ProviderRoute.driveStream ck
           (fst (createStreamMetrics ck k)) cs (snd (createStreamMetrics ck k)))
  in
  fullResponse (run clock chunks n) = List.concat (forwarded chunks)
  /\ tokenCount (run clock chunks n)
     = estimateTokenCount (List.concat (forwarded chunks))
  /\ (List.concat (forwarded chunks) = List.concat (forwarded chunks') ->
      fullResponse (run clock chunks n) = fullResponse (run clock' chunks' n')
      /\ tokenCount (run clock chunks n) = tokenCount (run clock' chunks' n')).
Proof.
  intro run.
  assert (Hrun : forall ck cs k,
            fullResponse (run ck cs k) = List.concat (forwarded cs)
            /\ tokenCount (run ck cs k)
               = estimateTokenCount (List.concat (forwarded cs))).
  { intros ck cs k. unfold run.
    destruct (@driveStream_text ck cs (fst (createStreamMetrics ck k))
                (snd (createStreamMetrics ck k)) eq_refl) as (Ht & Hc & _).
    cbn zeta in Ht, Hc. rewrite Hc, Ht. cbn. auto. }
  destruct (Hrun clock chunks n) as [H1 H2].
  split; [exact H1|]. split; [exact H2|].
  intro Heq. destruct (Hrun clock' chunks' n') as [H3 H4].
  rewrite H1, H2, H3, H4, Heq. split; reflexivity.
Qed.

(** X5. The success path of a provider route, under a clock that never goes
    back: the result carries no error, the identifier and the model of
    the route, a token count that is the estimate for the received text
    (at least one when a non-empty chunk arrived), and times and rates
    that are not negative; the time to first token does not exceed the
    total latency; the time to 100 tokens, when reported, comes with at
    least 100 tokens and does not exceed the total latency, and it is
    reported exactly when the throughput of the first 100 tokens is. *)
Theorem provider_route_success (clock : nat -> Q) (id : jsstring)
  (cfg : ProviderConfig) (body : ProviderRoute.request_body)
  (chunks : list (option jsstring)) (n : nat) :
  monotone_clock clock ->
  truthy_opt truthy_str (ProviderRoute.prompt body) = true ->
  exists r,
    fst (ProviderRoute.POST clock id cfg (Normal body) chunks
           ProviderRoute.StreamDone n) = ProviderRoute.Json r
    /\ error r = None /\ provider r = id /\ model r = pc_model cfg
    /\ token_count r = estimateTokenCount (List.concat (forwarded chunks))
    /\ (forwarded chunks <> [] -> (1 <= token_count r)%Z)
    /\ 0 <= ttft_ms r /\ ttft_ms r <= total_latency_ms r
    /\ 0 <= tokens_per_second r
    /\ (forall t, time_to_100_tokens_ms r = Some t ->
          (100 <= token_count r)%Z /\ 0 <= t /\ t <= total_latency_ms r)
    /\ (time_to_100_tokens_ms r = None <-> throughput_first_100 r = None).
Proof.
  intros Hmono Hp.
  unfold ProviderRoute.POST, createStreamMetrics, now, Oracle.next,
    Oracle.bind, Oracle.ret.
  rewrite Hp. cbn [negb].
  set (m0 := mkMetrics (clock n) None None 0 []).
  assert (Hs0 : stamped clock n (S n) m0).
  { split; [reflexivity|]. split; intros x Hx; discriminate. }
  assert (Hc0 : counted m0).
  { split; [reflexivity|]. intro H. exfalso. apply H. reflexivity. }
  destruct (@driveStream_text clock chunks m0 (S n) eq_refl)
    as (Htext & Hcount & _). cbn zeta in Htext, Hcount.
  change (fullResponse m0) with (@nil N) in Htext. cbn [app] in Htext.
  destruct (@driveStream_stamped clock chunks n (S n) m0 ltac:(lia) Hs0 Hc0)
    as ((Hstart & Hfirst & Hhund) & (_ & Hreach) & Htick).
  destruct (ProviderRoute.driveStream clock m0 chunks (S n)) as [m t].
  cbn [fst snd] in *.
  unfold buildSuccessResult, Oracle.bind, Oracle.ret.
  rewrite calculateBenchmarkMetrics_run.
  eexists. split; [reflexivity|].
  cbn [error provider model token_count ttft_ms total_latency_ms
       tokens_per_second time_to_100_tokens_ms throughput_first_100
       ttftMs totalLatencyMs tokensPerSecond throughputFirst100].
  assert (Hnow : clock n <= clock t) by (apply Hmono; lia).
  assert (Htotal : 0 <= clock t - startTime m) by (rewrite Hstart; lra).
  split; [reflexivity|]. split; [reflexivity|]. split; [reflexivity|].
  split; [rewrite Hcount, Htext; reflexivity|].
  split.
  { intro Hne. rewrite Hcount, Htext.
    apply estimateTokenCount_pos, forwarded_text_nonempty, Hne. }
  assert (Httft : 0 <= match firstTokenTime m with
                       | Some f => if truthy_num f then f - startTime m
                                   else clock t - startTime m
                       | None => clock t - startTime m
                       end
                  /\ match firstTokenTime m with
                     | Some f => if truthy_num f then f - startTime m
                                 else clock t - startTime m
                     | None => clock t - startTime m
                     end <= clock t - startTime m).
  { destruct (firstTokenTime m) as [f|]; [|split; [exact Htotal|lra]].
    destruct (truthy_num f); [|split; [exact Htotal|lra]].
    destruct (Hfirst f eq_refl) as (i & Hi & ->).
    assert (clock n <= clock i) by (apply Hmono; lia).
    assert (clock i <= clock t) by (apply Hmono; lia).
    rewrite Hstart. split; lra. }
  destruct Httft as [Hlo Hhi].
  split; [apply Math_round_nonneg; exact Hlo|].
  split; [apply Math_round_le; exact Hhi|].
  split.
  { apply roundToOneDecimal_nonneg.
    destruct ((0 <? tokenCount m)%Z && Qgtb (clock t - startTime m) 0) eqn:E;
      [|lra].
    apply andb_true_iff in E. destruct E as [Ec Et].
    apply Z.ltb_lt in Ec. apply Qgtb_lt in Et.
    apply Qmult_le_0_compat; [|lra].
    apply Qle_shift_div_l; [exact Et|].
    rewrite Qmult_0_l. change 0 with (inject_Z 0). rewrite <- Zle_Qle. lia. }
  split.
  { intros x Hx. destruct (timeToHundredTokens m) as [d|] eqn:Ed; [|discriminate].
    destruct (truthy_num d); [|discriminate]. injection Hx as <-.
    destruct (Hhund d eq_refl) as (j & Hj & ->).
    assert (clock n <= clock j) by (apply Hmono; lia).
    assert (clock j <= clock t) by (apply Hmono; lia).
    split; [apply Hreach; discriminate|].
    split; [apply Math_round_nonneg; lra|].
    apply Math_round_le. rewrite Hstart. lra. }
  destruct (timeToHundredTokens m) as [d|]; [|split; reflexivity].
  destruct (truthy_num d) eqn:Et; [|split; reflexivity].
  cbn [throughputFirst100].
  assert (Hx : truthy_num (100 / (d / 1000)) = true).
  { apply truthy_num_neq. apply first100_nonzero.
    apply truthy_num_neq. exact Et. }
  rewrite Hx. split; discriminate.
Qed.

(** A measured run: five readings 0, 10, 20, ... with one chunk. *)
Lemma provider_route_success_witness :
  exists r,
    fst (ProviderRoute.POST (fun n => inject_Z (Z.of_nat (10 * n)))
           (str "cerebras")
           (mkProvider (str "Cerebras") (str "llama-3.3-70b") (str "#10B981")
              (str "cerebras-sdk"))
           (Normal (ProviderRoute.mkBody (Some (str "Say hello")) None))
           [Some (str "Hello")] ProviderRoute.StreamDone 0%nat)
    = ProviderRoute.Json r
    /\ error r = None /\ ttft_ms r <= total_latency_ms r.
Proof.
  destruct (@provider_route_success
              (fun n => inject_Z (Z.of_nat (10 * n))) (str "cerebras")
              (mkProvider (str "Cerebras") (str "llama-3.3-70b")
                 (str "#10B981") (str "cerebras-sdk"))
              (ProviderRoute.mkBody (Some (str "Say hello")) None)
              [Some (str "Hello")] 0%nat)
    as (r & Hr & He & _ & _ & _ & _ & _ & Hle & _).
  - intros i j Hij. rewrite <- Zle_Qle. lia.
  - reflexivity.
  - exists r. split; [exact Hr|]. split; [exact He | exact Hle].
Defined.

(** X6. Whatever the request and the upstream do, a provider route answers
    400 only for a readable body without a prompt; in every other case it
    answers with a result that bears the identifier and the model of the
    route, and the result carries an error exactly when the body could
    not be read or the upstream call threw. *)
Theorem provider_route_response (clock : nat -> Q) (id : jsstring)
  (cfg : ProviderConfig) (body : completion ProviderRoute.request_body)
  (chunks : list (option jsstring)) (ending : ProviderRoute.stream_end)
  (n : nat) :
  let resp := fst (ProviderRoute.POST clock id cfg body chunks ending n) in
  let no_prompt := match body with
                   | Normal b =>
                       negb (truthy_opt truthy_str (ProviderRoute.prompt b))
                   | Throw _ => false
                   end in
  (no_prompt = true -> resp = ProviderRoute.BadRequest (str "prompt is required"))
  /\ (no_prompt = false ->
      exists r, resp = ProviderRoute.Json r
                /\ provider r = id /\ model r = pc_model cfg
                /\ (error r = None <->
                    (exists b, body = Normal b)
                    /\ ending = ProviderRoute.StreamDone)).
Proof.
  intros resp no_prompt. subst resp no_prompt.
  unfold ProviderRoute.POST, createStreamMetrics, now, Oracle.next,
    Oracle.bind, Oracle.ret.
  destruct body as [b|e].
  - destruct (negb (truthy_opt truthy_str (ProviderRoute.prompt b))) eqn:Ep.
    + split; [reflexivity|discriminate].
    + split; [discriminate|]. intros _.
      destruct (ProviderRoute.driveStream clock
                  (mkMetrics (clock n) None None 0 []) chunks (S n)) as [m t].
      destruct ending as [|e].
      * eexists. split; [reflexivity|]. repeat split; eauto.
      * eexists. split; [reflexivity|]. repeat split; try discriminate.
        intros [_ H]. discriminate.
  - split; [discriminate|]. intros _.
    eexists. split; [reflexivity|]. repeat split; try discriminate.
    intros [[b H] _]. discriminate.
Qed.

(** ** The stream reader *)

Section StreamReaderFacts.

Import StreamReader.

Lemma parseSSELine_returns (line : jsstring) :
  exists v, parseSSELine line = Normal v.
Proof.
  unfold parseSSELine.
  destruct (negb (truthy_str (trim line))
            || negb (startsWith (trim line) (str "data: "))); [eauto|].
  destruct (jsstring_eqb (skipn 6 (trim line)) (str "[DONE]")); [eauto|].
  apply try_catch_returns.
Qed.

Lemma parseSSELine_blank (line : jsstring) :
  truthy_str (trim line) = false -> parseSSELine line = Normal None.
Proof. intro H. unfold parseSSELine. rewrite H. reflexivity. Qed.

Lemma yieldLines_contents (lines : list jsstring) :
  yieldLines lines = (flat_map contentOf lines, None).
Proof.
  induction lines as [|l rest IH]; [reflexivity|].
  cbn [yieldLines flat_map]. unfold contentOf at 1.
  destruct (parseSSELine_returns l) as [v Hv]. rewrite Hv, IH. reflexivity.
Qed.

Lemma exists_last_in {A} (x : A) (l : list A) : In (last (x :: l) x) (x :: l).
Proof.
  revert x. induction l as [|y l IH]; intro x; [left; reflexivity|].
  right. change (In (last (y :: l) x) (y :: l)).
  rewrite (last_default l y x y). apply IH.
Qed.

Lemma last_app_nonempty {A} (l1 l2 : list A) (d : A) :
  l2 <> [] -> last (l1 ++ l2) d = last l2 d.
Proof.
  intro H. induction l1 as [|x l1 IH]; [reflexivity|].
  cbn [app]. destruct (l1 ++ l2) eqn:E.
  - apply app_eq_nil in E. destruct E as [_ E]. contradiction.
  - exact IH.
Qed.

Lemma split_nonempty (sep : N) (s : jsstring) : split sep s <> [].
Proof.
  induction s as [|c r IH]; [discriminate|].
  cbn [split]. destruct (c =? sep)%N; [discriminate|].
  destruct (split sep r); discriminate.
Qed.

Lemma split_app (sep : N) (a b : jsstring) :
  split sep (a ++ b)
  = removelast (split sep a) ++ split sep (last (split sep a) [] ++ b).
Proof.
  induction a as [|c r IH]; [reflexivity|].
  cbn [app split]. rewrite IH.
  pose proof (split_nonempty sep r) as Hne.
  destruct (c =? sep)%N eqn:Ec.
  - destruct (split sep r) as [|h t] eqn:Es; [contradiction|]. reflexivity.
  - destruct (split sep r) as [|h t] eqn:Es; [contradiction|].
    destruct t as [|h' t'].
    + cbn [removelast last app split]. rewrite Ec. reflexivity.
    + reflexivity.
Qed.

Lemma split_lines_whole (sep : N) (s : jsstring) :
  Forall (fun l => split sep l = [l]) (split sep s).
Proof.
  induction s as [|c r IH]; [constructor; [reflexivity|constructor]|].
  cbn [split]. destruct (c =? sep)%N eqn:Ec.
  - constructor; [reflexivity|exact IH].
  - destruct (split sep r) as [|h t]; [constructor; [|constructor]|].
    + cbn [split]. rewrite Ec. reflexivity.
    + inversion IH as [|? ? Hh Ht]; subst. constructor; [|exact Ht].
      cbn [split]. rewrite Ec, Hh. reflexivity.
Qed.

Lemma split_last_whole (sep : N) (s : jsstring) :
  split sep (last (split sep s) []) = [last (split sep s) []].
Proof.
  pose proof (split_lines_whole sep s) as H.
  pose proof (split_nonempty sep s) as Hne.
  rewrite Forall_forall in H. apply H.
  destruct (split sep s) as [|h t]; [contradiction|].
  rewrite (last_default t h [] h). apply (@exists_last_in _ h t).
Qed.

Lemma readLoop_lines (pieces : list jsstring) :
  forall buffer,
    split line_feed buffer = [buffer] ->
    readLoop pieces buffer
    = (flat_map contentOf
         (removelast (split line_feed (buffer ++ List.concat pieces))),
       inl (last (split line_feed (buffer ++ List.concat pieces)) [])).
Proof.
  induction pieces as [|p rest IH]; intros buffer Hb.
  - cbn [readLoop List.concat]. rewrite app_nil_r, Hb. reflexivity.
  - cbn [readLoop List.concat]. rewrite yieldLines_contents.
    rewrite (IH _ (split_last_whole line_feed (buffer ++ p))).
    rewrite app_assoc, (split_app line_feed (buffer ++ p) (List.concat rest)).
    set (X := removelast (split line_feed (buffer ++ p))).
    set (Y := split line_feed
                (last (split line_feed (buffer ++ p)) [] ++ List.concat rest)).
    assert (HY : Y <> []) by apply split_nonempty.
    rewrite (removelast_app X HY), flat_map_app, (last_app_nonempty X [] HY).
    reflexivity.
Qed.

Lemma contentOf_blank (line : jsstring) :
  truthy_str (trim line) = false -> contentOf line = [].
Proof.
  intro H. unfold contentOf. rewrite (parseSSELine_blank line H). reflexivity.
Qed.

Lemma tryBlock_done (pieces : list jsstring) :
  tryBlock pieces ReadDone
  = (flat_map contentOf (split line_feed (List.concat pieces)), None).
Proof.
  unfold tryBlock. rewrite (@readLoop_lines pieces [] eq_refl). cbn [app].
  set (L := split line_feed (List.concat pieces)).
  assert (HL : L <> []) by apply split_nonempty.
  assert (E0 : flat_map contentOf L
               = flat_map contentOf (removelast L) ++ contentOf (last L [])).
  { rewrite (app_removelast_last [] HL) at 1. rewrite flat_map_app.
    cbn [flat_map]. rewrite app_nil_r. reflexivity. }
  rewrite E0.
  destruct (truthy_str (trim (last L []))) eqn:E.
  - rewrite yieldLines_contents. cbn [flat_map]. rewrite app_nil_r.
    reflexivity.
  - rewrite (contentOf_blank _ E), app_nil_r. reflexivity.
Qed.

Lemma tryBlock_rejects (pieces : list jsstring) (e : thrown) :
  tryBlock pieces (ReadRejects e)
  = (flat_map contentOf (removelast (split line_feed (List.concat pieces))),
     Some e).
Proof.
  unfold tryBlock. rewrite (@readLoop_lines pieces [] eq_refl). reflexivity.
Qed.

Lemma contentOf_in (line : jsstring) (v : value) :
  In v (contentOf line) ->
  truthy v = true /\ parseSSELine line = Normal (Some v).
Proof.
  unfold contentOf. destruct (parseSSELine line) as [[w|]|e];
    try (intro H; contradiction).
  destruct (truthy w) eqn:E; [|intro H; contradiction].
  intros [<-|[]]. split; [exact E|reflexivity].
Qed.

Lemma firstn_incl {A} (n : nat) (l : list A) (x : A) :
  In x (firstn n l) -> In x l.
Proof.
  revert l. induction n as [|n IH]; intros l H; [contradiction|].
  destruct l as [|a l]; [contradiction|].
  destruct H as [<-|H]; [left; reflexivity|right; apply IH; exact H].
Qed.

Lemma removelast_incl {A} (l : list A) (x : A) :
  In x (removelast l) -> In x l.
Proof.
  induction l as [|a l IH]; [intro H; exact H|].
  destruct l as [|b l']; [intro H; contradiction|].
  intros [<-|H]; [left; reflexivity|right; apply IH; exact H].
Qed.

(** X7. The contents that the reader yields depend on the text of the body
    only, not on the way the reads cut it: they are the contents of the
    lines of the whole text, in order, followed by the release of the
    reader. Two bodies with the same text give the same run, also for a
    consumer that stops early. *)
Theorem createStreamReader_chunking (pieces pieces' : list jsstring) :
  createStreamReader (Some (pieces, ReadDone)) None
  = (List.map Yielded
       (flat_map contentOf (split line_feed (List.concat pieces)))
     ++ [Released],
     Finished)
  /\ (List.concat pieces = List.concat pieces' ->
      forall stopAt,
        createStreamReader (Some (pieces, ReadDone)) stopAt
        = createStreamReader (Some (pieces', ReadDone)) stopAt).
Proof.
  split.
  - unfold createStreamReader. rewrite tryBlock_done. reflexivity.
  - intros Heq stopAt. unfold createStreamReader.
    rewrite !tryBlock_done, Heq. reflexivity.
Qed.

(** X8. The protocol of the reader. Without a body it throws before it holds
    a reader and releases nothing. With a body it yields contents and then
    releases the reader, once and as its last act, whether the reads end,
    a read rejects or the consumer stops early; every content it yields is
    truthy and is what [parseSSELine] returns for a line of the text; a
    rejected read is thrown again after the release, and a consumer that
    stops in the body for item [k] has received the items up to [k]. *)
Theorem createStreamReader_protocol (body : option (list jsstring * read_end))
  (stopAt : option nat) :
  match body with
  | None =>
      createStreamReader body stopAt
      = ([], Failed (ThrownError (str "No response body")))
  | Some (pieces, ending) =>
      exists ys,
        fst (createStreamReader body stopAt)
        = List.map Yielded ys ++ [Released]
        /\ Forall (fun v =>
                     truthy v = true
                     /\ exists line,
                          In line (split line_feed (List.concat pieces))
                          /\ parseSSELine line = Normal (Some v)) ys
        /\ (forall e, ending = ReadRejects e -> stopAt = None ->
              snd (createStreamReader body stopAt) = Failed e)
        /\ (ending = ReadDone -> stopAt = None ->
              snd (createStreamReader body stopAt) = Finished)
        /\ (forall k, stopAt = Some k ->
              (k < List.length (fst (tryBlock pieces ending)))%nat ->
              snd (createStreamReader body stopAt) = Stopped
              /\ ys = firstn (S k) (fst (tryBlock pieces ending)))
  end.
Proof.
  destruct body as [[pieces ending]|]; [|reflexivity].
  assert (Hys : Forall (fun v =>
                  truthy v = true
                  /\ exists line,
                       In line (split line_feed (List.concat pieces))
                       /\ parseSSELine line = Normal (Some v))
                (fst (tryBlock pieces ending))).
  { apply Forall_forall. intros v Hv.
    assert (Hin : exists line,
               In line (split line_feed (List.concat pieces))
               /\ In v (contentOf line)).
    { destruct ending as [|e].
      - rewrite tryBlock_done in Hv. cbn [fst] in Hv.
        apply in_flat_map in Hv. exact Hv.
      - rewrite tryBlock_rejects in Hv. cbn [fst] in Hv.
        apply in_flat_map in Hv. destruct Hv as (line & Hl & Hc).
        exists line. split; [apply removelast_incl; exact Hl|exact Hc]. }
    destruct Hin as (line & Hl & Hc). apply contentOf_in in Hc.
    destruct Hc as [Ht Hp]. split; [exact Ht|]. exists line. auto. }
  unfold createStreamReader.
  destruct (tryBlock pieces ending) as [ys err] eqn:Et. cbn [fst] in Hys |- *.
  assert (Herr : (forall e, ending = ReadRejects e -> err = Some e)
                 /\ (ending = ReadDone -> err = None)).
  { split.
    - intros e ->. rewrite tryBlock_rejects in Et. congruence.
    - intros ->. rewrite tryBlock_done in Et. congruence. }
  destruct Herr as [Hrej Hdone].
  destruct stopAt as [k|].
  - destruct (k <? List.length ys)%nat eqn:Ek.
    + exists (firstn (S k) ys). cbn [fst snd].
      split; [reflexivity|]. split.
      { apply Forall_forall. intros v Hv. rewrite Forall_forall in Hys.
        apply Hys. eapply firstn_incl. exact Hv. }
      split; [intros; discriminate|]. split; [intros; discriminate|].
      intros k' Hk' _. injection Hk' as <-. split; reflexivity.
    + exists ys. cbn [fst snd]. split; [reflexivity|]. split; [exact Hys|].
      split; [intros; discriminate|]. split; [intros; discriminate|].
      intros k' Hk' Hlt. injection Hk' as <-.
      apply Nat.ltb_ge in Ek. lia.
  - exists ys. cbn [fst snd]. split; [reflexivity|]. split; [exact Hys|].
    split; [intros e He _; rewrite (Hrej e He); reflexivity|].
    split; [intros He _; rewrite (Hdone He); reflexivity|].
    intros; discriminate.
Qed.

End StreamReaderFacts.

(** ** The simulated measurements of the mock route *)

Section MockFacts.

Variable random : nat -> Q.
Hypothesis random_range : unit_range random.

Lemma varied_band (value pct r : Q) :
  0 <= r -> r < 1 -> 0 <= value -> 0 <= pct ->
  within_band value pct
    (roundToOneDecimal (value + (r - (1 # 2)) * 2 * (value * (pct / 100)))).
Proof.
  intros Hr0 Hr1 Hv Hp.
  set (V := value * (pct / 100)).
  assert (HV : 0 <= V).
  { unfold V. apply Qmult_le_0_compat; [exact Hv|].
    apply Qle_shift_div_l; [reflexivity|]. lra. }
  assert (H1 : 0 <= r * V) by (apply Qmult_le_0_compat; assumption).
  assert (H2 : 0 <= (1 - r) * V) by (apply Qmult_le_0_compat; [lra|exact HV]).
  set (x := value + (r - (1 # 2)) * 2 * V).
  assert (Hx : value - V <= x /\ x <= value + V).
  { unfold x. split.
    - assert (E : value + (r - (1 # 2)) * 2 * V - (value - V) == 2 * (r * V))
        by ring. lra.
    - assert (E : value + V - (value + (r - (1 # 2)) * 2 * V)
                  == 2 * ((1 - r) * V)) by ring. lra. }
  pose proof (Math_round_bounds (x * 10)) as [Hlo Hhi].
  unfold within_band, roundToOneDecimal. fold V. split.
  - apply Qlt_shift_div_l; [reflexivity|]. lra.
  - apply Qle_shift_div_r; [reflexivity|]. lra.
Qed.

(** X9. [addVariance] takes one random value and returns a value inside the
    band of [variancePercent] percent around the given one, up to the
    rounding to one decimal; [simulateLatency] takes one random value and
    waits for a delay between the two bounds. *)
Theorem addVariance_band (value pct minMs maxMs : Q) (n : nat) :
  0 <= value -> 0 <= pct -> minMs <= maxMs ->
  within_band value pct (fst (MockRoute.addVariance random value pct n))
  /\ snd (MockRoute.addVariance random value pct n) = S n
  /\ minMs <= fst (MockRoute.simulateLatency random minMs maxMs n)
  /\ fst (MockRoute.simulateLatency random minMs maxMs n) <= maxMs
  /\ snd (MockRoute.simulateLatency random minMs maxMs n) = S n.
Proof.
  intros Hv Hp Hm. destruct (random_range n) as [Hr0 Hr1].
  split; [apply varied_band; assumption|]. split; [reflexivity|].
  cbn [MockRoute.simulateLatency MockRoute.Math_random Oracle.bind Oracle.next
       Oracle.ret fst snd].
  unfold MockRoute.simulateLatency, MockRoute.Math_random, Oracle.bind,
    Oracle.next, Oracle.ret. cbn [fst snd].
  assert (H1 : 0 <= random n * (maxMs - minMs))
    by (apply Qmult_le_0_compat; lra).
  assert (H2 : 0 <= (1 - random n) * (maxMs - minMs))
    by (apply Qmult_le_0_compat; lra).
  split; [lra|]. split; [|reflexivity].
  assert (E : maxMs - (minMs + random n * (maxMs - minMs))
              == (1 - random n) * (maxMs - minMs)) by ring.
  lra.
Qed.

Lemma fixture_facts (id : jsstring) (fx : MockRoute.fixture) :
  record_get MockRoute.MOCK_BENCHMARKS id = Some fx ->
  0 <= MockRoute.f_ttft_ms fx
  /\ 0 <= MockRoute.f_tokens_per_second fx
  /\ 0 <= MockRoute.f_total_latency_ms fx
  /\ 0 <= MockRoute.f_time_to_100_tokens_ms fx
  /\ 0 <= MockRoute.f_throughput_first_100 fx
  /\ truthy_num (MockRoute.f_time_to_100_tokens_ms fx) = true
  /\ truthy_num (MockRoute.f_throughput_first_100 fx) = true.
Proof.
  unfold MockRoute.MOCK_BENCHMARKS. cbn [record_get].
  repeat match goal with
         | |- context [if ?b then _ else _] => destruct b
         end;
    intro H; inversion H; subst; clear H;
    repeat split; try reflexivity; discriminate.
Qed.

Lemma token_jitter_range (r : Q) :
  0 <= r -> r < 1 ->
  (-10 <= Math_floor (r * MockRoute.MOCK_SETTINGS.TOKEN_COUNT_VARIANCE * 2
                      - MockRoute.MOCK_SETTINGS.TOKEN_COUNT_VARIANCE) <= 9)%Z.
Proof.
  intros H0 H1. unfold Math_floor, MockRoute.MOCK_SETTINGS.TOKEN_COUNT_VARIANCE.
  set (x := r * 10 * 2 - 10).
  assert (Hlo : -10 <= x) by (unfold x; lra).
  assert (Hhi : x < 10) by (unfold x; lra).
  split.
  - rewrite <- (Qfloor_Z (-10)). apply Qfloor_resp_le. exact Hlo.
  - assert (H : (Qfloor x < 10)%Z).
    { apply Z.lt_nge. intro Hc.
      assert (Hq : inject_Z 10 <= inject_Z (Qfloor x))
        by (rewrite <- Zle_Qle; exact Hc).
      pose proof (Qfloor_le x) as Hf.
      change (inject_Z 10) with 10 in Hq. lra. }
    lia.
Qed.

Lemma mockResult_near (id : jsstring) (fx : MockRoute.fixture) (n : nat) :
  record_get MockRoute.MOCK_BENCHMARKS id = Some fx ->
  near_fixture (fst (MockRoute.mockResult random id fx n)).
Proof.
  intro Hfx.
  destruct (fixture_facts id Hfx) as (H1 & H2 & H3 & H4 & H5 & T4 & T5).
  unfold MockRoute.mockResult. rewrite T4, T5.
  unfold MockRoute.addVariance, MockRoute.Math_random, Oracle.bind,
    Oracle.ret, Oracle.next. cbn [fst snd].
  exists fx. cbn [provider ttft_ms tokens_per_second total_latency_ms
                  token_count time_to_100_tokens_ms throughput_first_100
                  error].
  pose proof (random_range n) as [? ?].
  pose proof (random_range (S n)) as [? ?].
  pose proof (random_range (S (S n))) as [? ?].
  pose proof (random_range (S (S (S n)))) as [? ?].
  pose proof (random_range (S (S (S (S n))))) as [? ?].
  pose proof (random_range (S (S (S (S (S n)))))) as [? ?].
  split; [exact Hfx|].
  split; [apply varied_band; try assumption; discriminate|].
  split; [apply varied_band; try assumption; discriminate|].
  split; [apply varied_band; try assumption; discriminate|].
  split.
  { pose proof (@token_jitter_range (random (S (S (S n))))) as Hj.
    specialize (Hj ltac:(assumption) ltac:(assumption)). lia. }
  split; [eexists; split; [reflexivity|];
          apply varied_band; try assumption; discriminate|].
  split; [eexists; split; [reflexivity|];
          apply varied_band; try assumption; discriminate|].
  reflexivity.
Qed.

Lemma mockLoop_near (ids : list jsstring) :
  forall n,
    Forall (fun e => forall r, e = MockRoute.Measured r -> near_fixture r)
      (fst (MockRoute.mockLoop random ids n)).
Proof.
  induction ids as [|id ids' IH]; intro n; [constructor|].
  cbn [MockRoute.mockLoop].
  destruct (member_get MockRoute.MOCK_BENCHMARKS id) as [fx| |] eqn:Hget;
    [| |apply IH].
  - apply member_get_own in Hget.
    unfold Oracle.bind, Oracle.ret.
    destruct (MockRoute.simulateLatency random
                MockRoute.MOCK_SETTINGS.SIMULATED_LATENCY_MIN_MS
                MockRoute.MOCK_SETTINGS.SIMULATED_LATENCY_MAX_MS n) as [d n1].
    pose proof (@mockResult_near id fx n1 Hget) as Hr.
    destruct (MockRoute.mockResult random id fx n1) as [r n2].
    specialize (IH n2).
    destruct (MockRoute.mockLoop random ids' n2) as [rs n3].
    cbn [fst] in *. constructor; [|assumption].
    intros r' E. injection E as <-. exact Hr.
  - unfold Oracle.bind, Oracle.ret.
    destruct (MockRoute.simulateLatency random
                MockRoute.MOCK_SETTINGS.SIMULATED_LATENCY_MIN_MS
                MockRoute.MOCK_SETTINGS.SIMULATED_LATENCY_MAX_MS n) as [d n1].
    unfold MockRoute.nanResult, MockRoute.Math_random, Oracle.bind,
      Oracle.ret, Oracle.next. cbn [fst snd].
    specialize (IH (S (S (S (S n1))))).
    destruct (MockRoute.mockLoop random ids' (S (S (S (S n1))))) as [rs n3].
    cbn [fst] in *. constructor; [|assumption].
    intros r' E. discriminate E.
Qed.

(** X10. The mock route answers a readable request with status 200 and the
    mock flag set. Every result built from a fixture carries no error and
    lies, field by field, within the configured variance of the fixture of
    its provider, the token count within ten tokens of it. An entry
    without numbers comes only from a requested name that objects inherit
    from [Object.prototype], and bears the model [unknown]. When no such
    name is requested, every entry is a result built from a fixture, and
    the results come in ascending order of time to first token. *)
Theorem mock_route_results (body : MockRoute.request_body) (n : nat) :
  exists entries,
    fst (MockRoute.POST random (Normal body) n)
    = MockRoute.Status200 entries true
    /\ (forall r, In (MockRoute.Measured r) entries -> near_fixture r)
    /\ (forall p m, In (MockRoute.NotANumber p m) entries ->
          inherited p = true /\ m = str "unknown"
          /\ In p (MockRoute.selectProviders (MockRoute.requested body)))
    /\ (Forall (fun id => inherited id = false)
          (MockRoute.selectProviders (MockRoute.requested body)) ->
        exists results,
          entries = List.map MockRoute.Measured results
          /\ Forall near_fixture results
          /\ StronglySorted (fun a b => ttft_ms a <= ttft_ms b) results).
Proof.
  cbn [MockRoute.POST]. unfold Oracle.bind, Oracle.ret.
  set (ids := MockRoute.selectProviders (MockRoute.requested body)).
  pose proof (@mockLoop_near ids n) as Hnear.
  destruct (@mockLoop_providers random ids n) as [Hprov Htab].
  pose proof (@mockLoop_measured random ids) as Hmeas.
  destruct (MockRoute.mockLoop random ids n) as [es n1] eqn:Hloop.
  cbn [fst] in *. eexists. split; [reflexivity|].
  split; [|split].
  - intros r Hin.
    eapply Permutation_in in Hin; [|apply Array_sort_perm].
    rewrite Forall_forall in Hnear. exact (Hnear _ Hin r eq_refl).
  - intros p m Hin.
    eapply Permutation_in in Hin; [|apply Array_sort_perm].
    rewrite Forall_forall in Htab.
    destruct (Htab _ Hin) as (H1 & _ & H3).
    split; [exact H1|]. split; [exact H3|].
    assert (Hp : In p (filter answered ids)).
    { rewrite <- Hprov.
      change p with (MockRoute.providerOf (MockRoute.NotANumber p m)).
      apply in_map. exact Hin. }
    apply filter_In in Hp. exact (proj1 Hp).
  - intro Hno. destruct (Hmeas Hno n) as (rs & Hrs & _).
    rewrite Hloop in Hrs. cbn [fst] in Hrs. subst es.
    exists (Array_sort (fun a b => ttft_ms a - ttft_ms b) rs).
    split; [apply Array_sort_map; reflexivity|].
    assert (Hall : Forall near_fixture rs).
    { rewrite Forall_forall in Hnear. apply Forall_forall. intros r Hr.
      apply (Hnear (MockRoute.Measured r)); [|reflexivity].
      apply in_map. exact Hr. }
    split.
    + eapply Permutation_Forall;
        [apply Permutation_sym, Array_sort_perm | exact Hall].
    + pose proof (@Array_sort_sorted BenchmarkResult
                    (fun a b => ttft_ms a - ttft_ms b)) as Hs.
      assert (Hsorted :
        StronglySorted (fun a b => ttft_ms a - ttft_ms b <= 0)
          (Array_sort (fun a b => ttft_ms a - ttft_ms b) rs)).
      { apply Hs.
        - intros a b H. lra.
        - intros a b c Hab Hbc. lra. }
      clear Hs. induction Hsorted as [|x l Hs IH Hl]; constructor.
      * exact IH.
      * eapply Forall_impl; [|exact Hl]. cbn. intros a H. lra.
Qed.

End MockFacts.

Lemma addVariance_band_witness :
  within_band 52 15 (fst (MockRoute.addVariance (fun _ => 1 # 2) 52 15 0%nat))
  /\ snd (MockRoute.addVariance (fun _ => 1 # 2) 52 15 0%nat) = 1%nat
  /\ 100 <= fst (MockRoute.simulateLatency (fun _ => 1 # 2) 100 300 0%nat)
  /\ fst (MockRoute.simulateLatency (fun _ => 1 # 2) 100 300 0%nat) <= 300
  /\ snd (MockRoute.simulateLatency (fun _ => 1 # 2) 100 300 0%nat) = 1%nat.
Proof.
  apply (@addVariance_band (fun _ => 1 # 2)).
  - intro i. split; discriminate || reflexivity.
  - discriminate.
  - discriminate.
  - discriminate.
Defined.

Lemma mock_route_results_witness :
  exists results,
    fst (MockRoute.POST (fun _ => 1 # 2)
           (Normal (MockRoute.mkBody (Some [str "groq"; str "cerebras"])))
           0%nat)
    = MockRoute.Status200 (List.map MockRoute.Measured results) true
    /\ Forall near_fixture results
    /\ StronglySorted (fun a b => ttft_ms a <= ttft_ms b) results.
Proof.
  assert (Hrange : unit_range (fun _ : nat => 1 # 2))
    by (intro i; split; discriminate || reflexivity).
  destruct (@mock_route_results (fun _ => 1 # 2) Hrange
              (MockRoute.mkBody (Some [str "groq"; str "cerebras"])) 0%nat)
    as (entries & Hpost & _ & _ & Hsorted).
  destruct Hsorted as (results & E & Hnear & Hs).
  - repeat constructor.
  - exists results. rewrite <- E. split; [exact Hpost|].
    split; [exact Hnear | exact Hs].
Defined.

(** ** What the events of the agent race report *)

Section AgentRaceReports.

Import AgentRaceRoute.

Variable clock : nat -> Q.
Variable callProvider : nat -> jsstring -> jsstring -> Z -> call_outcome.
Variable provider0 company : jsstring.

Lemma outputPreview_length (content : jsstring) :
  (List.length (outputPreview content)
   <= AGENT_RACE_CONFIG.OUTPUT_PREVIEW_LENGTH + 3)%nat.
Proof.
  unfold outputPreview.
  destruct (AGENT_RACE_CONFIG.OUTPUT_PREVIEW_LENGTH <? List.length content)%nat
    eqn:E.
  - rewrite length_app, length_firstn. cbn [List.length str]. 
    change (List.length (str "...")) with 3%nat. lia.
  - apply Nat.ltb_ge in E. lia.
Qed.

Lemma sumZ_nonneg (l : list Z) :
  Forall (fun x => (0 <= x)%Z) l -> (0 <= sumZ l)%Z.
Proof.
  induction 1 as [|x l Hx Hl IH]; unfold sumZ in *; cbn [fold_right]; lia.
Qed.

Lemma named_from_shift (names : list jsstring) (name : jsstring) (i : nat)
  (a : action) :
  named_from names (S i) a -> named_from (name :: names) i a.
Proof.
  destruct a as [[k nm|k nm l p|k nm msg|t e]|]; cbn; try exact (fun H => H);
    intros (j & -> & Hj); exists (S j); (split; [f_equal; lia | exact Hj]).
Qed.

Lemma runSteps_reports (steps : list step) :
  forall i prev total n acts total' err,
    fst (runSteps clock callProvider provider0 company steps i prev total n)
    = (acts, total', err) ->
    total' = (total + sumZ (List.flat_map latencyOf acts))%Z
    /\ err = existsb is_error_event acts
    /\ Forall (named_from (List.map step_name steps) i) acts
    /\ Forall (fun p => (List.length p
                         <= AGENT_RACE_CONFIG.OUTPUT_PREVIEW_LENGTH + 3)%nat)
         (List.flat_map previewOf acts)
    /\ (monotone_clock clock ->
        Forall (fun l => (0 <= l)%Z) (List.flat_map latencyOf acts)).
Proof.
  induction steps as [|s rest IH]; intros i prev total n acts total' err Hrun.
  - cbn in Hrun. inversion Hrun; subst. cbn.
    split; [lia|]. split; [reflexivity|]. repeat split; constructor.
  - cbn [runSteps] in Hrun.
    unfold Oracle.bind, Oracle.ret, now, Oracle.next in Hrun.
    cbn [fst snd] in Hrun.
    destruct (callProvider i provider0 _ _) as [c|e].
    + specialize (IH (S i) c
                    (total + Math_round (clock (S n) - clock n))%Z (S (S n))).
      destruct (runSteps clock callProvider provider0 company rest (S i) c
                  (total + Math_round (clock (S n) - clock n))%Z (S (S n)))
        as [[[acts0 t0] e0] n0].
      cbn [fst] in Hrun, IH. inversion Hrun; subst. clear Hrun.
      destruct (IH acts0 total' err eq_refl) as (Ht & He & Hn & Hp & Hm).
      split; [|split; [|split; [|split]]].
      * cbn [List.flat_map latencyOf app sumZ fold_right].
        fold (sumZ (List.flat_map latencyOf acts0)). lia.
      * cbn [existsb is_error_event tag_of orb]. exact He.
      * cbn [List.map].
        constructor;
          [exists 0%nat; split; [f_equal; lia | reflexivity]|].
        constructor;
          [exists 0%nat; split; [f_equal; lia | reflexivity]|].
        eapply Forall_impl; [|exact Hn].
        intros a Ha. apply named_from_shift. exact Ha.
      * cbn [List.flat_map previewOf app].
        constructor; [apply outputPreview_length | exact Hp].
      * intro Hmono. cbn [List.flat_map latencyOf app].
        constructor; [|apply Hm; exact Hmono].
        pose proof (Hmono n (S n) (Nat.le_succ_diag_r n)) as Hle.
        assert (Hq : 0 <= inject_Z (Math_round (clock (S n) - clock n)))
          by (apply Math_round_nonneg; lra).
        change 0 with (inject_Z 0) in Hq. rewrite <- Zle_Qle in Hq. exact Hq.
    + cbn [fst] in Hrun. inversion Hrun; subst. clear Hrun.
      split; [cbn; lia|]. split; [reflexivity|].
      split; [|split; [repeat constructor|intros _; constructor]].
      cbn [List.map].
      constructor;
        [exists 0%nat; split; [f_equal; lia | reflexivity]|].
      constructor;
        [exists 0%nat; split; [f_equal; lia | reflexivity]|].
      constructor.
Qed.

(** X11. Every run of the agent race sends its step events, then one terminal
    event, then closes. The total latency of the terminal event is the sum
    of the latencies that the complete events report; its error flag is
    set exactly when a step reported an error; every step event carries
    the number and the name of one of the five configured steps; every
    preview has at most 153 code units. When the clock readings never go
    back, no latency and no total is negative. *)
Theorem agent_race_reports (n : nat) :
  exists body total err,
    fst (start clock callProvider provider0 company n)
    = body ++ [Enqueue (StreamComplete total err); Close]
    /\ total = sumZ (List.flat_map latencyOf body)
    /\ err = existsb is_error_event body
    /\ Forall (named_from [str "Research"; str "Summarize"; str "Draft";
                           str "Critique"; str "Revise"] 0) body
    /\ Forall (fun p => (List.length p <= 153)%nat)
         (List.flat_map previewOf body)
    /\ (monotone_clock clock ->
        Forall (fun l => (0 <= l)%Z) (List.flat_map latencyOf body)
        /\ (0 <= total)%Z).
Proof.
  unfold start, Oracle.bind, Oracle.ret.
  pose proof (@runSteps_reports STEPS 0%nat company 0%Z n) as H.
  destruct (runSteps clock callProvider provider0 company STEPS 0 company 0 n)
    as [[[body total] err] n'].
  cbn [fst] in *.
  destruct (H body total err eq_refl) as (Ht & He & Hn & Hp & Hm).
  exists body, total, err. split; [reflexivity|].
  split; [lia|]. split; [exact He|]. split; [exact Hn|]. split; [exact Hp|].
  intro Hmono. specialize (Hm Hmono). split; [exact Hm|].
  rewrite Ht. pose proof (sumZ_nonneg Hm). lia.
Qed.

(** X12. The agent race starts only for a request that names one of the three
    providers and a non-empty company: an unreadable body gives status
    500; a provider that is absent, empty or not one of cerebras, groq
    and fireworks gives status 400 with the provider message, whatever
    the company is; otherwise an absent or empty company gives status 400
    with the company message. None of the refusals reads the clock or
    calls a provider, and every other request is answered with the event
    stream of [start]. *)
Theorem agent_race_validation (body : completion request_body) (n : nat) :
  let accepted :=
    match body with
    | Normal (mkBody (Some p) (Some c)) =>
        knownProvider p && truthy_str c
    | _ => false
    end in
  (forall p, knownProvider p = true <->
             In p [str "cerebras"; str "groq"; str "fireworks"])
  /\ (accepted = true ->
      exists p c,
        body = Normal (mkBody (Some p) (Some c))
        /\ fst (POST clock callProvider body n)
           = EventStream (fst (start clock callProvider p c n)))
  /\ (accepted = false ->
      snd (POST clock callProvider body n) = n
      /\ match body with
         | Throw e =>
             fst (POST clock callProvider body n)
             = Status500 (errorMessage (str "Unknown error") e)
         | Normal b =>
             fst (POST clock callProvider body n)
             = Status400
                 (match req_provider b with
                  | Some p =>
                      if knownProvider p then str "company is required"
                      else str "Invalid provider. Must be cerebras, groq, or fireworks"
                  | None =>
                      str "Invalid provider. Must be cerebras, groq, or fireworks"
                  end)
         end).
Proof.
  intro accepted. split; [|split].
  - intro p. unfold knownProvider. rewrite existsb_exists. split.
    + intros (x & Hin & Heq). apply jsstring_eqb_eq in Heq. subst x. exact Hin.
    + intro Hin. exists p. split; [exact Hin | apply jsstring_eqb_refl].
  - intro Hacc. unfold accepted in Hacc.
    destruct body as [[[p|] [c|]]|e]; try discriminate.
    apply andb_true_iff in Hacc. destruct Hacc as [Hk Hc].
    exists p, c. split; [reflexivity|].
    assert (Hp : truthy_str p = true).
    { destruct p; [discriminate Hk | reflexivity]. }
    unfold POST. cbn [req_provider req_company].
    rewrite Hp, Hk, Hc. cbn [negb orb].
    unfold Oracle.bind, Oracle.ret.
    destruct (start clock callProvider p c n). reflexivity.
  - intro Hacc. unfold accepted in Hacc.
    destruct body as [[[p|] oc]|e]; [| split; reflexivity | split; reflexivity].
    unfold POST. cbn [req_provider req_company].
    destruct (knownProvider p) eqn:Hk.
    + assert (Hp : truthy_str p = true).
      { destruct p; [discriminate Hk | reflexivity]. }
      rewrite Hp. cbn [negb orb].
      destruct oc as [c|]; [|split; reflexivity].
      cbn [andb] in Hacc. rewrite Hacc. cbn [negb]. split; reflexivity.
    + rewrite orb_true_r. split; reflexivity.
Qed.

End AgentRaceReports.

(** ** The Fireworks and Cerebras handlers as instances of the provider route *)

Section ConcreteRoutes.

Variable clock : nat -> Q.
Variable env : environment.
Variable ToString : value -> jsstring.

Lemma fireworks_consume (contents : list value) :
  forall m n,
    Forall is_text contents ->
    Forall (fun v => truthy v = true) contents ->
    FireworksRoute.consume clock ToString m contents n
    = ProviderRoute.driveStream clock m (List.map textOf contents) n.
Proof.
  induction contents as [|v rest IH]; intros m n Htext Htruthy; [reflexivity|].
  inversion Htext as [|? ? [s ->] Hrest]; subst.
  inversion Htruthy as [|? ? Hs Htr]; subst.
  cbn [FireworksRoute.consume List.map textOf ProviderRoute.driveStream
       appended].
  cbn [truthy] in Hs. rewrite Hs.
  unfold Oracle.bind.
  destruct (updateMetrics clock m s n) as [m' n'].
  apply IH; assumption.
Qed.

Lemma contentOf_truthy (lines : list jsstring) :
  Forall (fun v => truthy v = true) (flat_map StreamReader.contentOf lines).
Proof.
  apply Forall_forall. intros v Hv. apply in_flat_map in Hv.
  destruct Hv as (line & _ & Hc).
  apply contentOf_in in Hc. tauto.
Qed.

Lemma yielded_events (ys : list value) :
  FireworksRoute.yielded
    (List.map StreamReader.Yielded ys ++ [StreamReader.Released]) = ys.
Proof.
  induction ys as [|y ys IH]; [reflexivity|].
  cbn [List.map app FireworksRoute.yielded flat_map] in *.
  f_equal. exact IH.
Qed.

(** X13. The Fireworks handler is the provider route run on what its transport
    delivers. For a request with a prompt: without a credential no request
    is sent and the route fails with the exception of [getRequiredApiKey];
    otherwise one request is sent, to the configured endpoint with the
    bearer credential, the configured model, the prompt, the token limit
    (256 when none is given) and streaming on. A rejected fetch, a
    status outside 2xx (with the API error of [createApiError], or the
    exception of reading the error text) and a response without a body
    fail the route; for a response with a body the route runs on the
    contents of the lines of the body, all of them when the reads end,
    those of the complete lines when a read rejects, which also fails
    the route. *)
Theorem fireworks_route_cases
  (fetch : FireworksRoute.fetch_request -> FireworksRoute.fetch_outcome)
  (b : ProviderRoute.request_body) (p : jsstring) (n : nat) :
  ProviderRoute.prompt b = Some p ->
  truthy_str p = true ->
  let post := fst (FireworksRoute.POST clock env fetch ToString (Normal b) n) in
  let generic := fun chunks ending =>
    fst (ProviderRoute.POST clock (str "fireworks")
           (providerConfig (str "fireworks")) (Normal b) chunks ending n) in
  match getRequiredApiKey env (str "FIREWORKS_API_KEY") with
  | Throw e => post = (generic [] (ProviderRoute.StreamThrows e), [])
  | Normal apiKey =>
      let sent :=
        FireworksRoute.mkRequest
          (str "https://api.fireworks.ai/inference/v1/chat/completions")
          (str "Bearer " ++ apiKey)
          (str "accounts/fireworks/models/llama-v3p3-70b-instruct") p
          (match ProviderRoute.max_tokens b with
           | Some m => if truthy_num m then m else 256
           | None => 256
           end)
          true in
      snd post = [sent]
      /\ match fetch sent with
         | FireworksRoute.FetchRejects e =>
             fst post = generic [] (ProviderRoute.StreamThrows e)
         | FireworksRoute.FetchResolves r =>
             if FireworksRoute.ok r then
               match FireworksRoute.body r with
               | None =>
                   fst post
                   = generic []
                       (ProviderRoute.StreamThrows
                          (ThrownError (str "No response body")))
               | Some (pieces, StreamReader.ReadDone) =>
                   let contents :=
                     flat_map StreamReader.contentOf
                       (StreamReader.split StreamReader.line_feed
                          (List.concat pieces)) in
                   Forall is_text contents ->
                   fst post
                   = generic (List.map textOf contents)
                       ProviderRoute.StreamDone
               | Some (pieces, StreamReader.ReadRejects e) =>
                   let contents :=
                     flat_map StreamReader.contentOf
                       (removelast
                          (StreamReader.split StreamReader.line_feed
                             (List.concat pieces))) in
                   Forall is_text contents ->
                   fst post
                   = generic (List.map textOf contents)
                       (ProviderRoute.StreamThrows e)
               end
             else
               match FireworksRoute.text r with
               | Throw e =>
                   fst post = generic [] (ProviderRoute.StreamThrows e)
               | Normal errorText =>
                   fst post
                   = generic []
                       (ProviderRoute.StreamThrows
                          (createApiError (str "Fireworks")
                             (FireworksRoute.status r) errorText))
               end
         end
  end.
Proof.
  intros Hp Ht post generic. unfold post, generic.
  unfold FireworksRoute.POST, ProviderRoute.POST.
  unfold createStreamMetrics, now, Oracle.next, Oracle.bind, Oracle.ret.
  cbn [fst snd]. rewrite Hp. cbn [truthy_opt]. rewrite Ht. cbn [negb].
  cbn [ProviderRoute.driveStream].
  destruct (getRequiredApiKey env (str "FIREWORKS_API_KEY")) as [apiKey|e];
    [|reflexivity].
  cbv zeta.
  change (pc_endpoint (providerConfig (str "fireworks")))
    with (str "https://api.fireworks.ai/inference/v1/chat/completions").
  change (pc_model (providerConfig (str "fireworks")))
    with (str "accounts/fireworks/models/llama-v3p3-70b-instruct").
  change (inject_Z DEFAULTS.MAX_TOKENS) with 256.
  set (sent := FireworksRoute.mkRequest _ _ _ _ _ _).
  destruct (fetch sent) as [e|r]; [split; reflexivity|].
  destruct (FireworksRoute.ok r); cbn [negb].
  - destruct (FireworksRoute.body r) as [[pieces ending]|];
      [|split; reflexivity].
    cbn [StreamReader.createStreamReader].
    destruct ending as [|e].
    + rewrite tryBlock_done. rewrite yielded_events.
      split.
      * destruct (FireworksRoute.consume clock ToString _ _ _). reflexivity.
      * intros Htext.
        rewrite fireworks_consume;
          [|exact Htext|apply contentOf_truthy].
        destruct (ProviderRoute.driveStream clock _ _ _). reflexivity.
    + rewrite tryBlock_rejects. rewrite yielded_events.
      split.
      * destruct (FireworksRoute.consume clock ToString _ _ _). reflexivity.
      * intros Htext.
        rewrite fireworks_consume;
          [|exact Htext|apply contentOf_truthy].
        destruct (ProviderRoute.driveStream clock _ _ _). reflexivity.
  - destruct (FireworksRoute.text r); split; reflexivity.
Qed.

Lemma cerebras_consume (chunks : list value) :
  forall m n,
    Forall well_typed_chunk chunks ->
    CerebrasRoute.consume clock ToString m chunks n
    = ((fst (ProviderRoute.driveStream clock m (List.map chunkText chunks) n),
        None),
       snd (ProviderRoute.driveStream clock m (List.map chunkText chunks) n)).
Proof.
  induction chunks as [|chunk rest IH]; intros m n Hall; [reflexivity|].
  inversion Hall as [|? ? (content & Hc & Htyped) Hrest]; subst.
  cbn [CerebrasRoute.consume List.map ProviderRoute.driveStream].
  assert (Hct : chunkText chunk
                = match content with Some v => textOf v | None => None end)
    by (unfold chunkText; rewrite Hc; destruct content; reflexivity).
  rewrite Hc, Hct.
  destruct content as [v|]; [|apply IH; exact Hrest].
  destruct (truthy v) eqn:Hv.
  - destruct (Htyped v eq_refl Hv) as [s ->].
    cbn [textOf appended]. cbn [truthy] in Hv. rewrite Hv.
    unfold Oracle.bind. destruct (updateMetrics clock m s n) as [m' n'].
    apply IH; exact Hrest.
  - destruct v as [|bv|q|s|items|members]; cbn [textOf];
      try (apply IH; exact Hrest).
    cbn [truthy] in Hv. rewrite Hv. apply IH; exact Hrest.
Qed.

Lemma cerebras_consume_null (pre rest : list value) :
  forall m n,
    Forall well_typed_chunk pre ->
    CerebrasRoute.consume clock ToString m (pre ++ JNull :: rest) n
    = ((fst (ProviderRoute.driveStream clock m (List.map chunkText pre) n),
        Some (ThrownError (str "Cannot read properties of null"))),
       snd (ProviderRoute.driveStream clock m (List.map chunkText pre) n)).
Proof.
  induction pre as [|chunk pre' IH]; intros m n Hall; [reflexivity|].
  inversion Hall as [|? ? (content & Hc & Htyped) Hrest]; subst.
  cbn [app CerebrasRoute.consume List.map ProviderRoute.driveStream].
  assert (Hct : chunkText chunk
                = match content with Some v => textOf v | None => None end)
    by (unfold chunkText; rewrite Hc; destruct content; reflexivity).
  rewrite Hc, Hct.
  destruct content as [v|]; [|apply IH; exact Hrest].
  destruct (truthy v) eqn:Hv.
  - destruct (Htyped v eq_refl Hv) as [s ->].
    cbn [textOf appended]. cbn [truthy] in Hv. rewrite Hv.
    unfold Oracle.bind. destruct (updateMetrics clock m s n) as [m' n'].
    apply IH; exact Hrest.
  - destruct v as [|bv|q|s|items|members]; cbn [textOf];
      try (apply IH; exact Hrest).
    cbn [truthy] in Hv. rewrite Hv. apply IH; exact Hrest.
Qed.

(** X14. The Cerebras handler is the provider route run on the chunks of the
    SDK stream. For a request with a prompt: without a credential the SDK
    is not called and the route fails with the exception of
    [getRequiredApiKey]; otherwise [create] is called once, with the
    credential, the configured model, the prompt, the token limit (256
    when none is given) and streaming on. When [create] rejects the route
    fails; on a stream whose chunks carry text or nothing, the route runs
    on the texts of the chunks and ends as the stream ends; a chunk that
    is [null] fails the route after the chunks before it. *)
Theorem cerebras_route_cases
  (create : CerebrasRoute.sdk_request -> CerebrasRoute.sdk_outcome)
  (b : ProviderRoute.request_body) (p : jsstring) (n : nat) :
  ProviderRoute.prompt b = Some p ->
  truthy_str p = true ->
  let post := fst (CerebrasRoute.POST clock env create ToString (Normal b) n) in
  let generic := fun chunks ending =>
    fst (ProviderRoute.POST clock (str "cerebras")
           (providerConfig (str "cerebras")) (Normal b) chunks ending n) in
  match getRequiredApiKey env (str "CEREBRAS_API_KEY") with
  | Throw e => post = (generic [] (ProviderRoute.StreamThrows e), [])
  | Normal apiKey =>
      let sent :=
        CerebrasRoute.mkRequest apiKey (str "llama-3.3-70b") p
          (match ProviderRoute.max_tokens b with
           | Some m => if truthy_num m then m else 256
           | None => 256
           end)
          true in
      snd post = [sent]
      /\ match create sent with
         | CerebrasRoute.CreateRejects e =>
             fst post = generic [] (ProviderRoute.StreamThrows e)
         | CerebrasRoute.Stream chunks ending =>
             (Forall well_typed_chunk chunks ->
              fst post = generic (List.map chunkText chunks) ending)
             /\ (forall pre rest,
                   chunks = pre ++ JNull :: rest ->
                   Forall well_typed_chunk pre ->
                   fst post
                   = generic (List.map chunkText pre)
                       (ProviderRoute.StreamThrows
                          (ThrownError
                             (str "Cannot read properties of null"))))
         end
  end.
Proof.
  intros Hp Ht post generic. unfold post, generic.
  unfold CerebrasRoute.POST, ProviderRoute.POST.
  unfold createStreamMetrics, now, Oracle.next, Oracle.bind, Oracle.ret.
  cbn [fst snd]. rewrite Hp. cbn [truthy_opt]. rewrite Ht. cbn [negb].
  destruct (getRequiredApiKey env (str "CEREBRAS_API_KEY")) as [apiKey|e];
    [|reflexivity].
  cbv zeta.
  change (pc_model (providerConfig (str "cerebras")))
    with (str "llama-3.3-70b").
  change (inject_Z DEFAULTS.MAX_TOKENS) with 256.
  set (sent := CerebrasRoute.mkRequest _ _ _ _ _).
  destruct (create sent) as [e|chunks ending]; [split; reflexivity|].
  split.
  - destruct (CerebrasRoute.consume clock ToString _ chunks _)
      as [[m [e|]] n']; [reflexivity|].
    destruct ending; reflexivity.
  - split.
    + intro Hall. rewrite (cerebras_consume _ _ Hall).
      destruct (ProviderRoute.driveStream clock _ _ _) as [m n'].
      cbn [fst snd]. destruct ending; reflexivity.
    + intros pre rest -> Hall. rewrite (cerebras_consume_null rest _ _ Hall).
      destruct (ProviderRoute.driveStream clock _ _ _) as [m n'].
      reflexivity.
Qed.

End ConcreteRoutes.

(** A response of one read that carries one content line and the end
    marker. *)
Lemma fireworks_route_cases_witness :
  let env := fun _ : jsstring => Some (str "secret") in
  let line := str "data: {'choices':[{'delta':{'content':'Hi'}}]}" in
  let text := List.map (fun c => if (c =? 39)%N then 34%N else c) line
              ++ [10%N] ++ str "data: [DONE]" in
  let fetch := fun _ : FireworksRoute.fetch_request =>
    FireworksRoute.FetchResolves
      (FireworksRoute.mkResponse true 200 (Normal [])
         (Some ([text], StreamReader.ReadDone))) in
  let b := ProviderRoute.mkBody (Some (str "hello")) None in
  fst (fst (FireworksRoute.POST (fun i => inject_Z (Z.of_nat i)) env fetch
              (fun _ => []) (Normal b) 0%nat))
  = fst (ProviderRoute.POST (fun i => inject_Z (Z.of_nat i)) (str "fireworks")
           (providerConfig (str "fireworks")) (Normal b) [Some (str "Hi")]
           ProviderRoute.StreamDone 0%nat).
Proof.
  intros env line text fetch b.
  pose proof (@fireworks_route_cases (fun i => inject_Z (Z.of_nat i)) env
                (fun _ => []) fetch b (str "hello") 0%nat eq_refl eq_refl)
    as H.
  cbv zeta in H. destruct H as [_ H].
  apply H. repeat constructor. exists (str "Hi"). reflexivity.
Defined.

(** A stream of one chunk that carries text. *)
Lemma cerebras_route_cases_witness :
  let env := fun _ : jsstring => Some (str "secret") in
  let chunk :=
    JObject [(str "choices",
              JArray [JObject [(str "delta",
                                JObject [(str "content",
                                          JString (str "Hi"))])]])] in
  let create := fun _ : CerebrasRoute.sdk_request =>
    CerebrasRoute.Stream [chunk] ProviderRoute.StreamDone in
  let b := ProviderRoute.mkBody (Some (str "hello")) None in
  fst (fst (CerebrasRoute.POST (fun i => inject_Z (Z.of_nat i)) env create
              (fun _ => []) (Normal b) 0%nat))
  = fst (ProviderRoute.POST (fun i => inject_Z (Z.of_nat i)) (str "cerebras")
           (providerConfig (str "cerebras")) (Normal b) [Some (str "Hi")]
           ProviderRoute.StreamDone 0%nat).
Proof.
  intros env chunk create b.
  pose proof (@cerebras_route_cases (fun i => inject_Z (Z.of_nat i)) env
                (fun _ => []) create b (str "hello") 0%nat eq_refl eq_refl)
    as H.
  cbv zeta in H. destruct H as [_ [H _]].
  apply H. constructor; [|constructor].
  exists (Some (JString (str "Hi"))). split; [reflexivity|].
  intros v Hv _. injection Hv as <-. exists (str "Hi"). reflexivity.
Defined.

(** ** The provider calls of the agent race *)

Section AgentRaceCalls.

Variable env : environment.
Variable create : AgentRaceCall.sdk_request -> AgentRaceCall.sdk_outcome.
Variable fetch : AgentRaceCall.fetch_request -> AgentRaceCall.fetch_outcome.

Lemma getRequiredApiKey_missing (envVar : jsstring) :
  env envVar = None \/ env envVar = Some [] ->
  getRequiredApiKey env envVar
  = Throw (ThrownError (envVar ++ str " not configured")).
Proof.
  unfold getRequiredApiKey. intros [-> | ->]; reflexivity.
Qed.

Lemma getRequiredApiKey_returns (envVar apiKey : jsstring) :
  getRequiredApiKey env envVar = Normal apiKey ->
  env envVar = Some apiKey /\ truthy_str apiKey = true.
Proof.
  unfold getRequiredApiKey. destruct (env envVar) as [k|]; [|discriminate].
  destruct (truthy_str k) eqn:E; [|discriminate].
  intro H. injection H as <-. split; [reflexivity | exact E].
Qed.

Lemma callProvider_missing_credential (provider prompt : jsstring)
  (maxTokens : Z) :
  env (credentialOf provider) = None \/ env (credentialOf provider) = Some [] ->
  AgentRaceCall.callProvider env create fetch provider prompt maxTokens
  = Throw (ThrownError (credentialOf provider ++ str " not configured")).
Proof.
  intro Hmissing. unfold AgentRaceCall.callProvider.
  unfold credentialOf in *.
  destruct (jsstring_eqb provider (str "cerebras")).
  - rewrite (@getRequiredApiKey_missing _ Hmissing). reflexivity.
  - cbv zeta.
    destruct (jsstring_eqb provider (str "fireworks"));
      rewrite (@getRequiredApiKey_missing _ Hmissing); reflexivity.
Qed.

Lemma messageContent_present (choices : option value) (v : value) :
  AgentRaceCall.messageContent choices = Normal v ->
  truthy v = true \/ v = JString [].
Proof.
  unfold AgentRaceCall.messageContent.
  destruct (opt_chain choices get_index0) as [first|]; [|discriminate].
  destruct (opt_chain first _) as [message|]; [|discriminate].
  destruct (opt_chain message _) as [[c|]|]; [| |discriminate].
  - destruct (truthy c) eqn:E; intro H; injection H as <-; auto.
  - intro H; injection H as <-; auto.
Qed.

(** X15. The outcomes of [callProvider]. Without the credential of the
    provider (CEREBRAS_API_KEY for cerebras, FIREWORKS_API_KEY for
    fireworks, GROQ_API_KEY otherwise), absent or empty, it rejects with
    [<variable> not configured] whatever the provider would answer. For
    groq and fireworks a status outside 2xx is rejected with
    [<provider> API error: <status> - <text>]. A content that it resolves
    to is never missing: it is the content of the first choice when that
    is truthy and the empty string otherwise, so for an answer without
    choices it is the empty string. *)
Theorem callProvider_outcomes (provider prompt : jsstring) (maxTokens : Z) :
  let call :=
    AgentRaceCall.callProvider env create fetch provider prompt maxTokens in
  (env (credentialOf provider) = None
   \/ env (credentialOf provider) = Some [] ->
   call = Throw (ThrownError (credentialOf provider ++ str " not configured")))
  /\ (forall apiKey cfg r errorText,
        provider <> str "cerebras" ->
        getRequiredApiKey env (credentialOf provider) = Normal apiKey ->
        record_get providers provider = Some cfg ->
        fetch (AgentRaceCall.mkRequest (pc_endpoint cfg)
                 (str "Bearer " ++ apiKey) (pc_model cfg) prompt maxTokens)
        = AgentRaceCall.FetchResolves r ->
        AgentRaceCall.ok r = false ->
        AgentRaceCall.text r = Normal errorText ->
        call = Throw (ThrownError
                        (provider ++ str " API error: "
                         ++ Number_toString (AgentRaceCall.status r)
                         ++ str " - " ++ errorText)))
  /\ (forall v, call = Normal v -> truthy v = true \/ v = JString [])
  /\ (forall apiKey cfg r members,
        provider <> str "cerebras" ->
        getRequiredApiKey env (credentialOf provider) = Normal apiKey ->
        record_get providers provider = Some cfg ->
        fetch (AgentRaceCall.mkRequest (pc_endpoint cfg)
                 (str "Bearer " ++ apiKey) (pc_model cfg) prompt maxTokens)
        = AgentRaceCall.FetchResolves r ->
        AgentRaceCall.ok r = true ->
        AgentRaceCall.json r = Normal (JObject members) ->
        lookup (str "choices") members = None ->
        call = Normal (JString [])).
Proof.
  intro call. split; [apply callProvider_missing_credential|].
  assert (Hother : provider <> str "cerebras" ->
            jsstring_eqb provider (str "cerebras") = false).
  { intro Hne. destruct (jsstring_eqb provider (str "cerebras")) eqn:E;
      [|reflexivity].
    apply jsstring_eqb_eq in E. contradiction. }
  split; [|split].
  - intros apiKey cfg r errorText Hne Hkey Hcfg Hfetch Hok Htext.
    unfold call, AgentRaceCall.callProvider.
    unfold credentialOf in Hkey. rewrite (Hother Hne) in *.
    cbv zeta. rewrite Hkey, Hcfg, Hfetch, Hok. cbn [negb].
    rewrite Htext. reflexivity.
  - intros v. unfold call, AgentRaceCall.callProvider.
    destruct (jsstring_eqb provider (str "cerebras")).
    + destruct (getRequiredApiKey env _) as [k|]; [|discriminate].
      destruct (create _) as [e|response]; [discriminate|].
      destruct (get_prop response _) as [choices|]; [|discriminate].
      apply messageContent_present.
    + cbv zeta.
      destruct (getRequiredApiKey env _) as [k|]; [|discriminate].
      destruct (record_get providers provider) as [cfg|]; [|discriminate].
      destruct (fetch _) as [e|r]; [discriminate|].
      destruct (AgentRaceCall.ok r); cbn [negb].
      * destruct (AgentRaceCall.json r) as [data|]; [|discriminate].
        destruct (get_prop data _) as [choices|]; [|discriminate].
        apply messageContent_present.
      * destruct (AgentRaceCall.text r); discriminate.
  - intros apiKey cfg r members Hne Hkey Hcfg Hfetch Hok Hjson Hchoices.
    unfold call, AgentRaceCall.callProvider.
    unfold credentialOf in Hkey. rewrite (Hother Hne) in *.
    cbv zeta. rewrite Hkey, Hcfg, Hfetch, Hok. cbn [negb].
    rewrite Hjson. cbn [get_prop]. rewrite Hchoices. reflexivity.
Qed.

(** X16. A race whose provider has no credential. The handler accepts the
    request, announces the first step, reports the missing variable as
    the error of that step, and ends the stream with a total latency of
    zero and the error flag; no later step is announced. *)
Theorem agent_race_missing_credential (clock : nat -> Q)
  (callProvider : nat -> jsstring -> jsstring -> Z
                  -> AgentRaceRoute.call_outcome)
  (provider company : jsstring) (n : nat) :
  AgentRaceRoute.knownProvider provider = true ->
  truthy_str company = true ->
  env (credentialOf provider) = None
  \/ env (credentialOf provider) = Some [] ->
  rejects_alike (AgentRaceCall.callProvider env create fetch) callProvider ->
  fst (AgentRaceRoute.POST clock callProvider
         (Normal (AgentRaceRoute.mkBody (Some provider) (Some company))) n)
  = AgentRaceRoute.EventStream
      [ AgentRaceRoute.Enqueue
          (AgentRaceRoute.StepRunning 1 (str "Research"));
        AgentRaceRoute.Enqueue
          (AgentRaceRoute.StepError 1 (str "Research")
             (credentialOf provider ++ str " not configured"));
        AgentRaceRoute.Enqueue (AgentRaceRoute.StreamComplete 0 true);
        AgentRaceRoute.Close ].
Proof.
  intros Hknown Hcompany Hmissing Halike.
  assert (Hp : truthy_str provider = true).
  { destruct provider; [discriminate Hknown | reflexivity]. }
  unfold AgentRaceRoute.POST.
  cbn [AgentRaceRoute.req_provider AgentRaceRoute.req_company].
  rewrite Hp, Hknown, Hcompany. cbn [negb orb].
  unfold AgentRaceRoute.start, Oracle.bind, Oracle.ret.
  unfold AgentRaceRoute.STEPS. cbn [AgentRaceRoute.runSteps].
  unfold Oracle.bind, Oracle.ret, now, Oracle.next. cbn [fst snd Nat.eqb].
  cbn [AgentRaceRoute.step_prompt AgentRaceRoute.step_name].
  rewrite (Halike 0%nat provider _ _ _
             (@callProvider_missing_credential provider _ _ Hmissing)).
  reflexivity.
Qed.

End AgentRaceCalls.

(** The race for groq in an empty environment. *)
Lemma agent_race_missing_credential_witness :
  let env : environment := fun _ => None in
  let create := fun _ : AgentRaceCall.sdk_request =>
    AgentRaceCall.CreateRejects (ThrownError []) in
  let fetch := fun _ : AgentRaceCall.fetch_request =>
    AgentRaceCall.FetchRejects (ThrownError []) in
  let callProvider := fun (_ : nat) (provider prompt : jsstring) (mt : Z) =>
    match AgentRaceCall.callProvider env create fetch provider prompt mt with
    | Throw e => AgentRaceRoute.CallThrows e
    | Normal (JString s) => AgentRaceRoute.Content s
    | Normal _ => AgentRaceRoute.Content []
    end in
  fst (AgentRaceRoute.POST (fun _ => 0) callProvider
         (Normal (AgentRaceRoute.mkBody (Some (str "groq"))
                    (Some (str "Acme")))) 0%nat)
  = AgentRaceRoute.EventStream
      [ AgentRaceRoute.Enqueue
          (AgentRaceRoute.StepRunning 1 (str "Research"));
        AgentRaceRoute.Enqueue
          (AgentRaceRoute.StepError 1 (str "Research")
             (str "GROQ_API_KEY not configured"));
        AgentRaceRoute.Enqueue (AgentRaceRoute.StreamComplete 0 true);
        AgentRaceRoute.Close ].
Proof.
  intros env create fetch callProvider.
  apply (@agent_race_missing_credential env create fetch (fun _ => 0)
           callProvider (str "groq") (str "Acme") 0%nat).
  - reflexivity.
  - reflexivity.
  - left. reflexivity.
  - intros i provider prompt mt e H. unfold callProvider. rewrite H.
    reflexivity.
Defined.

(** ** The page: selection, request and summary *)

Section PageFacts.

Lemma includes_In (xs : list jsstring) (x : jsstring) :
  Page.includes xs x = true <-> In x xs.
Proof.
  unfold Page.includes. rewrite existsb_exists. split.
  - intros (y & Hy & E). apply jsstring_eqb_eq in E. subst y. exact Hy.
  - intro H. exists x. split; [exact H | apply jsstring_eqb_refl].
Qed.

Lemma jsstring_eqb_neq (a b : jsstring) :
  jsstring_eqb a b = false <-> a <> b.
Proof.
  split.
  - intros E H. apply jsstring_eqb_eq in H. congruence.
  - intro H. destruct (jsstring_eqb a b) eqn:E; [|reflexivity].
    apply jsstring_eqb_eq in E. contradiction.
Qed.

Lemma toggleProvider_In (id x : jsstring) (prev : list jsstring) :
  In x (Page.toggleProvider id prev)
  <-> (x = id /\ ~ In id prev) \/ (x <> id /\ In x prev).
Proof.
  unfold Page.toggleProvider.
  destruct (Page.includes prev id) eqn:E.
  - apply includes_In in E. rewrite filter_In, negb_true_iff, jsstring_eqb_neq.
    split.
    + intros [Hx Hne]. right. split; assumption.
    + intros [[-> Hn]|[Hne Hx]]; [contradiction|]. split; assumption.
  - assert (Hn : ~ In id prev).
    { intro H. apply includes_In in H. congruence. }
    rewrite in_app_iff. cbn [In]. split.
    + intros [Hx|[<-|[]]].
      * right. split; [|exact Hx]. intros ->. contradiction.
      * left. split; [reflexivity | exact Hn].
    + intros [[-> _]|[_ Hx]]; [right; left; reflexivity | left; exact Hx].
Qed.

Lemma NoDup_filter {A} (f : A -> bool) (l : list A) :
  NoDup l -> NoDup (filter f l).
Proof.
  induction 1 as [|x l Hx Hl IH]; cbn [filter]; [constructor|].
  destruct (f x); [|exact IH].
  constructor; [|exact IH]. rewrite filter_In. tauto.
Qed.

Lemma toggleProvider_NoDup (id : jsstring) (prev : list jsstring) :
  NoDup prev -> NoDup (Page.toggleProvider id prev).
Proof.
  intro H. unfold Page.toggleProvider.
  destruct (Page.includes prev id) eqn:E; [apply NoDup_filter; exact H|].
  assert (Hn : ~ In id prev).
  { intro K. apply includes_In in K. congruence. }
  apply NoDup_app; [exact H | repeat constructor; intros [] |].
  intros x Hx [<-|[]]. contradiction.
Qed.

Lemma toggles_invariant (known toggles : list jsstring) :
  forall start,
    NoDup start -> incl start known ->
    Forall (fun id => In id known) toggles ->
    NoDup (fold_left (fun selected id => Page.toggleProvider id selected)
             toggles start)
    /\ incl (fold_left (fun selected id => Page.toggleProvider id selected)
               toggles start) known.
Proof.
  induction toggles as [|id rest IH]; intros start Hnd Hincl Hall;
    [split; assumption|].
  inversion Hall as [|? ? Hid Hrest]; subst.
  cbn [fold_left]. apply IH; [| |exact Hrest].
  - apply toggleProvider_NoDup; exact Hnd.
  - intros x Hx. apply toggleProvider_In in Hx.
    destruct Hx as [[-> _]|[_ Hx]]; [exact Hid | apply Hincl; exact Hx].
Qed.

Lemma selectionAfter_invariant (toggles : list jsstring) :
  Forall (fun id => In id (Object_keys providers)) toggles ->
  NoDup (selectionAfter toggles)
  /\ incl (selectionAfter toggles) (Object_keys providers).
Proof.
  intro Hall. unfold selectionAfter.
  apply toggles_invariant; [|apply incl_refl|exact Hall].
  repeat constructor; cbn; intuition discriminate.
Qed.

(** X17. The provider buttons keep the selection a duplicate-free list of
    known providers. A toggle flips the membership of its provider and of
    no other; a provider that is added goes to the end, and removing one
    keeps the order of the rest. After any sequence of toggles from the
    initial selection of all providers, no provider is selected twice and
    every selected provider is a known one. *)
Theorem toggleProvider_selection (id : jsstring) (prev toggles : list jsstring) :
  (forall x, In x (Page.toggleProvider id prev)
             <-> (x = id /\ ~ In id prev) \/ (x <> id /\ In x prev))
  /\ (~ In id prev -> Page.toggleProvider id prev = prev ++ [id])
  /\ (In id prev ->
      Page.toggleProvider id prev
      = filter (fun p => negb (jsstring_eqb p id)) prev)
  /\ (NoDup prev -> NoDup (Page.toggleProvider id prev))
  /\ (NoDup prev -> ~ In id prev ->
      Page.toggleProvider id (Page.toggleProvider id prev) = prev)
  /\ (Forall (fun t => In t (Object_keys providers)) toggles ->
      NoDup (selectionAfter toggles)
      /\ incl (selectionAfter toggles) (Object_keys providers)).
Proof.
  split; [intro x; apply toggleProvider_In|].
  split.
  { intro Hn. unfold Page.toggleProvider.
    destruct (Page.includes prev id) eqn:E; [|reflexivity].
    apply includes_In in E. contradiction. }
  split.
  { intro Hin. unfold Page.toggleProvider.
    apply includes_In in Hin. rewrite Hin. reflexivity. }
  split; [apply toggleProvider_NoDup|].
  split; [|apply selectionAfter_invariant].
  intros Hnd Hn. unfold Page.toggleProvider at 2.
  destruct (Page.includes prev id) eqn:E;
    [apply includes_In in E; contradiction|].
  unfold Page.toggleProvider.
  assert (Hin : Page.includes (prev ++ [id]) id = true).
  { apply includes_In. apply in_or_app. right. left. reflexivity. }
  rewrite Hin. rewrite filter_app. cbn [filter].
  rewrite jsstring_eqb_refl. cbn [negb]. rewrite app_nil_r.
  clear - Hn. induction prev as [|p prev IH]; [reflexivity|].
  cbn [filter].
  assert (Hp : jsstring_eqb p id = false).
  { apply jsstring_eqb_neq. intros ->. apply Hn. left. reflexivity. }
  rewrite Hp. cbn [negb]. f_equal. apply IH.
  intro H. apply Hn. right. exact H.
Qed.

Lemma known_provider_tables (id : jsstring) :
  In id (Object_keys providers) ->
  record_get PROVIDER_ENDPOINTS id = Some (str "/api/benchmark/" ++ id)
  /\ has_fixture id = true.
Proof.
  cbn. intros [<-|[<-|[<-|[]]]]; split; reflexivity.
Qed.

Lemma known_provider_not_inherited (id : jsstring) :
  In id (Object_keys providers) -> inherited id = false.
Proof.
  cbn. intros [<-|[<-|[<-|[]]]]; reflexivity.
Qed.

Lemma runBenchmark_sends (selected : list jsstring) (prompt : jsstring)
  (demoMode : bool) (sent : Page.sent_request) :
  Page.runBenchmark selected prompt demoMode = Some sent ->
  selected <> [] /\ truthy_str (trim prompt) = true
  /\ sent = Page.mkSent
              (if demoMode then str "/api/benchmark/mock"
               else str "/api/benchmark")
              (trim prompt) 256 selected.
Proof.
  unfold Page.runBenchmark.
  destruct selected as [|p ps]; [discriminate|].
  cbn [List.length Nat.eqb orb].
  destruct (truthy_str (trim prompt)); [|discriminate].
  cbn [negb]. intro H. injection H as <-.
  split; [discriminate|]. split; reflexivity.
Qed.

Lemma ui_run_accepted (selected : list jsstring) (endpoint p : jsstring) :
  selected <> [] ->
  incl selected (Object_keys providers) ->
  truthy_str p = true ->
  let sent := Page.mkSent endpoint p 256 selected in
  (forall fetch baseUrl,
     exists results,
       BenchmarkRoute.POST fetch baseUrl (Normal (orchestratorBody sent))
       = (BenchmarkRoute.Status200 results p 256,
          List.map (fun id => baseUrl ++ str "/api/benchmark/" ++ id)
            selected)
       /\ List.length results = List.length selected)
  /\ (forall random n,
        exists results,
          fst (MockRoute.POST random (Normal (mockBody sent)) n)
          = MockRoute.Status200 (List.map MockRoute.Measured results) true
          /\ Permutation (List.map provider results) selected).
Proof.
  intros Hne Hincl Hprompt sent. unfold sent. split.
  - intros fetch baseUrl.
    exists (Array_sort compareResults
              (collectResults fetch baseUrl selected)).
    split.
    + unfold BenchmarkRoute.POST, orchestratorBody.
      cbn [BenchmarkRoute.prompt BenchmarkRoute.requested
           BenchmarkRoute.max_tokens Page.sent_prompt Page.sent_providers
           Page.sent_max_tokens].
      rewrite Hprompt.
      assert (Hsel : selectProviders (Some selected) = selected).
      { destruct selected; [contradiction | reflexivity]. }
      rewrite Hsel. f_equal.
      rewrite fetchedUrls_endpoints.
      clear - Hincl. induction selected as [|id ids IH]; [reflexivity|].
      cbn [flat_map List.map].
      destruct (@known_provider_tables id) as [-> _];
        [apply Hincl; left; reflexivity|].
      cbn [app]. f_equal. apply IH.
      intros x Hx. apply Hincl. right. exact Hx.
    + rewrite Array_sort_length, collectResults_entries.
      apply mapIndexed_length.
  - intros random n.
    cbn [MockRoute.POST mockBody Page.sent_providers MockRoute.requested].
    unfold Oracle.bind, Oracle.ret.
    assert (Hsel : MockRoute.selectProviders (Some selected) = selected).
    { destruct selected; [contradiction | reflexivity]. }
    rewrite Hsel.
    assert (Hno : Forall (fun id => inherited id = false) selected).
    { apply Forall_forall. intros id Hid.
      apply known_provider_not_inherited, Hincl, Hid. }
    destruct (@mockLoop_measured random selected Hno n) as (rs & Hrs & Hp).
    destruct (MockRoute.mockLoop random selected n) as [es n'].
    cbn [fst] in *. subst es.
    exists (Array_sort (fun a b => ttft_ms a - ttft_ms b) rs).
    split; [f_equal; apply Array_sort_map; reflexivity|].
    eapply Permutation_trans;
      [apply Permutation_map, Array_sort_perm|].
    rewrite Hp.
    assert (Hall : filter has_fixture selected = selected).
    { clear - Hincl. induction selected as [|id ids IH]; [reflexivity|].
      cbn [filter].
      destruct (@known_provider_tables id) as [_ ->];
        [apply Hincl; left; reflexivity|].
      f_equal. apply IH. intros x Hx. apply Hincl. right. exact Hx. }
    rewrite Hall. apply Permutation_refl.
Qed.

(** X18. A benchmark started from the page. [runBenchmark] sends nothing when
    no provider is selected or the prompt is blank. What it sends, for a
    selection made with the provider buttons, both handlers accept: the
    orchestrator answers 200, never 400, with the trimmed prompt, a token
    limit of 256 and one result per selected provider, after one
    sub-request to the endpoint of each selected provider, in the order of
    the selection; the mock route answers with one result per selected
    provider. *)
Theorem ui_benchmark_run (toggles : list jsstring) (prompt : jsstring)
  (demoMode : bool) (sent : Page.sent_request) :
  Forall (fun id => In id (Object_keys providers)) toggles ->
  Page.runBenchmark (selectionAfter toggles) prompt demoMode = Some sent ->
  let selected := selectionAfter toggles in
  (forall sel p d, Page.runBenchmark sel p d = None
                   <-> sel = [] \/ trim p = [])
  /\ Page.sent_providers sent = selected
  /\ Page.sent_endpoint sent
     = (if demoMode then str "/api/benchmark/mock" else str "/api/benchmark")
  /\ (forall fetch baseUrl,
        exists results,
          BenchmarkRoute.POST fetch baseUrl (Normal (orchestratorBody sent))
          = (BenchmarkRoute.Status200 results (trim prompt) 256,
             List.map (fun id => baseUrl ++ str "/api/benchmark/" ++ id)
               selected)
          /\ List.length results = List.length selected)
  /\ (forall random n,
        exists results,
          fst (MockRoute.POST random (Normal (mockBody sent)) n)
          = MockRoute.Status200 (List.map MockRoute.Measured results) true
          /\ Permutation (List.map provider results) selected).
Proof.
  intros Htoggles Hrun selected.
  destruct (selectionAfter_invariant Htoggles) as [Hnd Hincl].
  destruct (runBenchmark_sends _ _ _ Hrun) as (Hne & Hprompt & ->).
  split.
  { intros sel p d. unfold Page.runBenchmark.
    destruct sel as [|x xs].
    - cbn. split; [intros _; left; reflexivity | reflexivity].
    - cbn [List.length Nat.eqb orb].
      destruct (trim p) as [|c r].
      + cbn. split; [intros _; right; reflexivity | reflexivity].
      + cbn. split; [discriminate | intros [H|H]; discriminate]. }
  split; [reflexivity|]. split; [reflexivity|].
  apply ui_run_accepted; assumption.
Qed.

(** *** The summary of the results *)

Lemma fold_pick {A} (k : A -> Q) (pick : A -> A -> A) :
  (forall a b, (pick a b = a \/ pick a b = b)
               /\ k (pick a b) <= k a /\ k (pick a b) <= k b) ->
  forall xs x,
    In (fold_left pick xs x) (x :: xs)
    /\ forall y, In y (x :: xs) -> k (fold_left pick xs x) <= k y.
Proof.
  intro Hpick. induction xs as [|z xs IH]; intro x.
  - cbn. split; [left; reflexivity|].
    intros y [<-|[]]. apply Qle_refl.
  - cbn [fold_left]. destruct (IH (pick x z)) as [Hin Hle].
    destruct (Hpick x z) as (Hor & Hx & Hz).
    split.
    + destruct Hin as [Hin|Hin]; [|right; right; exact Hin].
      rewrite <- Hin. destruct Hor as [->| ->];
        [left; reflexivity | right; left; reflexivity].
    + intros y [<-|[<-|Hy]].
      * eapply Qle_trans; [apply Hle; left; reflexivity | exact Hx].
      * eapply Qle_trans; [apply Hle; left; reflexivity | exact Hz].
      * apply Hle. right. exact Hy.
Qed.

Lemma pick_lower {A} (k : A -> Q) (a b : A) :
  let pick := if Qgtb (k b) (k a) then a else b in
  (pick = a \/ pick = b) /\ k pick <= k a /\ k pick <= k b.
Proof.
  cbv zeta. destruct (Qgtb (k b) (k a)) eqn:E.
  - apply Qgtb_lt in E. split; [left; reflexivity|]. split; lra.
  - apply Qgtb_le in E. split; [right; reflexivity|]. split; lra.
Qed.

Lemma pick_upper {A} (k : A -> Q) (a b : A) :
  let pick := if Qgtb (k a) (k b) then a else b in
  (pick = a \/ pick = b) /\ - k pick <= - k a /\ - k pick <= - k b.
Proof.
  cbv zeta. destruct (Qgtb (k a) (k b)) eqn:E.
  - apply Qgtb_lt in E. split; [left; reflexivity|]. split; lra.
  - apply Qgtb_le in E. split; [right; reflexivity|]. split; lra.
Qed.

Lemma Math_min_spec (x : Q) (xs : list Q) :
  In (Page.Math_min x xs) (x :: xs)
  /\ forall y, In y (x :: xs) -> Page.Math_min x xs <= y.
Proof.
  unfold Page.Math_min.
  apply (fold_pick (fun q : Q => q)). intros a b.
  destruct (Qgtb a b) eqn:E.
  - apply Qgtb_lt in E. split; [right; reflexivity|]. split; lra.
  - apply Qgtb_le in E. split; [left; reflexivity|]. split; lra.
Qed.

Lemma Math_max_spec (x : Q) (xs : list Q) :
  In (Page.Math_max x xs) (x :: xs)
  /\ forall y, In y (x :: xs) -> y <= Page.Math_max x xs.
Proof.
  unfold Page.Math_max.
  destruct (@fold_pick Q (fun q : Q => - q)
              (fun a b => if Qgtb b a then b else a)) with (xs := xs) (x := x)
    as [Hin Hle].
  - intros a b. destruct (Qgtb b a) eqn:E.
    + apply Qgtb_lt in E. split; [right; reflexivity|]. split; lra.
    + apply Qgtb_le in E. split; [left; reflexivity|]. split; lra.
  - split; [exact Hin|]. intros y Hy. specialize (Hle y Hy). cbn in Hle. lra.
Qed.

Lemma validResults_In (results : list BenchmarkResult) (r : BenchmarkResult) :
  In r (Page.validResults results)
  <-> In r results /\ truthy_opt truthy_str (error r) = false.
Proof.
  unfold Page.validResults. rewrite filter_In, negb_true_iff. tauto.
Qed.

(** X19. The summary of a list of results. The valid results are those whose
    error is absent or empty. Without a valid result the summary names
    no provider and the best values are zero. Otherwise the fastest and
    the slowest provider and the one with the highest throughput are
    valid results that bound every valid result in time to first token
    and in throughput; the best values are those of these results and
    bound the total latency from below; the table marks the fastest
    provider and the one with the highest throughput, and every result
    it marks for its time to first token is valid and as fast as any
    valid result. *)
Theorem summary_extremes (results : list BenchmarkResult) :
  let valid := Page.validResults results in
  (forall r, In r valid
             <-> In r results /\ truthy_opt truthy_str (error r) = false)
  /\ (valid = [] ->
      Page.fastestTTFT results = None /\ Page.slowestTTFT results = None
      /\ Page.highestThroughput results = None
      /\ Page.bestTTFT results = 0 /\ Page.bestTPS results = 0
      /\ Page.bestLatency results = 0)
  /\ (valid <> [] ->
      exists f s h,
        Page.fastestTTFT results = Some f
        /\ Page.slowestTTFT results = Some s
        /\ Page.highestThroughput results = Some h
        /\ In f valid /\ In s valid /\ In h valid
        /\ (forall r, In r valid ->
              ttft_ms f <= ttft_ms r /\ ttft_ms r <= ttft_ms s
              /\ tokens_per_second r <= tokens_per_second h
              /\ Page.bestLatency results <= total_latency_ms r)
        /\ ttft_ms f == Page.bestTTFT results
        /\ tokens_per_second h == Page.bestTPS results
        /\ Page.marksTTFT results f = true
        /\ Page.marksTPS results h = true)
  /\ (forall r, In r results -> Page.marksTTFT results r = true ->
        In r valid /\ forall x, In x valid -> ttft_ms r <= ttft_ms x).
Proof.
  intro valid. split; [intro r; apply validResults_In|].
  split.
  { intro He. unfold Page.fastestTTFT, Page.slowestTTFT,
      Page.highestThroughput, Page.bestTTFT, Page.bestTPS, Page.bestLatency.
    fold valid. rewrite He. repeat split; reflexivity. }
  assert (Hbest : valid <> [] ->
            In (Page.bestTTFT results) (List.map ttft_ms valid)
            /\ (forall r, In r valid -> Page.bestTTFT results <= ttft_ms r)).
  { intro Hne. unfold Page.bestTTFT. fold valid.
    destruct valid as [|v vs] eqn:Ev; [contradiction|].
    cbn [List.map].
    destruct (Math_min_spec (ttft_ms v) (List.map ttft_ms vs)) as [Hin Hle].
    split; [exact Hin|]. intros r Hr. apply Hle.
    change (In (ttft_ms r) (List.map ttft_ms (v :: vs))).
    apply in_map. exact Hr. }
  split.
  - intro Hne. specialize (Hbest Hne). destruct Hbest as [HbIn HbLe].
    unfold Page.fastestTTFT, Page.slowestTTFT, Page.highestThroughput,
      Page.bestTPS, Page.bestLatency, Page.marksTTFT, Page.marksTPS.
    unfold Page.bestTPS. fold valid.
    destruct valid as [|v vs] eqn:Ev; [contradiction|].
    cbn [List.length Nat.eqb Page.reduce List.map].
    destruct (fold_pick ttft_ms _ (pick_lower ttft_ms) vs v) as [Hf1 Hf2].
    destruct (fold_pick (fun r => - ttft_ms r) _ (pick_upper ttft_ms) vs v)
      as [Hs1 Hs2].
    destruct (fold_pick (fun r => - tokens_per_second r) _
                (pick_upper tokens_per_second) vs v) as [Hh1 Hh2].
    destruct (Math_max_spec (tokens_per_second v)
                (List.map tokens_per_second vs)) as [Hm1 Hm2].
    destruct (Math_min_spec (total_latency_ms v)
                (List.map total_latency_ms vs)) as [Hl1 Hl2].
    eexists. eexists. eexists.
    split; [reflexivity|]. split; [reflexivity|]. split; [reflexivity|].
    split; [exact Hf1|]. split; [exact Hs1|]. split; [exact Hh1|].
    set (f := fold_left _ vs v) in *.
    set (h := fold_left (fun a b => if Qgtb (tokens_per_second a)
                                          (tokens_per_second b)
                                    then a else b) vs v) in *.
    assert (Hfbest : ttft_ms f == Page.bestTTFT results).
    { apply Qle_antisym.
      - apply in_map_iff in HbIn. destruct HbIn as (x & <- & Hx).
        apply Hf2. exact Hx.
      - apply HbLe. exact Hf1. }
    assert (Hhbest : tokens_per_second h
                     == Page.Math_max (tokens_per_second v)
                          (List.map tokens_per_second vs)).
    { apply Qle_antisym.
      - apply Hm2.
        change (In (tokens_per_second h)
                  (List.map tokens_per_second (v :: vs))).
        apply in_map. exact Hh1.
      - change (In (Page.Math_max (tokens_per_second v)
                      (List.map tokens_per_second vs))
                  (List.map tokens_per_second (v :: vs))) in Hm1.
        apply in_map_iff in Hm1. destruct Hm1 as (x & <- & Hx).
        specialize (Hh2 x Hx). cbn in Hh2. lra. }
    assert (Hvalid : forall r, In r (v :: vs) ->
              negb (truthy_opt truthy_str (error r)) = true).
    { intros r Hr. rewrite <- Ev in Hr. apply validResults_In in Hr.
      destruct Hr as [_ ->]. reflexivity. }
    split.
    { intros r Hr. split; [apply Hf2; exact Hr|].
      split; [specialize (Hs2 r Hr); cbn in Hs2; lra|].
      split; [specialize (Hh2 r Hr); cbn in Hh2; lra|].
      apply Hl2.
      change (In (total_latency_ms r) (List.map total_latency_ms (v :: vs))).
      apply in_map. exact Hr. }
    split; [exact Hfbest|]. split; [exact Hhbest|].
    split.
    + apply andb_true_iff. split; [apply Qeq_bool_iff; exact Hfbest|].
      apply Hvalid. exact Hf1.
    + apply andb_true_iff. split; [apply Qeq_bool_iff; exact Hhbest|].
      apply Hvalid. exact Hh1.
  - intros r Hr Hmark. unfold Page.marksTTFT in Hmark.
    apply andb_true_iff in Hmark. destruct Hmark as [Heq Hv].
    apply Qeq_bool_iff in Heq. apply negb_true_iff in Hv.
    assert (Hin : In r valid) by (apply validResults_In; auto).
    split; [exact Hin|].
    assert (Hne : valid <> []) by (intro E; rewrite E in Hin; exact Hin).
    destruct (Hbest Hne) as [_ HbLe].
    intros x Hx. rewrite Heq. apply HbLe. exact Hx.
Qed.

Lemma fold_min_le (base : Z) (xs : list Z) :
  (fold_right Z.min base xs <= base)%Z.
Proof. induction xs as [|x xs IH]; cbn [fold_right]; lia. Qed.

(** X20. The warning about diverging token counts never shows. The smallest
    token count is taken together with zero, so it is never positive;
    the test fails for every list of results, and the throughput
    headline is always the result with the highest overall throughput. *)
Theorem tokenCountsVary_never (results : list BenchmarkResult) :
  (Page.minTokens results <= 0)%Z
  /\ Page.tokenCountsVary results = false
  /\ Page.headlineThroughput results = Page.highestThroughput results.
Proof.
  assert (Hmin : (Page.minTokens results <= 0)%Z) by apply fold_min_le.
  assert (Hvary : Page.tokenCountsVary results = false).
  { unfold Page.tokenCountsVary.
    destruct (0 <? Page.minTokens results)%Z eqn:E; [|reflexivity].
    apply Z.ltb_lt in E. lia. }
  split; [exact Hmin|]. split; [exact Hvary|].
  unfold Page.headlineThroughput. rewrite Hvary. reflexivity.
Qed.

Lemma filter_partition {A} (f : A -> bool) (l : list A) :
  Permutation (filter f l ++ filter (fun x => negb (f x)) l) l.
Proof.
  induction l as [|x l IH]; [constructor|].
  cbn [filter]. destruct (f x); cbn [negb app].
  - constructor. exact IH.
  - apply Permutation_sym, Permutation_cons_app, Permutation_sym. exact IH.
Qed.

(** X21. The verdicts of the ROI calculator. The time to first token of a
    provider is that of its first saved result, whatever that result
    reports otherwise, and the default estimate without one. Every
    provider is listed as viable or as not viable, never both, and it is
    viable exactly when its time is below the threshold, which is also
    when its impact reads good; twice the threshold or more reads bad. A
    provider whose saved result is the error entry of the orchestrator,
    with a time of zero, is viable for every positive threshold. *)
Theorem roi_viability (savedResults : list BenchmarkResult) (threshold : Q) :
  let viable := Page.viableProviders savedResults threshold in
  let nonViable := Page.nonViableProviders savedResults threshold in
  let ttft := Page.ttftOf savedResults in
  Permutation (viable ++ nonViable) (Object_keys providers)
  /\ (forall id, In id viable
                 <-> In id (Object_keys providers) /\ ttft id < threshold)
  /\ (forall id, In id nonViable
                 <-> In id (Object_keys providers) /\ threshold <= ttft id)
  /\ (forall id, Page.impactOf savedResults threshold id = Page.Good
                 <-> ttft id < threshold)
  /\ (forall id, Page.impactOf savedResults threshold id = Page.Bad
                 <-> threshold * 2 <= ttft id /\ threshold <= ttft id)
  /\ (forall id message rest,
        In id (Object_keys providers) -> 0 < threshold ->
        In id (Page.viableProviders
                 (BenchmarkRoute.errorEntry id message :: rest) threshold)).
Proof.
  intros viable nonViable ttft.
  assert (Hv : forall id, In id viable
                 <-> In id (Object_keys providers) /\ ttft id < threshold).
  { intro id. unfold viable, Page.viableProviders.
    rewrite filter_In, Qgtb_lt. tauto. }
  assert (Hsame : forall id, In id (Object_keys providers) ->
            Page.includes viable id = Qgtb threshold (ttft id)).
  { intros id Hid. destruct (Qgtb threshold (ttft id)) eqn:E.
    - apply includes_In, Hv. split; [exact Hid|]. apply Qgtb_lt. exact E.
    - destruct (Page.includes viable id) eqn:E'; [|reflexivity].
      apply includes_In, Hv in E'. destruct E' as [_ E'].
      apply Qgtb_lt in E'. fold ttft in E'. congruence. }
  assert (Hnon : nonViable
                 = filter (fun id => negb (Qgtb threshold (ttft id)))
                     (Object_keys providers)).
  { unfold nonViable, Page.nonViableProviders. fold viable.
    apply filter_ext_in. intros id Hid. rewrite (Hsame id Hid). reflexivity. }
  split.
  { rewrite Hnon. unfold viable, Page.viableProviders. fold ttft.
    apply (filter_partition (fun id => Qgtb threshold (ttft id))). }
  split; [exact Hv|].
  split.
  { intro id. rewrite Hnon, filter_In, negb_true_iff, Qgtb_le. tauto. }
  split.
  { intro id. unfold Page.impactOf. fold ttft.
    destruct (Qgtb threshold (ttft id)) eqn:E.
    - apply Qgtb_lt in E. tauto.
    - apply Qgtb_le in E. split.
      + destruct (Qgtb (threshold * 2) (ttft id)); discriminate.
      + intro H. lra. }
  split.
  { intro id. unfold Page.impactOf. fold ttft.
    destruct (Qgtb threshold (ttft id)) eqn:E.
    - apply Qgtb_lt in E. split; [discriminate|]. intros [_ H]. lra.
    - apply Qgtb_le in E.
      destruct (Qgtb (threshold * 2) (ttft id)) eqn:E2.
      + apply Qgtb_lt in E2. split; [discriminate|]. intros [H _]. lra.
      + apply Qgtb_le in E2. tauto. }
  intros id message rest Hid Hpos.
  unfold Page.viableProviders. apply filter_In. split; [exact Hid|].
  apply Qgtb_lt. unfold Page.ttftOf, Page.find_result. cbn [find].
  cbn [provider BenchmarkRoute.errorEntry]. rewrite jsstring_eqb_refl.
  cbn [ttft_ms]. exact Hpos.
Qed.

End PageFacts.

(** The initial selection, with a prompt. *)
Lemma ui_benchmark_run_witness :
  exists results,
    fst (MockRoute.POST (fun _ => 1 # 2)
           (Normal (mockBody
                      (Page.mkSent (str "/api/benchmark/mock") (str "hello")
                         256 (Object_keys providers)))) 0%nat)
    = MockRoute.Status200 (List.map MockRoute.Measured results) true
    /\ Permutation (List.map provider results) (Object_keys providers).
Proof.
  destruct (@ui_benchmark_run [] (str " hello ") true
              (Page.mkSent (str "/api/benchmark/mock") (str "hello")
                 256 (Object_keys providers)))
    as (_ & _ & _ & _ & Hmock).
  - constructor.
  - reflexivity.
  - exact (Hmock (fun _ => 1 # 2) 0%nat).
Defined.

(** ** [JSON.parse] after [JSON.stringify] *)

Section JsonRoundTrip.

Import JsonText.

(** A result that is not the exhaustion of the budget stays with a larger
    budget. *)
Lemma parse_stable (fuel : nat) :
  (forall s res, parse_value fuel s = res -> res <> PFuel ->
     parse_value (S fuel) s = res)
  /\ (forall s acc res, parse_elements fuel s acc = res -> res <> PFuel ->
        parse_elements (S fuel) s acc = res)
  /\ (forall s acc res, parse_members fuel s acc = res -> res <> PFuel ->
        parse_members (S fuel) s acc = res).
Proof.
  induction fuel as [|f (IHv & IHe & IHm)].
  - repeat split; intros; cbn in *; congruence.
  - split; [|split].
    + intros s res H Hne.
      cbn [parse_value] in H. rewrite <- H in Hne |- *. clear H res.
      remember (S f) as f1 eqn:Ef1. cbn [parse_value]. subst f1.
      destruct (skip_ws s) as [|c r]; [reflexivity|].
      destruct (c =? 123)%N.
      { destruct (starts_with_char 125 (skip_ws r)); [reflexivity|].
        apply IHm; [reflexivity | exact Hne]. }
      destruct (c =? 91)%N.
      { destruct (starts_with_char 93 (skip_ws r)); [reflexivity|].
        apply IHe; [reflexivity | exact Hne]. }
      reflexivity.
    + intros s acc res H Hne.
      cbn [parse_elements] in H. rewrite <- H in Hne |- *. clear H res.
      remember (S f) as f1 eqn:Ef1. cbn [parse_elements]. subst f1.
      destruct (parse_value f s) as [v r| |] eqn:Ev;
        [|rewrite (IHv s PSyntax Ev); [reflexivity|discriminate]
         |contradiction].
      rewrite (IHv s (POk v r) Ev) by discriminate.
      destruct (skip_ws r) as [|c r']; [reflexivity|].
      destruct (c =? 44)%N; [|reflexivity].
      apply IHe; [reflexivity | exact Hne].
    + intros s acc res H Hne.
      cbn [parse_members] in H. rewrite <- H in Hne |- *. clear H res.
      remember (S f) as f1 eqn:Ef1. cbn [parse_members]. subst f1.
      destruct (starts_with_char 34 s) as [r0|]; [|reflexivity].
      destruct (parse_string_body r0 []) as [[key r1]|]; [|reflexivity].
      destruct (starts_with_char 58 (skip_ws r1)) as [r2|]; [|reflexivity].
      destruct (parse_value f r2) as [v r3| |] eqn:Ev;
        [|rewrite (IHv r2 PSyntax Ev); [reflexivity|discriminate]
         |contradiction].
      rewrite (IHv r2 (POk v r3) Ev) by discriminate.
      destruct (skip_ws r3) as [|c r4]; [reflexivity|].
      destruct (c =? 44)%N; [|reflexivity].
      apply IHm; [reflexivity | exact Hne].
Qed.

Lemma parse_value_more (f f' : nat) (s : jsstring) (v : value) (r : jsstring) :
  parse_value f s = POk v r -> (f <= f')%nat -> parse_value f' s = POk v r.
Proof.
  intros H Hle. induction Hle as [|f' Hle IH]; [exact H|].
  apply (parse_stable f'); [exact IH | discriminate].
Qed.

Lemma parse_elements_more (f f' : nat) (s : jsstring) (acc : list value)
  (v : value) (r : jsstring) :
  parse_elements f s acc = POk v r -> (f <= f')%nat ->
  parse_elements f' s acc = POk v r.
Proof.
  intros H Hle. induction Hle as [|f' Hle IH]; [exact H|].
  apply (parse_stable f'); [exact IH | discriminate].
Qed.

Lemma parse_members_more (f f' : nat) (s : jsstring)
  (acc : list (jsstring * value)) (v : value) (r : jsstring) :
  parse_members f s acc = POk v r -> (f <= f')%nat ->
  parse_members f' s acc = POk v r.
Proof.
  intros H Hle. induction Hle as [|f' Hle IH]; [exact H|].
  apply (parse_stable f'); [exact IH | discriminate].
Qed.

(** A text that parses with some budget parses with the budget of
    [JSON.parse]. *)
Lemma JSON_parse_of_parse (f : nat) (text : jsstring) (v : value) :
  parse_value f text = POk v [] -> JSON_parse text = Normal v.
Proof.
  intro H. unfold JSON_parse.
  pose proof (JSON_parse_budget text) as Hb.
  destruct (Nat.le_ge_cases f (parse_fuel text)) as [Hle|Hge].
  - rewrite (parse_value_more _ H Hle). reflexivity.
  - destruct (parse_value (parse_fuel text) text) as [v' r'| |] eqn:E.
    + rewrite (parse_value_more _ E Hge) in H. injection H as -> ->.
      reflexivity.
    + assert (K : parse_value f text = PSyntax).
      { clear H. induction Hge as [|f' Hge IH]; [exact E|].
        apply (parse_stable f'); [exact IH | discriminate]. }
      congruence.
    + contradiction.
Qed.

(** *** Strings *)

Lemma hex_digit_char (d : N) :
  (d < 16)%N -> hex_digit (hex_char d) = Some d.
Proof.
  intro H. destruct d as [|p]; [reflexivity|].
  repeat (destruct p as [p|p|]; try reflexivity; try (exfalso; lia)).
Qed.

Lemma hex4_escape (c : N) :
  (c < 65536)%N ->
  hex4 (hex_char (c / 4096)) (hex_char ((c / 256) mod 16))
       (hex_char ((c / 16) mod 16)) (hex_char (c mod 16)) = Some c.
Proof.
  intro H. unfold hex4.
  rewrite !hex_digit_char;
    try (apply N.mod_lt; discriminate);
    [|apply N.Div0.div_lt_upper_bound; exact H].
  f_equal. zify. Z.to_euclidean_division_equations. lia.
Qed.

Lemma parse_unicode_escape (c : N) (t acc : jsstring) :
  (c < 65536)%N ->
  parse_string_body (unicode_escape c ++ t) acc
  = parse_string_body t (c :: acc).
Proof.
  intro H. unfold unicode_escape. cbn [app parse_string_body].
  change (92 =? 34)%N with false. change (92 =? 92)%N with true.
  change (117 =? 117)%N with true. cbv iota.
  rewrite (hex4_escape H). reflexivity.
Qed.

Lemma parse_raw_unit (c : N) (t acc : jsstring) :
  (32 <= c)%N -> c <> 34%N -> c <> 92%N ->
  parse_string_body (c :: t) acc = parse_string_body t (c :: acc).
Proof.
  intros H32 H34 H92. cbn [parse_string_body].
  apply N.eqb_neq in H34, H92. rewrite H34, H92.
  assert (E : (c <? 32)%N = false) by (apply N.ltb_ge; exact H32).
  rewrite E. reflexivity.
Qed.

Lemma parse_escape_unit (c : N) (t acc : jsstring) :
  parse_string_body (escape_unit c ++ t) acc
  = parse_string_body t (c :: acc).
Proof.
  unfold escape_unit.
  destruct (c =? 8)%N eqn:E8;
    [apply N.eqb_eq in E8; subst c; reflexivity|].
  destruct (c =? 9)%N eqn:E9;
    [apply N.eqb_eq in E9; subst c; reflexivity|].
  destruct (c =? 10)%N eqn:E10;
    [apply N.eqb_eq in E10; subst c; reflexivity|].
  destruct (c =? 12)%N eqn:E12;
    [apply N.eqb_eq in E12; subst c; reflexivity|].
  destruct (c =? 13)%N eqn:E13;
    [apply N.eqb_eq in E13; subst c; reflexivity|].
  destruct (c =? 34)%N eqn:E34;
    [apply N.eqb_eq in E34; subst c; reflexivity|].
  destruct (c =? 92)%N eqn:E92;
    [apply N.eqb_eq in E92; subst c; reflexivity|].
  destruct (c <? 32)%N eqn:E32.
  - apply N.ltb_lt in E32. apply parse_unicode_escape. lia.
  - apply N.ltb_ge in E32. apply N.eqb_neq in E34, E92.
    apply parse_raw_unit; assumption.
Qed.

Lemma surrogate_raw (c : N) (t acc : jsstring) :
  is_lead c = true \/ is_trail c = true ->
  parse_string_body (c :: t) acc = parse_string_body t (c :: acc)
  /\ parse_string_body (unicode_escape c ++ t) acc
     = parse_string_body t (c :: acc).
Proof.
  intro H.
  assert (Hc : (55296 <= c <= 57343)%N).
  { unfold is_lead, is_trail in H.
    destruct H as [H|H]; apply andb_true_iff in H; destruct H as [H1 H2];
      apply N.leb_le in H1, H2; lia. }
  split.
  - apply parse_raw_unit; lia.
  - apply parse_unicode_escape. lia.
Qed.

Lemma parse_quote_body_len (n : nat) :
  forall s acc rest,
    (List.length s <= n)%nat ->
    parse_string_body (quote_body s ++ 34%N :: rest) acc
    = Some (rev acc ++ s, rest).
Proof.
  induction n as [|n IH]; intros s acc rest Hlen.
  - destruct s; [|cbn in Hlen; lia].
    cbn. rewrite app_nil_r. reflexivity.
  - destruct s as [|c r].
    { cbn. rewrite app_nil_r. reflexivity. }
    cbn [List.length] in Hlen.
    assert (Hnext : forall t, (List.length t <= n)%nat ->
              parse_string_body (quote_body t ++ 34%N :: rest) (c :: acc)
              = Some (rev acc ++ c :: t, rest)).
    { intros t Ht. rewrite (IH t (c :: acc) rest Ht). cbn [rev].
      rewrite <- app_assoc. reflexivity. }
    cbn [quote_body].
    destruct (is_lead c) eqn:El.
    + destruct r as [|d r'].
      * cbn [app].
        rewrite (proj2 (surrogate_raw c (34%N :: rest) acc (or_introl El))).
        reflexivity.
      * destruct (is_trail d) eqn:Et.
        -- cbn [app].
           rewrite (proj1 (surrogate_raw c _ acc (or_introl El))).
           rewrite (proj1 (surrogate_raw d _ (c :: acc) (or_intror Et))).
           cbn [List.length] in Hlen.
           rewrite (IH r' (d :: c :: acc) rest ltac:(lia)).
           cbn [rev]. rewrite <- !app_assoc. reflexivity.
        -- rewrite <- app_assoc.
           rewrite (proj2 (surrogate_raw c _ acc (or_introl El))).
           apply Hnext. lia.
    + destruct (is_trail c) eqn:Et.
      * rewrite <- app_assoc.
        rewrite (proj2 (surrogate_raw c _ acc (or_intror Et))).
        apply Hnext. lia.
      * rewrite <- app_assoc. rewrite parse_escape_unit.
        apply Hnext. lia.
Qed.

Lemma parse_quote_body (s acc rest : jsstring) :
  parse_string_body (quote_body s ++ 34%N :: rest) acc
  = Some (rev acc ++ s, rest).
Proof. apply (@parse_quote_body_len (List.length s)). apply Nat.le_refl. Qed.

(** *** Numbers *)

Lemma digit_char (m : N) :
  (m < 10)%N ->
  is_digit (48 + m) = true /\ (48 + m - 48 = m)%N
  /\ ((48 + m =? 48)%N = true -> m = 0%N)
  /\ (48 + m)%N <> 45%N.
Proof.
  intro H. unfold is_digit. split; [|split; [|split]].
  - apply andb_true_iff. split; apply N.leb_le; lia.
  - lia.
  - intro E. apply N.eqb_eq in E. lia.
  - lia.
Qed.

Lemma digits_fuel_spec (fuel : nat) :
  forall n acc,
    (n < 10 ^ N.of_nat (S fuel))%N ->
    exists d ds,
      digits_fuel (S fuel) n acc = d :: ds ++ acc
      /\ Forall (fun c => is_digit c = true) (d :: ds)
      /\ digits_value (d :: ds) = Z.of_N n
      /\ (d = 48%N -> n = 0%N /\ ds = [])
      /\ d <> 45%N.
Proof.
  induction fuel as [|f IH]; intros n acc Hn.
  - change (10 ^ N.of_nat 1)%N with 10%N in Hn.
    destruct (digit_char Hn) as (Hd & Hv & Hz & Hm).
    assert (Hmod : (n mod 10 = n)%N) by (apply N.mod_small; exact Hn).
    exists (48 + n)%N, []. cbn [digits_fuel]. rewrite Hmod.
    destruct (n <? 10)%N; cbn [app].
    + split; [reflexivity|]. split; [repeat constructor; exact Hd|].
      split; [unfold digits_value; cbn [fold_left]; rewrite Hv; lia|].
      split; [|exact Hm].
      intro E. split; [|reflexivity]. apply Hz. rewrite E. reflexivity.
    + split; [reflexivity|]. split; [repeat constructor; exact Hd|].
      split; [unfold digits_value; cbn [fold_left]; rewrite Hv; lia|].
      split; [|exact Hm].
      intro E. split; [|reflexivity]. apply Hz. rewrite E. reflexivity.
  - remember (S f) as f1 eqn:Ef1. cbn [digits_fuel].
    assert (Hlt : (n mod 10 < 10)%N) by (apply N.mod_lt; discriminate).
    destruct (digit_char Hlt) as (Hd & Hv & Hz & Hm).
    destruct (n <? 10)%N eqn:E10.
    + apply N.ltb_lt in E10.
      assert (Hmod : (n mod 10 = n)%N) by (apply N.mod_small; exact E10).
      rewrite Hmod in *.
      exists (48 + n)%N, []. cbn [app].
      split; [reflexivity|]. split; [repeat constructor; exact Hd|].
      split; [unfold digits_value; cbn [fold_left]; rewrite Hv; lia|].
      split; [|exact Hm].
      intro E. split; [|reflexivity]. apply Hz. rewrite E. reflexivity.
    + apply N.ltb_ge in E10. subst f1.
      assert (Hdiv : (n / 10 < 10 ^ N.of_nat (S f))%N).
      { apply N.Div0.div_lt_upper_bound.
        replace (N.of_nat (S (S f))) with (N.succ (N.of_nat (S f))) in Hn
          by lia.
        rewrite N.pow_succ_r' in Hn. exact Hn. }
      destruct (IH (n / 10)%N ((48 + n mod 10)%N :: acc) Hdiv)
        as (d & ds & Hrun & Hall & Hval & Hzero & Hminus).
      exists d, (ds ++ [(48 + n mod 10)%N]).
      split; [rewrite Hrun, <- app_assoc; reflexivity|].
      split.
      { inversion Hall as [|? ? Hd0 Hds]; subst.
        constructor; [exact Hd0|].
        apply Forall_app. split; [exact Hds|]. repeat constructor. exact Hd. }
      split.
      { unfold digits_value in *.
        change (d :: ds ++ [(48 + n mod 10)%N])
          with ((d :: ds) ++ [(48 + n mod 10)%N]).
        rewrite fold_left_app, Hval. cbn [fold_left]. rewrite Hv.
        zify. Z.to_euclidean_division_equations. lia. }
      split; [|exact Hminus].
      intro E. destruct (Hzero E) as [H0 _]. exfalso.
      assert (n / 10 <> 0)%N.
      { intro K. apply N.div_small_iff in K; [lia | discriminate]. }
      contradiction.
Qed.

Lemma Number_toString_spec (n : N) :
  exists d ds,
    Number_toString n = d :: ds
    /\ Forall (fun c => is_digit c = true) (d :: ds)
    /\ digits_value (d :: ds) = Z.of_N n
    /\ (d = 48%N -> n = 0%N /\ ds = [])
    /\ d <> 45%N.
Proof.
  unfold Number_toString.
  destruct (@digits_fuel_spec (N.to_nat (N.log2 n)) n [])
    as (d & ds & Hrun & Hrest).
  - destruct (N.eq_dec n 0) as [->|Hne]; [reflexivity|].
    assert (Hpos : (0 < n)%N) by lia.
    destruct (N.log2_spec n Hpos) as [_ Hup].
    eapply N.lt_le_trans; [exact Hup|].
    replace (N.of_nat (S (N.to_nat (N.log2 n)))) with (N.succ (N.log2 n))
      by lia.
    apply N.pow_le_mono_l. lia.
  - exists d, ds. rewrite Hrun, app_nil_r. split; [reflexivity | exact Hrest].
Qed.

Lemma read_digits_all (ds rest : jsstring) :
  Forall (fun c => is_digit c = true) ds ->
  number_ends rest ->
  read_digits (ds ++ rest) = (ds, rest).
Proof.
  intros Hall Hend. induction Hall as [|c ds Hc Hds IH].
  - cbn [app]. destruct rest as [|c r]; [reflexivity|].
    cbn [read_digits]. destruct Hend as [-> _]. reflexivity.
  - cbn [app read_digits]. rewrite Hc, IH. reflexivity.
Qed.

Lemma parse_digits (n : N) (rest : jsstring) :
  number_ends rest ->
  exists d ds,
    Number_toString n = d :: ds /\ d <> 45%N /\ is_digit d = true
    /\ read_int (Number_toString n ++ rest) = Some (d :: ds, rest)
    /\ digits_value (d :: ds) = Z.of_N n
    /\ read_frac rest = Some ([], rest)
    /\ read_exp rest = Some (0%Z, rest).
Proof.
  intro Hend.
  destruct (Number_toString_spec n) as (d & ds & Hn & Hall & Hval & Hz & Hm).
  exists d, ds. split; [exact Hn|]. split; [exact Hm|].
  assert (Hd : is_digit d = true) by (inversion Hall; assumption).
  split; [exact Hd|]. split; [|split; [exact Hval|]].
  - rewrite Hn. cbn [app read_int].
    destruct (d =? 48)%N eqn:E.
    + apply N.eqb_eq in E. destruct (Hz E) as [_ ->]. reflexivity.
    + rewrite Hd.
      change (d :: ds ++ rest) with ((d :: ds) ++ rest).
      rewrite (@read_digits_all _ _ Hall Hend). reflexivity.
  - destruct rest as [|c r]; [split; reflexivity|].
    destruct Hend as (_ & H46 & H101 & H69).
    apply N.eqb_neq in H46, H101, H69.
    cbn [read_frac read_exp]. rewrite H46, H101, H69. split; reflexivity.
Qed.

Lemma Integer_toString_plain (z : Z) :
  (Z.abs z < 10 ^ 21)%Z ->
  Integer_toString z
  = (if (z <? 0)%Z then [45%N] else []) ++ Number_toString (Z.abs_N z).
Proof.
  intro H. unfold Integer_toString.
  assert (E : (Z.abs z <? 10 ^ 21)%Z = true) by (apply Z.ltb_lt; exact H).
  rewrite E. reflexivity.
Qed.

Lemma parse_number_integer (z : Z) (rest : jsstring) :
  (Z.abs z < 10 ^ 21)%Z ->
  number_ends rest ->
  parse_number (Integer_toString z ++ rest) = Some (inject_Z z, rest)
  /\ exists c r, Integer_toString z = c :: r
                 /\ ((c =? 45)%N || is_digit c = true)
                 /\ is_json_ws c = false
                 /\ (c =? 123)%N = false /\ (c =? 91)%N = false
                 /\ (c =? 34)%N = false.
Proof.
  intros Hplain Hend. rewrite (@Integer_toString_plain z Hplain).
  destruct (@parse_digits (Z.abs_N z) rest Hend)
    as (d & ds & Hn & Hm & Hd & Hint & Hval & Hfrac & Hexp).
  assert (Hdigit : forall c, is_digit c = true ->
            is_json_ws c = false /\ (c =? 123)%N = false
            /\ (c =? 91)%N = false /\ (c =? 34)%N = false).
  { intros c Hc. unfold is_digit in Hc. apply andb_true_iff in Hc.
    destruct Hc as [H1 H2]. apply N.leb_le in H1, H2.
    unfold is_json_ws.
    repeat split; repeat (apply orb_false_iff; split);
      apply N.eqb_neq; lia. }
  destruct (z <? 0)%Z eqn:Eneg.
  - apply Z.ltb_lt in Eneg. split.
    + unfold parse_number. cbn [app].
      change (45 =? 45)%N with true. cbv iota.
      rewrite Hint, Hfrac, Hexp. rewrite app_nil_r, Hval.
      f_equal. f_equal. unfold inject_Z, Qmult, Qopp. cbn.
      f_equal. lia.
    + exists 45%N, (Number_toString (Z.abs_N z)).
      repeat split; reflexivity.
  - apply Z.ltb_ge in Eneg. split.
    + unfold parse_number. rewrite Hn in Hint |- *. cbn [app] in Hint |- *.
      apply N.eqb_neq in Hm. rewrite Hm.
      rewrite Hint, Hfrac, Hexp. rewrite app_nil_r, Hval.
      f_equal. f_equal. unfold inject_Z, Qmult. cbn.
      f_equal. lia.
    + exists d, ds. split; [rewrite Hn; reflexivity|].
      split; [rewrite Hd; apply orb_true_r|].
      apply Hdigit. exact Hd.
Qed.

(** *** Values *)

Lemma data_induction (P : data -> Prop) :
  P DNull -> (forall b, P (DBool b)) -> (forall n, P (DInt n)) ->
  (forall s, P (DString s)) ->
  (forall items, Forall P items -> P (DArray items)) ->
  (forall members, Forall (fun kv => P (snd kv)) members ->
                   P (DObject members)) ->
  forall d, P d.
Proof.
  intros Hnull Hbool Hint Hstring Harray Hobject.
  fix IH 1. intro d. destruct d as [|b|n|s|items|members].
  - exact Hnull.
  - apply Hbool.
  - apply Hint.
  - apply Hstring.
  - apply Harray.
    exact ((fix go (l : list data) : Forall P l :=
              match l with
              | [] => Forall_nil P
              | x :: r => Forall_cons x (IH x) (go r)
              end) items).
  - apply Hobject.
    exact ((fix go (l : list (jsstring * data))
              : Forall (fun kv => P (snd kv)) l :=
              match l with
              | [] => Forall_nil _
              | x :: r => Forall_cons x (IH (snd x)) (go r)
              end) members).
Qed.

Lemma stringify_starts (d : data) :
  plain_integers d -> starts_value (JSON_stringify d).
Proof.
  intro Hplain. destruct d as [|[|]|n|s|items|members];
    try (eexists; eexists; split; [reflexivity|];
         split; [reflexivity|]; split; discriminate).
  cbn [JSON_stringify]. cbn [plain_integers] in Hplain.
  destruct (@parse_number_integer n [] Hplain I)
    as (_ & c & r & Hn & Hc & Hws & _).
  exists c, r. split; [exact Hn|]. split; [exact Hws|].
  apply orb_true_iff in Hc. destruct Hc as [Hc|Hc].
  - apply N.eqb_eq in Hc. subst c. split; discriminate.
  - unfold is_digit in Hc. apply andb_true_iff in Hc.
    destruct Hc as [H1 H2]. apply N.leb_le in H1, H2. split; lia.
Qed.

Lemma skip_ws_value (text rest : jsstring) :
  starts_value text -> skip_ws (text ++ rest) = text ++ rest.
Proof.
  intros (c & r & -> & Hws & _). cbn [app skip_ws]. rewrite Hws. reflexivity.
Qed.

Lemma number_ends_punct (c : N) (rest : jsstring) :
  c = 44%N \/ c = 93%N \/ c = 125%N -> number_ends (c :: rest).
Proof.
  intros [->|[->| ->]]; cbn; repeat split; discriminate.
Qed.

Lemma parse_elements_back (items : list data) :
  Forall parses_back items ->
  fold_right (fun item rest => plain_integers item /\ rest) True items ->
  items <> [] ->
  forall acc rest,
    exists f0, forall f, (f0 <= f)%nat ->
      parse_elements f
        (join 44 (List.map JSON_stringify items) ++ 93%N :: rest) acc
      = POk (JArray (rev acc ++ List.map to_value items)) rest.
Proof.
  induction 1 as [|item more Hitem Hmore IH]; intros Hplain Hne acc rest;
    [contradiction|].
  cbn [fold_right] in Hplain. destruct Hplain as [Hp Hps].
  destruct more as [|next more'].
  - cbn [List.map join].
    destruct (Hitem Hp (93%N :: rest)
                (number_ends_punct rest (or_intror (or_introl eq_refl))))
      as (f0 & Hf0).
    exists (S f0). intros f Hf. destruct f as [|f]; [lia|].
    cbn [parse_elements]. rewrite (Hf0 f) by lia.
    cbn [skip_ws]. change (is_json_ws 93) with false. cbv iota.
    change (93 =? 44)%N with false. change (93 =? 93)%N with true.
    cbv iota. cbn [rev]. reflexivity.
  - destruct (IH Hps ltac:(discriminate) (to_value item :: acc) rest)
      as (f1 & Hf1).
    set (tail := join 44 (List.map JSON_stringify (next :: more'))
                 ++ 93%N :: rest) in *.
    destruct (Hitem Hp (44%N :: tail)
                (number_ends_punct tail (or_introl eq_refl)))
      as (f0 & Hf0).
    exists (S (Nat.max f0 f1)). intros f Hf. destruct f as [|f]; [lia|].
    assert (Etext : join 44 (List.map JSON_stringify (item :: next :: more'))
                    ++ 93%N :: rest
                    = JSON_stringify item ++ 44%N :: tail).
    { unfold tail. cbn [List.map join]. rewrite <- app_assoc. reflexivity. }
    rewrite Etext. cbn [parse_elements]. rewrite (Hf0 f) by lia.
    cbn [skip_ws]. change (is_json_ws 44) with false. cbv iota.
    change (44 =? 44)%N with true. cbv iota.
    rewrite (Hf1 f) by lia. cbn [rev List.map].
    rewrite <- app_assoc. reflexivity.
Qed.

Lemma parse_members_back (members : list (jsstring * data)) :
  Forall (fun kv => parses_back (snd kv)) members ->
  fold_right (fun kv rest => plain_integers (snd kv) /\ rest) True members ->
  members <> [] ->
  forall acc rest,
    exists f0, forall f, (f0 <= f)%nat ->
      parse_members f
        (join 44
           (List.map (fun kv => QuoteJSONString (fst kv)
                                ++ 58%N :: JSON_stringify (snd kv))
              members)
         ++ 125%N :: rest) acc
      = POk (JObject
               (rev acc
                ++ List.map (fun kv => (fst kv, to_value (snd kv))) members))
            rest.
Proof.
  induction 1 as [|[key item] more Hitem Hmore IH];
    intros Hplain Hne acc rest; [contradiction|].
  cbn [fold_right snd] in Hplain. destruct Hplain as [Hp Hps].
  cbn [snd] in Hitem.
  assert (Estep : forall f tail acc0,
            parse_members (S f)
              (QuoteJSONString key ++ 58%N :: JSON_stringify item ++ tail)
              acc0
            = match parse_value f (JSON_stringify item ++ tail) with
              | POk v r3 =>
                  match skip_ws r3 with
                  | c :: r4 =>
                      if (c =? 44)%N
                      then parse_members f (skip_ws r4) ((key, v) :: acc0)
                      else if (c =? 125)%N
                           then POk (JObject (rev ((key, v) :: acc0))) r4
                           else PSyntax
                  | [] => PSyntax
                  end
              | PSyntax => PSyntax
              | PFuel => PFuel
              end).
  { intros f tail acc0. unfold QuoteJSONString.
    cbn [parse_members app starts_with_char].
    change (34 =? 34)%N with true. cbv iota.
    rewrite <- !app_assoc. cbn [app].
    rewrite parse_quote_body. cbn [rev app].
    cbn [skip_ws]. change (is_json_ws 58) with false. cbv iota.
    cbn [starts_with_char]. change (58 =? 58)%N with true. cbv iota.
    reflexivity. }
  destruct more as [|next more'].
  - cbn [List.map join fst snd].
    destruct (Hitem Hp (125%N :: rest)
                (number_ends_punct rest (or_intror (or_intror eq_refl))))
      as (f0 & Hf0).
    exists (S f0). intros f Hf. destruct f as [|f]; [lia|].
    rewrite <- app_assoc. cbn [app].
    rewrite Estep, (Hf0 f) by lia.
    cbn [skip_ws]. change (is_json_ws 125) with false. cbv iota.
    change (125 =? 44)%N with false. change (125 =? 125)%N with true.
    cbv iota. reflexivity.
  - destruct (IH Hps ltac:(discriminate) ((key, to_value item) :: acc) rest)
      as (f1 & Hf1).
    set (tail := join 44
                   (List.map (fun kv => QuoteJSONString (fst kv)
                                        ++ 58%N :: JSON_stringify (snd kv))
                      (next :: more'))
                 ++ 125%N :: rest) in *.
    destruct (Hitem Hp (44%N :: tail)
                (number_ends_punct tail (or_introl eq_refl)))
      as (f0 & Hf0).
    exists (S (Nat.max f0 f1)). intros f Hf. destruct f as [|f]; [lia|].
    assert (Etext : join 44
                      (List.map (fun kv => QuoteJSONString (fst kv)
                                           ++ 58%N :: JSON_stringify (snd kv))
                         ((key, item) :: next :: more'))
                    ++ 125%N :: rest
                    = QuoteJSONString key
                      ++ 58%N :: JSON_stringify item ++ 44%N :: tail).
    { unfold tail. cbn [List.map join fst snd].
      repeat (rewrite <- app_assoc; cbn [app]). reflexivity. }
    rewrite Etext, Estep, (Hf0 f) by lia.
    cbn [skip_ws]. change (is_json_ws 44) with false. cbv iota.
    change (44 =? 44)%N with true. cbv iota.
    assert (Eskip : skip_ws tail = tail).
    { unfold tail. destruct next as [k v]. cbn [List.map fst snd].
      destruct more'; cbn [join]; unfold QuoteJSONString; reflexivity. }
    rewrite Eskip, (Hf1 f) by lia. cbn [rev List.map fst snd].
    rewrite <- app_assoc. reflexivity.
Qed.

Lemma stringify_parses_back (d : data) : parses_back d.
Proof.
  induction d as [|b|n|s|items IH|members IH] using data_induction;
    intros Hplain rest Hend.
  - exists 1%nat. intros f Hf. destruct f as [|f]; [lia|]. reflexivity.
  - exists 1%nat. intros f Hf. destruct f as [|f]; [lia|].
    destruct b; reflexivity.
  - cbn [plain_integers] in Hplain.
    destruct (@parse_number_integer n rest Hplain Hend)
      as (Hparse & c & r & Hn & Hc & Hws & H123 & H91 & H34).
    exists 1%nat. intros f Hf. destruct f as [|f]; [lia|].
    cbn [JSON_stringify to_value]. cbn [parse_value].
    rewrite Hn in Hparse |- *. cbn [app skip_ws] in Hparse |- *.
    rewrite Hws, H123, H91, H34, Hc, Hparse. reflexivity.
  - exists 1%nat. intros f Hf. destruct f as [|f]; [lia|].
    cbn [JSON_stringify to_value]. unfold QuoteJSONString.
    cbn [parse_value app skip_ws]. change (is_json_ws 34) with false.
    cbv iota. change (34 =? 123)%N with false. change (34 =? 91)%N with false.
    change (34 =? 34)%N with true. cbv iota.
    rewrite <- app_assoc. cbn [app]. rewrite parse_quote_body. reflexivity.
  - cbn [plain_integers] in Hplain. cbn [JSON_stringify to_value].
    destruct items as [|item more].
    + exists 1%nat. intros f Hf. destruct f as [|f]; [lia|]. reflexivity.
    + destruct (@parse_elements_back (item :: more) IH Hplain
                  ltac:(discriminate) [] rest) as (f0 & Hf0).
      exists (S f0). intros f Hf. destruct f as [|f]; [lia|].
      cbn [app]. rewrite <- app_assoc. cbn [app].
      cbn [parse_value skip_ws]. change (is_json_ws 91) with false.
      cbv iota. change (91 =? 123)%N with false.
      change (91 =? 91)%N with true. cbv iota.
      assert (Estart : starts_with_char 93
                (skip_ws (join 44 (List.map JSON_stringify (item :: more))
                          ++ 93%N :: rest)) = None).
      { assert (Hs : starts_value (JSON_stringify item)).
        { apply stringify_starts. cbn [fold_right] in Hplain. tauto. }
        destruct Hs as (c & r & Hc & Hws & H93 & _).
        cbn [List.map]. destruct (List.map JSON_stringify more);
          cbn [join]; rewrite Hc; cbn [app skip_ws]; rewrite Hws;
          cbn [starts_with_char];
          (destruct (93 =? c)%N eqn:E;
           [apply N.eqb_eq in E; congruence | reflexivity]). }
      rewrite Estart. rewrite (Hf0 f) by lia. reflexivity.
  - cbn [plain_integers] in Hplain. cbn [JSON_stringify to_value].
    destruct members as [|[key item] more].
    + exists 1%nat. intros f Hf. destruct f as [|f]; [lia|]. reflexivity.
    + destruct (@parse_members_back ((key, item) :: more) IH Hplain
                  ltac:(discriminate) [] rest) as (f0 & Hf0).
      exists (S f0). intros f Hf. destruct f as [|f]; [lia|].
      cbn [app]. rewrite <- app_assoc. cbn [app].
      cbn [parse_value skip_ws]. change (is_json_ws 123) with false.
      cbv iota. change (123 =? 123)%N with true. cbv iota.
      assert (Eskip : forall tail,
                skip_ws (join 44
                           (List.map
                              (fun kv => QuoteJSONString (fst kv)
                                         ++ 58%N :: JSON_stringify (snd kv))
                              ((key, item) :: more)) ++ tail)
                = join 44
                    (List.map
                       (fun kv => QuoteJSONString (fst kv)
                                  ++ 58%N :: JSON_stringify (snd kv))
                       ((key, item) :: more)) ++ tail
                /\ starts_with_char 125
                     (join 44
                        (List.map
                           (fun kv => QuoteJSONString (fst kv)
                                      ++ 58%N :: JSON_stringify (snd kv))
                           ((key, item) :: more)) ++ tail) = None).
      { intro tail. cbn [List.map fst snd].
        destruct (List.map _ more); cbn [join]; unfold QuoteJSONString;
          split; reflexivity. }
      destruct (Eskip (125%N :: rest)) as [E1 E2].
      rewrite E1, E2. rewrite (Hf0 f) by lia. reflexivity.
Qed.

(** [JSON.parse] returns the data that [JSON.stringify] has written, for
    data whose integers are written without exponent. *)
Lemma JSON_round_trip (d : data) :
  plain_integers d ->
  JSON_parse (JSON_stringify d) = Normal (to_value d).
Proof.
  intro Hplain.
  destruct (@stringify_parses_back d Hplain [] I) as (f0 & Hf0).
  apply (@JSON_parse_of_parse f0).
  rewrite <- (app_nil_r (JSON_stringify d)). apply Hf0. apply Nat.le_refl.
Qed.

End JsonRoundTrip.

(** ** The text of [JSON.stringify] *)

Section JsonTextFacts.

Import JsonText.

Ltac printable :=
  repeat (apply Forall_cons; [lia|]); apply Forall_nil.

Lemma hex_char_printable (d : N) : (32 <= hex_char d)%N.
Proof. unfold hex_char. destruct (d <? 10)%N; lia. Qed.

Lemma unicode_escape_printable (c : N) :
  Forall (fun u => (32 <= u)%N) (unicode_escape c).
Proof.
  unfold unicode_escape.
  repeat constructor; try apply hex_char_printable; lia.
Qed.

Lemma escape_unit_printable (c : N) :
  Forall (fun u => (32 <= u)%N) (escape_unit c).
Proof.
  unfold escape_unit.
  repeat match goal with
         | |- context [if ?b then _ else _] => destruct b eqn:?
         end;
    try (repeat constructor; lia);
    try apply unicode_escape_printable.
  repeat constructor.
  match goal with H : (c <? 32)%N = false |- _ => apply N.ltb_ge in H end.
  assumption.
Qed.

Lemma quote_body_printable_len (n : nat) :
  forall s, (List.length s <= n)%nat ->
            Forall (fun u => (32 <= u)%N) (quote_body s).
Proof.
  induction n as [|n IH]; intros s Hlen.
  - destruct s; [constructor | cbn in Hlen; lia].
  - destruct s as [|c r]; [constructor|].
    cbn [List.length] in Hlen. cbn [quote_body].
    assert (Hsur : forall u, is_lead u = true \/ is_trail u = true ->
                             (32 <= u)%N).
    { intros u [H|H]; unfold is_lead, is_trail in H;
        apply andb_true_iff in H; destruct H as [H _];
        apply N.leb_le in H; lia. }
    destruct (is_lead c) eqn:El.
    + destruct r as [|d r']; [apply unicode_escape_printable|].
      destruct (is_trail d) eqn:Et.
      * constructor; [apply Hsur; auto|].
        constructor; [apply Hsur; auto|].
        apply IH. cbn [List.length] in Hlen. lia.
      * apply Forall_app. split; [apply unicode_escape_printable|].
        apply IH. lia.
    + destruct (is_trail c).
      * apply Forall_app. split; [apply unicode_escape_printable|].
        apply IH. lia.
      * apply Forall_app. split; [apply escape_unit_printable|].
        apply IH. lia.
Qed.

Lemma QuoteJSONString_printable (s : jsstring) :
  Forall (fun u => (32 <= u)%N) (QuoteJSONString s).
Proof.
  unfold QuoteJSONString. constructor; [lia|].
  apply Forall_app. split.
  - apply (@quote_body_printable_len (List.length s)). apply Nat.le_refl.
  - repeat constructor. lia.
Qed.

Lemma digit_printable (ds : jsstring) :
  Forall (fun c => is_digit c = true) ds -> Forall (fun u => (32 <= u)%N) ds.
Proof.
  apply Forall_impl. intros c Hc. unfold is_digit in Hc.
  apply andb_true_iff in Hc. destruct Hc as [H _]. apply N.leb_le in H. lia.
Qed.

Lemma Number_toString_printable (n : N) :
  Forall (fun u => (32 <= u)%N) (Number_toString n).
Proof.
  destruct (Number_toString_spec n) as (d & ds & -> & Hall & _).
  apply digit_printable. exact Hall.
Qed.

Lemma strip_zeros_incl (s : jsstring) (c : N) :
  In c (strip_zeros s) -> In c s.
Proof.
  induction s as [|x s IH]; [intros []|].
  cbn [strip_zeros]. destruct (x =? 48)%N; [|exact (fun H => H)].
  intro H. right. apply IH. exact H.
Qed.

Lemma Integer_toString_printable (z : Z) :
  Forall (fun u => (32 <= u)%N) (Integer_toString z).
Proof.
  unfold Integer_toString.
  pose proof (Number_toString_printable (Z.abs_N z)) as Hd.
  assert (Hsign : Forall (fun u => (32 <= u)%N)
                    (if (z <? 0)%Z then [45%N] else [])).
  { destruct (z <? 0)%Z; repeat constructor. lia. }
  destruct (Z.abs z <? 10 ^ 21)%Z.
  - apply Forall_app. split; assumption.
  - apply Forall_app. split; [exact Hsign|].
    apply Forall_app. split.
    + assert (Hsig : Forall (fun u => (32 <= u)%N)
                       (rev (strip_zeros (rev (Number_toString (Z.abs_N z)))))).
      { apply Forall_forall. intros c Hc. rewrite Forall_forall in Hd.
        apply Hd. apply in_rev in Hc. apply strip_zeros_incl in Hc.
        apply in_rev in Hc. exact Hc. }
      destruct (rev (strip_zeros (rev (Number_toString (Z.abs_N z)))))
        as [|d [|d' ds]]; [constructor | exact Hsig |].
      inversion Hsig; subst. constructor; [assumption|].
      constructor; [lia | assumption].
    + apply Forall_app. split; [|apply Number_toString_printable].
      change (str "e+") with [101%N; 43%N].
      constructor; [lia|]. constructor; [lia|]. constructor.
Qed.

Lemma join_printable (parts : list jsstring) :
  Forall (Forall (fun u => (32 <= u)%N)) parts ->
  Forall (fun u => (32 <= u)%N) (join 44 parts).
Proof.
  induction 1 as [|p rest Hp Hrest IH]; [constructor|].
  destruct rest as [|q rest']; [exact Hp|].
  change (join 44 (p :: q :: rest')) with (p ++ 44%N :: join 44 (q :: rest')).
  apply Forall_app. split; [exact Hp|]. constructor; [lia | exact IH].
Qed.

Lemma JSON_stringify_printable (d : data) :
  Forall (fun u => (32 <= u)%N) (JSON_stringify d).
Proof.
  induction d as [|b|n|s|items IH|members IH] using data_induction.
  - cbn. printable.
  - destruct b; cbn; printable.
  - apply Integer_toString_printable.
  - apply QuoteJSONString_printable.
  - cbn [JSON_stringify]. constructor; [lia|].
    apply Forall_app. split; [|printable].
    apply join_printable. apply Forall_map. exact IH.
  - cbn [JSON_stringify]. constructor; [lia|].
    apply Forall_app. split; [|printable].
    apply join_printable. apply Forall_map.
    eapply Forall_impl; [|exact IH]. intros [k v] Hv. cbn [fst snd] in *.
    apply Forall_app. split; [apply QuoteJSONString_printable|].
    constructor; [lia | exact Hv].
Qed.

(** X22. [JSON.parse] returns the data that [JSON.stringify] has written,
    when the integers in it are below 10^21 in magnitude. The text of any
    data has no control character in it, so no line feed, whatever the
    strings of the data contain. *)
Theorem JSON_stringify_parse (d : data) :
  (plain_integers d -> JSON_parse (JSON_stringify d) = Normal (to_value d))
  /\ Forall (fun u => (32 <= u)%N) (JSON_stringify d)
  /\ ~ In 10%N (JSON_stringify d).
Proof.
  split; [apply JSON_round_trip|].
  split; [apply JSON_stringify_printable|].
  intro H. pose proof (JSON_stringify_printable d) as Hp.
  rewrite Forall_forall in Hp. specialize (Hp _ H). lia.
Qed.

End JsonTextFacts.

(** ** The agent race on the wire *)

Section AgentRaceWireFacts.

Import RaceClient.

Lemma split_blank_nonempty (s : jsstring) : split_blank s <> [].
Proof.
  destruct s as [|c r]; [discriminate|]. cbn [split_blank].
  destruct (c =? 10)%N; [destruct r as [|d r']|];
    try (destruct (d =? 10)%N; [discriminate|]);
    destruct (split_blank _); discriminate.
Qed.

(** The two cases of [split_blank] on a non-empty string. *)
Lemma split_blank_cons (c : N) (r : jsstring) :
  (exists r', c = 10%N /\ r = 10%N :: r'
              /\ split_blank (c :: r) = [] :: split_blank r')
  \/ ((forall r', ~ (c = 10%N /\ r = 10%N :: r'))
      /\ exists h t, split_blank r = h :: t
                     /\ split_blank (c :: r) = (c :: h) :: t).
Proof.
  cbn [split_blank].
  destruct (split_blank r) as [|h t] eqn:Es;
    [exfalso; exact (split_blank_nonempty r Es)|].
  destruct (c =? 10)%N eqn:Ec.
  - apply N.eqb_eq in Ec. destruct r as [|d r'].
    + right. split; [intros r' [_ H]; discriminate|]. eauto.
    + destruct (d =? 10)%N eqn:Ed.
      * apply N.eqb_eq in Ed. subst. left. eauto.
      * apply N.eqb_neq in Ed. right.
        split; [intros r0 [_ H]; congruence|]. eauto.
  - apply N.eqb_neq in Ec. right.
    split; [intros r' [H _]; contradiction|]. eauto.
Qed.

Lemma split_blank_single_len (n : nat) :
  forall s h, (List.length s <= n)%nat -> split_blank s = [h] -> h = s.
Proof.
  induction n as [|n IH]; intros s h Hlen Hs.
  - destruct s; [|cbn in Hlen; lia]. cbn in Hs. congruence.
  - destruct s as [|c r]; [cbn in Hs; congruence|].
    cbn [List.length] in Hlen.
    destruct (split_blank_cons c r)
      as [(r' & _ & _ & E)|(_ & h0 & t & Er & E)]; rewrite E in Hs.
    + injection Hs as _ Hs. exfalso. exact (split_blank_nonempty r' Hs).
    + injection Hs as <- ->. f_equal. apply IH; [lia | exact Er].
Qed.

Lemma split_blank_single (s h : jsstring) : split_blank s = [h] -> h = s.
Proof. apply (@split_blank_single_len (List.length s)). apply Nat.le_refl. Qed.

Lemma split_blank_app_len (n : nat) :
  forall x y,
    (List.length x <= n)%nat ->
    split_blank (x ++ y)
    = removelast (split_blank x) ++ split_blank (last (split_blank x) [] ++ y).
Proof.
  induction n as [|n IH]; intros x y Hlen.
  - destruct x; [reflexivity | cbn in Hlen; lia].
  - destruct x as [|c r]; [reflexivity|].
    cbn [List.length] in Hlen.
    destruct (split_blank (c :: r)) as [|h0 [|h1 t0]] eqn:Ewhole.
    + exfalso. exact (split_blank_nonempty _ Ewhole).
    + apply split_blank_single in Ewhole. subst h0. reflexivity.
    + destruct (split_blank_cons c r)
        as [(r' & -> & -> & E)|(Hno & h & t & Er & E)];
        rewrite E in Ewhole.
      * injection Ewhole as <- Et.
        change ((10%N :: 10%N :: r') ++ y) with (10%N :: 10%N :: (r' ++ y)).
        assert (E2 : split_blank (10%N :: 10%N :: (r' ++ y))
                     = [] :: split_blank (r' ++ y)) by reflexivity.
        rewrite E2, (IH r' y ltac:(cbn [List.length] in Hlen; lia)), Et.
        reflexivity.
      * injection Ewhole as <- Et. subst t.
        assert (Hstep : split_blank ((c :: r) ++ y)
                        = match split_blank (r ++ y) with
                          | a :: b => (c :: a) :: b
                          | [] => [[c]]
                          end).
        { cbn [app].
          destruct (split_blank_cons c (r ++ y))
            as [(r' & Hc & Hr & _)|(_ & a & b & Ea & Eb)].
          - exfalso. destruct r as [|d r0].
            + cbn in Er. discriminate.
            + cbn [app] in Hr. injection Hr as Hd _.
              apply (Hno r0). subst. split; reflexivity.
          - rewrite Eb, Ea. reflexivity. }
        rewrite Hstep, (IH r y ltac:(lia)), Er.
        cbn [removelast last app]. reflexivity.
Qed.

Lemma split_blank_app (x y : jsstring) :
  split_blank (x ++ y)
  = removelast (split_blank x) ++ split_blank (last (split_blank x) [] ++ y).
Proof. apply (@split_blank_app_len (List.length x)). apply Nat.le_refl. Qed.

Lemma split_blank_last_whole (s : jsstring) :
  split_blank (last (split_blank s) []) = [last (split_blank s) []].
Proof.
  pose proof (split_blank_app s []) as H. rewrite app_nil_r in H.
  assert (Hne : split_blank (last (split_blank s) []) <> [])
    by apply split_blank_nonempty.
  destruct (split_blank (last (split_blank s) [])) as [|a [|b t]] eqn:E;
    [contradiction | |].
  - apply split_blank_single in E. subst a. reflexivity.
  - exfalso.
    assert (Hlen : List.length (split_blank s)
                   = (List.length (removelast (split_blank s))
                      + List.length (a :: b :: t))%nat).
    { rewrite H at 1. rewrite length_app, app_nil_r, E. reflexivity. }
    assert (Hrl : forall (l : list jsstring), l <> [] ->
              List.length l = S (List.length (removelast l))).
    { induction l as [|x l IHl]; intro Hl; [contradiction|].
      destruct l as [|x' l']; [reflexivity|].
      change (removelast (x :: x' :: l')) with (x :: removelast (x' :: l')).
      cbn [List.length]. rewrite <- IHl by discriminate. reflexivity. }
    rewrite (Hrl _ (split_blank_nonempty s)) in Hlen. cbn in Hlen. lia.
Qed.

Lemma processLines_app (a b : list jsstring) :
  forall state,
    processLines state (a ++ b)
    = match processLines state a with
      | Normal s => processLines s b
      | Throw e => Throw e
      end.
Proof.
  induction a as [|line a IH]; intro state; [reflexivity|].
  cbn [app processLines].
  destruct (processLine state line) as [s|e]; [apply IH | reflexivity].
Qed.

Lemma removelast_app_nonempty {A} (l1 l2 : list A) :
  l2 <> [] -> removelast (l1 ++ l2) = l1 ++ removelast l2.
Proof. intro H. apply removelast_app. exact H. Qed.

Lemma client_readLoop_lines (pieces : list jsstring) :
  forall buffer state,
    split_blank buffer = [buffer] ->
    readLoop pieces buffer state
    = processLines state
        (removelast (split_blank (buffer ++ List.concat pieces))).
Proof.
  induction pieces as [|piece rest IH]; intros buffer state Hb.
  - cbn [readLoop List.concat]. rewrite app_nil_r, Hb. reflexivity.
  - cbn [readLoop List.concat].
    rewrite app_assoc, (split_blank_app (buffer ++ piece) (List.concat rest)).
    rewrite removelast_app_nonempty by apply split_blank_nonempty.
    rewrite processLines_app.
    destruct (processLines state (removelast (split_blank (buffer ++ piece))))
      as [s|e]; [|reflexivity].
    apply IH. apply split_blank_last_whole.
Qed.

Lemma split_blank_frame (body rest : jsstring) :
  ~ In 10%N body ->
  split_blank (body ++ 10%N :: 10%N :: rest) = body :: split_blank rest.
Proof.
  induction body as [|c body IH]; intro Hno; [reflexivity|].
  assert (Hc : (c =? 10)%N = false).
  { apply N.eqb_neq. intro E. apply Hno. left. exact E. }
  cbn [app split_blank]. rewrite Hc.
  rewrite IH; [reflexivity|]. intro H. apply Hno. right. exact H.
Qed.

Lemma message_no_line_feed (d : JsonText.data) :
  ~ In 10%N (str "data: " ++ JsonText.JSON_stringify d).
Proof.
  intro H. apply in_app_or in H. destruct H as [H|H].
  - cbn in H. intuition discriminate.
  - pose proof (JSON_stringify_printable d) as Hp.
    rewrite Forall_forall in Hp. specialize (Hp _ H). lia.
Qed.

Lemma split_blank_messages (ds : list JsonText.data) :
  split_blank (List.concat (List.map AgentRaceWire.sendSSEMessage ds))
  = List.map (fun d => str "data: " ++ JsonText.JSON_stringify d) ds ++ [[]].
Proof.
  induction ds as [|d ds IH]; [reflexivity|].
  cbn [List.map List.concat]. unfold AgentRaceWire.sendSSEMessage at 1.
  rewrite <- !app_assoc. cbn [app].
  rewrite app_assoc, split_blank_frame by apply message_no_line_feed.
  rewrite IH. reflexivity.
Qed.

Lemma processLine_message (state : AgentRaceState) (d : JsonText.data) :
  plain_integers d ->
  processLine state (str "data: " ++ JsonText.JSON_stringify d)
  = updater state (JsonText.to_value d).
Proof.
  intro Hplain. unfold processLine.
  rewrite startsWith_app. cbn [negb].
  change (skipn 6 (str "data: " ++ JsonText.JSON_stringify d))
    with (JsonText.JSON_stringify d).
  rewrite (@JSON_round_trip d Hplain). reflexivity.
Qed.

Lemma strictEquals_int (a k : Z) :
  strictEquals a (Some (JNumber (inject_Z k))) = (a =? k)%Z.
Proof.
  unfold strictEquals.
  destruct (Z.eqb_spec a k) as [->|Hne].
  - apply Qeq_bool_iff. reflexivity.
  - destruct (Qeq_bool (inject_Z k) (inject_Z a)) eqn:E; [|reflexivity].
    apply Qeq_bool_iff in E. unfold Qeq, inject_Z in E. cbn in E. lia.
Qed.

Ltac eval_lookups :=
  repeat match goal with
         | |- context [lookup ?k ?m] =>
             let v := eval vm_compute in (lookup k m) in
             change (lookup k m) with v
         end.

Lemma updater_event (state : AgentRaceState) (e : AgentRaceRoute.event) :
  updater state (JsonText.to_value (AgentRaceWire.eventData e))
  = Normal (applyEvent state e).
Proof.
  destruct e as [k nm|k nm l p|k nm msg|total err];
    unfold updater;
    cbn [AgentRaceWire.eventData JsonText.to_value List.map fst snd get_prop];
    eval_lookups; cbn [truthy_opt truthy]; cbv iota.
  - unfold applyEvent. f_equal. f_equal. apply map_ext. intro s.
    change (k # 1) with (inject_Z k). rewrite strictEquals_int. reflexivity.
  - unfold applyEvent. f_equal. f_equal. apply map_ext. intro s.
    change (k # 1) with (inject_Z k). rewrite strictEquals_int. reflexivity.
  - unfold applyEvent. f_equal. f_equal. apply map_ext. intro s.
    change (k # 1) with (inject_Z k). rewrite strictEquals_int. reflexivity.
  - reflexivity.
Qed.

Lemma processLines_messages (ds : list JsonText.data)
  (events : list AgentRaceRoute.event) :
  ds = List.map AgentRaceWire.eventData events ->
  Forall plain_integers ds ->
  forall state,
    processLines state
      (List.map (fun d => str "data: " ++ JsonText.JSON_stringify d) ds)
    = Normal (fold_left applyEvent events state).
Proof.
  intros -> Hplain. induction events as [|e events IH]; intro state;
    [reflexivity|].
  cbn [List.map] in Hplain. inversion Hplain as [|? ? Hp Hps]; subst.
  cbn [List.map processLines fold_left].
  rewrite (@processLine_message state _ Hp), updater_event.
  apply IH. exact Hps.
Qed.

Lemma runSteps_enqueues (clock : nat -> Q)
  (callProvider : nat -> jsstring -> jsstring -> Z
                  -> AgentRaceRoute.call_outcome)
  (provider0 company : jsstring) (steps : list AgentRaceRoute.step) :
  forall i prev total n,
    fst (fst (fst (AgentRaceRoute.runSteps clock callProvider provider0
                     company steps i prev total n)))
    = List.map AgentRaceRoute.Enqueue
        (eventsOf
           (fst (fst (fst (AgentRaceRoute.runSteps clock callProvider
                             provider0 company steps i prev total n))))).
Proof.
  induction steps as [|s rest IH]; intros i prev total n; [reflexivity|].
  cbn [AgentRaceRoute.runSteps].
  unfold Oracle.bind, Oracle.ret, now, Oracle.next. cbn [fst snd].
  destruct (callProvider i provider0 _ _) as [c|e]; [|reflexivity].
  specialize (IH (S i) c
                (total + Math_round (clock (S n) - clock n))%Z (S (S n))).
  destruct (AgentRaceRoute.runSteps clock callProvider provider0 company rest
              (S i) c (total + Math_round (clock (S n) - clock n))%Z
              (S (S n))) as [[[acts t] err] n'].
  cbn [fst] in *. cbn [eventsOf flat_map app List.map].
  f_equal. f_equal. exact IH.
Qed.

Lemma start_enqueues (clock : nat -> Q)
  (callProvider : nat -> jsstring -> jsstring -> Z
                  -> AgentRaceRoute.call_outcome)
  (provider0 company : jsstring) (n : nat) :
  let actions :=
    fst (AgentRaceRoute.start clock callProvider provider0 company n) in
  actions = List.map AgentRaceRoute.Enqueue (eventsOf actions)
            ++ [AgentRaceRoute.Close]
  /\ AgentRaceWire.enqueued actions
     = List.map AgentRaceWire.sendSSEMessage
         (List.map AgentRaceWire.eventData (eventsOf actions)).
Proof.
  cbv zeta. unfold AgentRaceRoute.start, Oracle.bind, Oracle.ret.
  pose proof (runSteps_enqueues clock callProvider provider0 company
                AgentRaceRoute.STEPS 0 company 0 n) as Hbody.
  destruct (AgentRaceRoute.runSteps clock callProvider provider0 company
              AgentRaceRoute.STEPS 0 company 0 n) as [[[body total] err] n'].
  cbn [fst] in *.
  assert (Hev : eventsOf (body ++ [AgentRaceRoute.Enqueue
                                     (AgentRaceRoute.StreamComplete total err);
                                   AgentRaceRoute.Close])
                = eventsOf body ++ [AgentRaceRoute.StreamComplete total err]).
  { unfold eventsOf. rewrite flat_map_app. reflexivity. }
  rewrite Hev. split.
  - rewrite map_app, <- app_assoc, <- Hbody. reflexivity.
  - rewrite Hbody at 1. generalize (eventsOf body) as evs.
    induction evs as [|e evs IH]; [reflexivity|].
    cbn [List.map app AgentRaceWire.enqueued]. f_equal. exact IH.
Qed.

Lemma client_reads_events (clock : nat -> Q)
  (callProvider : nat -> jsstring -> jsstring -> Z
                  -> AgentRaceRoute.call_outcome)
  (provider0 company : jsstring) (n : nat) (pieces : list jsstring) :
  let actions :=
    fst (AgentRaceRoute.start clock callProvider provider0 company n) in
  Forall plain_event actions ->
  List.concat pieces = List.concat (AgentRaceWire.enqueued actions) ->
  forall state,
    readLoop pieces [] state
    = Normal (fold_left applyEvent (eventsOf actions) state).
Proof.
  intros actions Hplain Hpieces state.
  destruct (start_enqueues clock callProvider provider0 company n)
    as [Hshape Henq].
  fold actions in Hshape, Henq.
  rewrite client_readLoop_lines by reflexivity.
  cbn [app]. rewrite Hpieces, Henq, split_blank_messages.
  rewrite removelast_last.
  apply processLines_messages; [reflexivity|].
  apply Forall_forall. intros d Hd. apply in_map_iff in Hd.
  destruct Hd as (e & <- & He).
  rewrite Forall_forall in Hplain.
  apply (Hplain (AgentRaceRoute.Enqueue e)).
  rewrite Hshape. apply in_or_app. left. apply in_map. exact He.
Qed.

(** X23. The messages of a race reach the page as the handler sent them.
    The handler enqueues one message per event and then closes; whatever
    the cuts between the reads of the response body, the reader of the
    page finds each message, parses it back to the data of its event and
    applies the events in order, so that the state after the stream is
    the state after the events; the race promise reports success. The
    integers of the events are taken to be below 10^21 in magnitude. *)
Theorem agent_race_wire (clock : nat -> Q)
  (callProvider : nat -> jsstring -> jsstring -> Z
                  -> AgentRaceRoute.call_outcome)
  (provider0 company : jsstring) (n : nat) (pieces : list jsstring)
  (state : AgentRaceState) :
  let actions :=
    fst (AgentRaceRoute.start clock callProvider provider0 company n) in
  Forall plain_event actions ->
  List.concat pieces = List.concat (AgentRaceWire.enqueued actions) ->
  actions = List.map AgentRaceRoute.Enqueue (eventsOf actions)
            ++ [AgentRaceRoute.Close]
  /\ AgentRaceWire.enqueued actions
     = List.map (fun e => str "data: "
                          ++ JsonText.JSON_stringify
                               (AgentRaceWire.eventData e)
                          ++ [10%N; 10%N])
         (eventsOf actions)
  /\ readLoop pieces [] state
     = Normal (fold_left applyEvent (eventsOf actions) state)
  /\ race (FetchResolves true 200 (Some (pieces, StreamReader.ReadDone)))
     = Normal (fold_left applyEvent (eventsOf actions) initialState, true).
Proof.
  intros actions Hplain Hpieces.
  destruct (start_enqueues clock callProvider provider0 company n)
    as [Hshape Henq].
  fold actions in Hshape, Henq.
  split; [exact Hshape|]. split.
  { rewrite Henq, map_map. reflexivity. }
  split; [apply client_reads_events; assumption|].
  unfold race. cbn [negb].
  rewrite (@client_reads_events clock callProvider provider0 company n pieces
             Hplain Hpieces).
  reflexivity.
Qed.

End AgentRaceWireFacts.

(** A race whose first call fails, read in one piece. *)
Lemma agent_race_wire_witness :
  let failing := fun (_ : nat) (_ _ : jsstring) (_ : Z) =>
    AgentRaceRoute.CallThrows (ThrownError (str "GROQ_API_KEY not configured"))
  in
  let actions :=
    fst (AgentRaceRoute.start (fun _ => 0) failing (str "groq") (str "Acme")
           0%nat) in
  RaceClient.race
    (RaceClient.FetchResolves true 200
       (Some ([List.concat (AgentRaceWire.enqueued actions)],
              StreamReader.ReadDone)))
  = Normal (fold_left applyEvent (eventsOf actions) RaceClient.initialState,
            true).
Proof.
  intros failing actions.
  destruct (@agent_race_wire (fun _ => 0) failing (str "groq") (str "Acme")
              0%nat [List.concat (AgentRaceWire.enqueued actions)]
              RaceClient.initialState) as (_ & _ & _ & H).
  - apply Forall_forall. intros a Ha. vm_compute in Ha.
    repeat (destruct Ha as [<-|Ha];
            [vm_compute; repeat split; reflexivity|]).
    destruct Ha.
  - cbn [List.concat]. apply app_nil_r.
  - exact H.
Defined.

(** ** The events of a race and what the page shows *)

Section AgentRaceView.

Variable clock : nat -> Q.
Variable callProvider : nat -> jsstring -> jsstring -> Z
                        -> AgentRaceRoute.call_outcome.
Variable provider0 company : jsstring.

Lemma runSteps_exact_ok (steps : list AgentRaceRoute.step) :
  forall i prev total n cs,
    callTrace callProvider provider0 company steps i prev
    = List.map AgentRaceRoute.Content cs ->
    fst (AgentRaceRoute.runSteps clock callProvider provider0 company steps
           i prev total n)
    = (List.map AgentRaceRoute.Enqueue
         (completedEvents clock (List.map AgentRaceRoute.step_name steps)
            i n cs),
       (total
        + sumZ (flat_map eventLatency
                  (completedEvents clock
                     (List.map AgentRaceRoute.step_name steps) i n cs)))%Z,
       false).
Proof.
  induction steps as [|s rest IH]; intros i prev total n cs Ht.
  - destruct cs; [|discriminate]. cbn. rewrite Z.add_0_r. reflexivity.
  - cbn [callTrace] in Ht. cbn [AgentRaceRoute.runSteps].
    unfold Oracle.bind, Oracle.ret, now, Oracle.next. cbn [fst snd].
    destruct (callProvider i provider0 _ _) as [c|e].
    + destruct cs as [|c0 cs]; [discriminate|].
      cbn [List.map] in Ht. injection Ht as <- Ht.
      specialize (IH (S i) c
                    (total + Math_round (clock (S n) - clock n))%Z
                    (S (S n)) cs Ht).
      destruct (AgentRaceRoute.runSteps clock callProvider provider0 company
                  rest (S i) c
                  (total + Math_round (clock (S n) - clock n))%Z (S (S n)))
        as [[[acts t] err] n'].
      cbn [fst] in IH. injection IH as -> -> ->.
      cbn [fst List.map completedEvents flat_map eventLatency app].
      apply f_equal2; [apply f_equal2; [reflexivity|]|reflexivity].
      unfold sumZ. cbn [fold_right]. lia.
    + destruct cs; discriminate.
Qed.

Lemma runSteps_exact_fail (steps : list AgentRaceRoute.step) :
  forall i prev total n cs e,
    callTrace callProvider provider0 company steps i prev
    = List.map AgentRaceRoute.Content cs ++ [AgentRaceRoute.CallThrows e] ->
    exists name,
      nth_error (List.map AgentRaceRoute.step_name steps) (List.length cs)
      = Some name
      /\ fst (AgentRaceRoute.runSteps clock callProvider provider0 company
                steps i prev total n)
         = (List.map AgentRaceRoute.Enqueue
              (completedEvents clock
                 (List.map AgentRaceRoute.step_name steps) i n cs
               ++ [ AgentRaceRoute.StepRunning
                      (Z.of_nat (i + List.length cs + 1)) name;
                    AgentRaceRoute.StepError
                      (Z.of_nat (i + List.length cs + 1)) name
                      (AgentRaceRoute.stepErrorMessage e) ]),
            (total
             + sumZ (flat_map eventLatency
                       (completedEvents clock
                          (List.map AgentRaceRoute.step_name steps) i n cs)))%Z,
            true).
Proof.
  induction steps as [|s rest IH]; intros i prev total n cs e Ht.
  - destruct cs; discriminate.
  - cbn [callTrace] in Ht. cbn [AgentRaceRoute.runSteps].
    unfold Oracle.bind, Oracle.ret, now, Oracle.next. cbn [fst snd].
    destruct (callProvider i provider0 _ _) as [c|e'].
    + destruct cs as [|c0 cs]; [discriminate|].
      cbn [List.map app] in Ht. injection Ht as <- Ht.
      destruct (IH (S i) c
                  (total + Math_round (clock (S n) - clock n))%Z
                  (S (S n)) cs e Ht) as (name & Hname & Hrun).
      exists name. split; [exact Hname|].
      destruct (AgentRaceRoute.runSteps clock callProvider provider0 company
                  rest (S i) c
                  (total + Math_round (clock (S n) - clock n))%Z (S (S n)))
        as [[[acts t] err] n'].
      cbn [fst] in Hrun. injection Hrun as -> -> ->.
      cbn [fst List.map completedEvents flat_map eventLatency app List.length].
      replace (i + S (List.length cs) + 1)%nat
        with (S i + List.length cs + 1)%nat by lia.
      apply f_equal2; [apply f_equal2; [reflexivity|]|reflexivity].
      unfold sumZ. cbn [fold_right]. lia.
    + destruct cs as [|c0 cs]; [|discriminate].
      cbn [List.map app] in Ht. injection Ht as ->.
      exists (AgentRaceRoute.step_name s). split; [reflexivity|].
      cbn [List.map completedEvents flat_map app List.length].
      rewrite Nat.add_0_r. unfold sumZ. cbn [fold_right].
      rewrite Z.add_0_r. reflexivity.
Qed.

Lemma eventsOf_enqueues (evs : list AgentRaceRoute.event)
  (tail : list AgentRaceRoute.event) :
  eventsOf (List.map AgentRaceRoute.Enqueue evs
            ++ List.map AgentRaceRoute.Enqueue tail
            ++ [AgentRaceRoute.Close])
  = evs ++ tail.
Proof.
  unfold eventsOf. rewrite !flat_map_app.
  assert (H : forall l, flat_map
                          (fun a => match a with
                                    | AgentRaceRoute.Enqueue e => [e]
                                    | AgentRaceRoute.Close => []
                                    end)
                          (List.map AgentRaceRoute.Enqueue l) = l).
  { induction l as [|x l IH]; [reflexivity|]. cbn. f_equal. exact IH. }
  rewrite !H. cbn. rewrite app_nil_r. reflexivity.
Qed.

Lemma start_events (n : nat) :
  let acts :=
    fst (AgentRaceRoute.start clock callProvider provider0 company n) in
  let trace :=
    callTrace callProvider provider0 company AgentRaceRoute.STEPS 0 company in
  let names := RaceClient.AGENT_STEPS in
  (forall cs, trace = List.map AgentRaceRoute.Content cs ->
     eventsOf acts
     = completedEvents clock names 0 n cs
       ++ [AgentRaceRoute.StreamComplete
             (sumZ (flat_map eventLatency
                      (completedEvents clock names 0 n cs)))
             false])
  /\ (forall cs e,
        trace = List.map AgentRaceRoute.Content cs
                ++ [AgentRaceRoute.CallThrows e] ->
        eventsOf acts
        = completedEvents clock names 0 n cs
          ++ failedEvents names (List.length cs) e
          ++ [AgentRaceRoute.StreamComplete
                (sumZ (flat_map eventLatency
                         (completedEvents clock names 0 n cs)))
                true]
        /\ (List.length cs < 5)%nat).
Proof.
  intros acts trace names.
  assert (Hnames : List.map AgentRaceRoute.step_name AgentRaceRoute.STEPS
                   = names) by reflexivity.
  split.
  - intros cs Ht. unfold acts, AgentRaceRoute.start, Oracle.bind, Oracle.ret.
    pose proof (@runSteps_exact_ok AgentRaceRoute.STEPS 0%nat company 0%Z n
                  cs Ht) as Hrun.
    rewrite Hnames in Hrun.
    destruct (AgentRaceRoute.runSteps clock callProvider provider0 company
                AgentRaceRoute.STEPS 0 company 0 n) as [[[body t] err] n'].
    cbn [fst] in *. injection Hrun as -> -> ->.
    exact (eventsOf_enqueues (completedEvents clock names 0 n cs)
             [AgentRaceRoute.StreamComplete
                (sumZ (flat_map eventLatency
                         (completedEvents clock names 0 n cs))) false]).
  - intros cs e Ht.
    destruct (@runSteps_exact_fail AgentRaceRoute.STEPS 0%nat company 0%Z n
                cs e Ht) as (name & Hname & Hrun).
    rewrite Hnames in Hname, Hrun.
    assert (Hlen : (List.length cs < 5)%nat).
    { change 5%nat with (List.length names).
      apply (proj1 (nth_error_Some names (List.length cs))).
      rewrite Hname. discriminate. }
    split; [|exact Hlen].
    unfold acts, AgentRaceRoute.start, Oracle.bind, Oracle.ret.
    destruct (AgentRaceRoute.runSteps clock callProvider provider0 company
                AgentRaceRoute.STEPS 0 company 0 n) as [[[body t] err] n'].
    cbn [fst] in *. injection Hrun as -> -> ->.
    unfold failedEvents. rewrite Hname. cbn [Nat.add].
    etransitivity.
    + exact (eventsOf_enqueues
               (completedEvents clock names 0 n cs
                ++ [ AgentRaceRoute.StepRunning
                       (Z.of_nat (List.length cs + 1)) name;
                     AgentRaceRoute.StepError
                       (Z.of_nat (List.length cs + 1)) name
                       (AgentRaceRoute.stepErrorMessage e) ])
               [AgentRaceRoute.StreamComplete
                  (sumZ (flat_map eventLatency
                           (completedEvents clock names 0 n cs))) true]).
    + rewrite <- app_assoc. reflexivity.
Qed.

(** X24. The events of a race, in full. When all calls return, the stream
    carries, for each of the five steps in order, the running event and
    the complete event with the rounded time between the two clock
    readings around the call and the preview of the content, then the
    terminal event with the sum of these latencies and no error flag.
    When a call fails, the events of the steps before it are followed by
    the running and the error event of its step, with the message of the
    exception, and the terminal event carries the sum of the latencies of
    the completed steps and the error flag; fewer than five steps have
    completed then. *)
Theorem agent_race_events (n : nat) :
  let acts :=
    fst (AgentRaceRoute.start clock callProvider provider0 company n) in
  let trace :=
    callTrace callProvider provider0 company AgentRaceRoute.STEPS 0 company in
  let names := [str "Research"; str "Summarize"; str "Draft";
                str "Critique"; str "Revise"] in
  (forall cs, trace = List.map AgentRaceRoute.Content cs ->
     eventsOf acts
     = completedEvents clock names 0 n cs
       ++ [AgentRaceRoute.StreamComplete
             (sumZ (flat_map eventLatency
                      (completedEvents clock names 0 n cs)))
             false])
  /\ (forall cs e,
        trace = List.map AgentRaceRoute.Content cs
                ++ [AgentRaceRoute.CallThrows e] ->
        eventsOf acts
        = completedEvents clock names 0 n cs
          ++ failedEvents names (List.length cs) e
          ++ [AgentRaceRoute.StreamComplete
                (sumZ (flat_map eventLatency
                         (completedEvents clock names 0 n cs)))
                true]
        /\ (List.length cs < 5)%nat).
Proof. exact (start_events n). Qed.

(** *** The state of the page *)

Lemma map_shown_other (e : AgentRaceRoute.event) (k : Z)
  (l : list RaceClient.AgentStepStatus) :
  event_step e = Some k ->
  (forall s, In s l -> RaceClient.step s <> k) ->
  List.map (shown e) l = l.
Proof.
  intros He Hl. rewrite <- (map_id l) at 2. apply map_ext_in.
  intros s Hs. specialize (Hl s Hs). apply Z.eqb_neq in Hl.
  destruct e; cbn in He; try discriminate; injection He as <-;
    cbn [shown]; rewrite Hl; reflexivity.
Qed.

Lemma pendingSteps_above (names : list jsstring) :
  forall first s, In s (pendingSteps names first) ->
                  (Z.of_nat first < RaceClient.step s)%Z.
Proof.
  induction names as [|name names IH]; intros first s Hs; [destruct Hs|].
  cbn [pendingSteps BenchmarkRoute.mapIndexed] in Hs.
  destruct Hs as [<-|Hs]; [cbn; lia|].
  specialize (IH (S first) s Hs). lia.
Qed.

Lemma apply_step_event (e : AgentRaceRoute.event) (k : Z)
  (ss : list RaceClient.AgentStepStatus) (tl : option value) (c : bool)
  (err : option jsstring) :
  event_step e = Some k ->
  applyEvent (RaceClient.mkState ss tl c err) e
  = RaceClient.mkState (List.map (shown e) ss) tl c err.
Proof. destruct e; cbn; intro H; try discriminate; reflexivity. Qed.

(** One step on the page: the events of step [first + 1] reach the first
    pending step and no other. *)
Lemma shown_at_pending (e : AgentRaceRoute.event) (first : nat)
  (done : list RaceClient.AgentStepStatus) (name : jsstring)
  (names : list jsstring) (st : option value) (l p er : option value) :
  event_step e = Some (Z.of_nat (first + 1)) ->
  (forall s, In s done -> (RaceClient.step s <= Z.of_nat first)%Z) ->
  List.map (shown e)
    (done
     ++ RaceClient.mkStep (Z.of_nat first + 1) name st l p er
        :: pendingSteps names (S first))
  = done
    ++ shown e (RaceClient.mkStep (Z.of_nat first + 1) name st l p er)
       :: pendingSteps names (S first).
Proof.
  intros He Hdone. rewrite map_app. cbn [List.map].
  rewrite (@map_shown_other e _ done He).
  - rewrite (@map_shown_other e _ (pendingSteps names (S first)) He);
      [reflexivity|].
    intros s Hs. apply pendingSteps_above in Hs. lia.
  - intros s Hs. specialize (Hdone s Hs). lia.
Qed.

Lemma fold_completed (names : list jsstring) :
  forall first n cs done tl c err more,
    (forall s, In s done -> (RaceClient.step s <= Z.of_nat first)%Z) ->
    fold_left applyEvent (completedEvents clock names first n cs ++ more)
      (RaceClient.mkState (done ++ pendingSteps names first) tl c err)
    = fold_left applyEvent more
        (RaceClient.mkState
           ((done ++ completedSteps clock names first n cs)
            ++ pendingSteps (skipn (List.length cs) names)
                 (first + List.length cs))
           tl c err)
    /\ forall s, In s (done ++ completedSteps clock names first n cs) ->
                 (RaceClient.step s
                  <= Z.of_nat (first + List.length cs))%Z.
Proof.
  induction names as [|name names IH];
    intros first n cs done tl c err more Hdone.
  - assert (E : completedEvents clock [] first n cs = [])
      by (destruct cs; reflexivity).
    assert (E' : completedSteps clock [] first n cs = [])
      by (destruct cs; reflexivity).
    rewrite E, E', skipn_nil. cbn [app pendingSteps BenchmarkRoute.mapIndexed].
    rewrite !app_nil_r. split; [reflexivity|].
    intros s Hs. specialize (Hdone s Hs). lia.
  - destruct cs as [|content cs].
    + cbn [completedEvents completedSteps app List.length skipn].
      rewrite app_nil_r, Nat.add_0_r. split; [reflexivity|].
      intros s Hs. specialize (Hdone s Hs). lia.
    + cbn [completedEvents completedSteps app fold_left List.length skipn].
      cbn [pendingSteps BenchmarkRoute.mapIndexed].
      fold (pendingSteps names (S first)).
      rewrite (@apply_step_event _ (Z.of_nat (first + 1))) by reflexivity.
      rewrite shown_at_pending by (reflexivity || exact Hdone).
      rewrite (@apply_step_event _ (Z.of_nat (first + 1))) by reflexivity.
      assert (Erun : shown
                (AgentRaceRoute.StepRunning (Z.of_nat (first + 1)) name)
                (RaceClient.mkStep (Z.of_nat first + 1) name
                   (Some (JString (str "pending"))) None None None)
              = RaceClient.mkStep (Z.of_nat first + 1) name
                  (Some (JString (str "running"))) None None None).
      { cbn [shown RaceClient.step RaceClient.name].
        replace (Z.of_nat first + 1 =? Z.of_nat (first + 1))%Z with true
          by (symmetry; apply Z.eqb_eq; lia).
        reflexivity. }
      rewrite Erun.
      rewrite shown_at_pending by (reflexivity || exact Hdone).
      set (C := RaceClient.mkStep (Z.of_nat first + 1) name
                  (Some (JString (str "complete")))
                  (Some (JNumber (inject_Z (Math_round
                                              (clock (S n) - clock n)))))
                  (Some (JString (AgentRaceRoute.outputPreview content)))
                  None).
      assert (Ecomp : shown
                (AgentRaceRoute.StepComplete (Z.of_nat (first + 1)) name
                   (Math_round (clock (S n) - clock n))
                   (AgentRaceRoute.outputPreview content))
                (RaceClient.mkStep (Z.of_nat first + 1) name
                   (Some (JString (str "running"))) None None None)
              = C).
      { cbn [shown RaceClient.step RaceClient.name].
        replace (Z.of_nat first + 1 =? Z.of_nat (first + 1))%Z with true
          by (symmetry; apply Z.eqb_eq; lia).
        reflexivity. }
      rewrite Ecomp.
      assert (Hdone' : forall s, In s (done ++ [C]) ->
                (RaceClient.step s <= Z.of_nat (S first))%Z).
      { intros s Hs. apply in_app_or in Hs. destruct Hs as [Hs|[<-|[]]].
        - specialize (Hdone s Hs). lia.
        - cbn. lia. }
      destruct (IH (S first) (S (S n)) cs (done ++ [C]) tl c err more Hdone')
        as [Hfold Hle].
      replace (done ++ C :: pendingSteps names (S first))
        with ((done ++ [C]) ++ pendingSteps names (S first))
        by (rewrite <- app_assoc; reflexivity).
      rewrite Hfold.
      replace (first + S (List.length cs))%nat
        with (S first + List.length cs)%nat by lia.
      replace (done ++ C :: completedSteps clock names (S first) (S (S n)) cs)
        with ((done ++ [C])
              ++ completedSteps clock names (S first) (S (S n)) cs)
        by (rewrite <- app_assoc; reflexivity).
      split; [reflexivity | exact Hle].
Qed.

Lemma skipn_nth {A} (l : list A) :
  forall k x, nth_error l k = Some x -> skipn k l = x :: skipn (S k) l.
Proof.
  induction l as [|y l IH]; intros [|k] x H; try discriminate.
  - cbn in H. injection H as ->. reflexivity.
  - cbn [nth_error] in H. cbn [skipn]. rewrite (IH k x H). reflexivity.
Qed.

Lemma fold_failed (names : list jsstring) (k : nat) (e : thrown)
  (done : list RaceClient.AgentStepStatus) (tl : option value) (c : bool)
  (err : option jsstring) (more : list AgentRaceRoute.event) :
  (k < List.length names)%nat ->
  (forall s, In s done -> (RaceClient.step s <= Z.of_nat k)%Z) ->
  fold_left applyEvent (failedEvents names k e ++ more)
    (RaceClient.mkState (done ++ pendingSteps (skipn k names) k) tl c err)
  = fold_left applyEvent more
      (RaceClient.mkState
         (done ++ failedSteps names k e
          ++ pendingSteps (skipn (S k) names) (S k))
         tl c err).
Proof.
  intros Hk Hdone.
  destruct (nth_error names k) as [name|] eqn:Hname;
    [|apply nth_error_None in Hname; lia].
  unfold failedEvents, failedSteps. rewrite Hname.
  rewrite (skipn_nth names k Hname).
  cbn [app fold_left pendingSteps BenchmarkRoute.mapIndexed].
  fold (pendingSteps (skipn (S k) names) (S k)).
  rewrite (@apply_step_event _ (Z.of_nat (k + 1))) by reflexivity.
  rewrite shown_at_pending by (reflexivity || exact Hdone).
  rewrite (@apply_step_event _ (Z.of_nat (k + 1))) by reflexivity.
  assert (Erun : shown (AgentRaceRoute.StepRunning (Z.of_nat (k + 1)) name)
                   (RaceClient.mkStep (Z.of_nat k + 1) name
                      (Some (JString (str "pending"))) None None None)
                 = RaceClient.mkStep (Z.of_nat k + 1) name
                     (Some (JString (str "running"))) None None None).
  { cbn [shown RaceClient.step RaceClient.name].
    replace (Z.of_nat k + 1 =? Z.of_nat (k + 1))%Z with true
      by (symmetry; apply Z.eqb_eq; lia).
    reflexivity. }
  rewrite Erun.
  rewrite shown_at_pending by (reflexivity || exact Hdone).
  cbn [shown RaceClient.step RaceClient.name].
  replace (Z.of_nat k + 1 =? Z.of_nat (k + 1))%Z with true
    by (symmetry; apply Z.eqb_eq; lia).
  reflexivity.
Qed.

(** X25. What the page shows after a race. The stream of the handler, in any
    cut, leaves the page with the race marked complete, no error of the
    transport, and the total latency of the terminal event, which is the
    sum of the latencies shown. When all calls return, every step is
    shown complete, with its latency and preview. When a call fails, the
    steps before it are shown complete, its step is shown in error with
    the message of the exception, and the steps after it stay pending.
    The integers of the events are taken to be below 10^21 in
    magnitude. *)
Theorem race_page_view (n : nat) (pieces cs : list jsstring) :
  let acts :=
    fst (AgentRaceRoute.start clock callProvider provider0 company n) in
  let trace :=
    callTrace callProvider provider0 company AgentRaceRoute.STEPS 0 company in
  let names := RaceClient.AGENT_STEPS in
  let total :=
    sumZ (flat_map eventLatency (completedEvents clock names 0 n cs)) in
  let page :=
    RaceClient.race
      (RaceClient.FetchResolves true 200
         (Some (pieces, StreamReader.ReadDone))) in
  Forall plain_event acts ->
  List.concat pieces = List.concat (AgentRaceWire.enqueued acts) ->
  (trace = List.map AgentRaceRoute.Content cs ->
   page = Normal
            (RaceClient.mkState (completedSteps clock names 0 n cs)
               (Some (JNumber (inject_Z total))) true None,
             true)
   /\ List.length (completedSteps clock names 0 n cs) = 5%nat)
  /\ (forall e,
        trace = List.map AgentRaceRoute.Content cs
                ++ [AgentRaceRoute.CallThrows e] ->
        page = Normal
                 (RaceClient.mkState
                    (completedSteps clock names 0 n cs
                     ++ failedSteps names (List.length cs) e
                     ++ pendingSteps (skipn (S (List.length cs)) names)
                          (S (List.length cs)))
                    (Some (JNumber (inject_Z total))) true None,
                  true)).
Proof.
  intros acts trace names total page Hplain Hpieces.
  assert (Hpage : page
            = Normal (fold_left applyEvent (eventsOf acts)
                        RaceClient.initialState, true)).
  { unfold page, RaceClient.race. cbn [negb].
    rewrite (@client_reads_events clock callProvider provider0 company n
               pieces Hplain Hpieces).
    reflexivity. }
  destruct (start_events n) as [Hok Hfail].
  fold acts trace in Hok, Hfail.
  assert (Hinit : RaceClient.initialState
                  = RaceClient.mkState ([] ++ pendingSteps names 0)
                      (Some (JNumber 0)) false None) by reflexivity.
  split.
  - intro Ht. rewrite Hpage, (Hok cs Ht), Hinit.
    destruct (@fold_completed names 0%nat n cs [] (Some (JNumber 0)) false
                None
                [AgentRaceRoute.StreamComplete total false]
                ltac:(intros s [])) as [Hfold _].
    fold names total. rewrite Hfold.
    assert (Hlen : List.length cs = 5%nat).
    { destruct (callTrace_shape callProvider provider0 company
                  AgentRaceRoute.STEPS 0 company)
        as [(cs' & Ht' & Hl)|(cs' & e' & Ht' & _)].
      - fold trace in Ht'. rewrite Ht in Ht'.
        apply map_Content_inj in Ht'. subst cs'. exact Hl.
      - exfalso. fold trace in Ht'. rewrite Ht in Ht'.
        eapply map_Content_no_throw. exact Ht'. }
    assert (Hskip : skipn (List.length cs) names = []).
    { rewrite Hlen. reflexivity. }
    rewrite Hskip. cbn [pendingSteps BenchmarkRoute.mapIndexed app].
    rewrite app_nil_r. cbn [fold_left applyEvent RaceClient.steps
                            RaceClient.race_error].
    split; [reflexivity|].
    destruct cs as [|c1 [|c2 [|c3 [|c4 [|c5 [|c6 cs]]]]]];
      try discriminate Hlen. reflexivity.
  - intros e Ht. destruct (Hfail cs e Ht) as [Hev Hlen].
    rewrite Hpage, Hev, Hinit.
    destruct (@fold_completed names 0%nat n cs [] (Some (JNumber 0)) false
                None
                (failedEvents names (List.length cs) e
                 ++ [AgentRaceRoute.StreamComplete total true])
                ltac:(intros s [])) as [Hfold Hle].
    fold names total. rewrite Hfold. cbn [app Nat.add] in Hle |- *.
    rewrite (@fold_failed names (List.length cs) e
               (completedSteps clock names 0 n cs) (Some (JNumber 0)) false
               None [AgentRaceRoute.StreamComplete total true]
               Hlen Hle).
    reflexivity.
Qed.

End AgentRaceView.

(** A race whose first call fails, read in one piece: the first step is
    shown in error and the other four stay pending. *)
Lemma race_page_view_witness :
  let failing := fun (_ : nat) (_ _ : jsstring) (_ : Z) =>
    AgentRaceRoute.CallThrows (ThrownError (str "GROQ_API_KEY not configured"))
  in
  let acts :=
    fst (AgentRaceRoute.start (fun _ => 0) failing (str "groq") (str "Acme")
           0%nat) in
  RaceClient.race
    (RaceClient.FetchResolves true 200
       (Some ([List.concat (AgentRaceWire.enqueued acts)],
              StreamReader.ReadDone)))
  = Normal
      (RaceClient.mkState
         (failedSteps RaceClient.AGENT_STEPS 0
            (ThrownError (str "GROQ_API_KEY not configured"))
          ++ pendingSteps (skipn 1 RaceClient.AGENT_STEPS) 1)
         (Some (JNumber 0)) true None,
       true).
Proof.
  intros failing acts.
  destruct (@race_page_view (fun _ => 0) failing (str "groq") (str "Acme")
              0%nat [List.concat (AgentRaceWire.enqueued acts)] [])
    as [_ H].
  - apply Forall_forall. intros a Ha. vm_compute in Ha.
    repeat (destruct Ha as [<-|Ha];
            [vm_compute; repeat split; reflexivity|]).
    destruct Ha.
  - cbn [List.concat]. apply app_nil_r.
  - exact (H (ThrownError (str "GROQ_API_KEY not configured")) eq_refl).
Defined.

(** ** The start of a race from the page *)

Section RacePageFacts.

Lemma raceSelectionAfter_invariant (toggles : list jsstring) :
  Forall (fun id => In id RacePage.AGENT_PROVIDERS) toggles ->
  NoDup (raceSelectionAfter toggles)
  /\ incl (raceSelectionAfter toggles) RacePage.AGENT_PROVIDERS.
Proof.
  intro Hall. unfold raceSelectionAfter.
  apply (@toggles_invariant RacePage.AGENT_PROVIDERS toggles);
    [| |exact Hall].
  - repeat constructor; cbn; intuition discriminate.
  - intros x [<-|[<-|[]]]; cbn; auto.
Qed.

(** X26. A race started from the page. [runAgentRace] sends nothing when no
    provider is selected or the company name is blank; otherwise it sends
    one request per selected provider, with the trimmed company name. For
    a selection made with the provider buttons no provider is raced twice,
    and the handler accepts every request: it answers none of them with
    status 400 or 500 and streams the events of a race of that provider
    for that company. *)
Theorem ui_agent_race_run (toggles : list jsstring) (companyName : jsstring)
  (clock : nat -> Q)
  (callProvider : nat -> jsstring -> jsstring -> Z
                  -> AgentRaceRoute.call_outcome)
  (n : nat) :
  Forall (fun id => In id RacePage.AGENT_PROVIDERS) toggles ->
  let selected := raceSelectionAfter toggles in
  let sent := RacePage.runAgentRace selected companyName in
  NoDup selected
  /\ (sent = [] <-> selected = [] \/ trim companyName = [])
  /\ (sent <> [] ->
      List.map AgentRaceRoute.req_provider sent = List.map Some selected)
  /\ (forall body, In body sent ->
        exists provider,
          In provider selected
          /\ body = AgentRaceRoute.mkBody (Some provider)
                      (Some (trim companyName))
          /\ fst (AgentRaceRoute.POST clock callProvider (Normal body) n)
             = AgentRaceRoute.EventStream
                 (fst (AgentRaceRoute.start clock callProvider provider
                         (trim companyName) n))).
Proof.
  intros Htoggles selected sent.
  destruct (raceSelectionAfter_invariant Htoggles) as [Hnd Hincl].
  fold selected in Hnd, Hincl.
  split; [exact Hnd|].
  unfold sent, RacePage.runAgentRace.
  destruct selected as [|p ps] eqn:Esel.
  { cbn. split; [tauto|]. split; [intro H; contradiction|].
    intros body []. }
  cbn [List.length Nat.eqb orb].
  destruct (trim companyName) as [|c r] eqn:Etrim.
  { cbn. split; [tauto|]. split; [intro H; contradiction|].
    intros body []. }
  cbn [truthy_str negb].
  split.
  { split; [discriminate|]. intros [H|H]; discriminate. }
  split.
  { intros _. rewrite map_map. reflexivity. }
  intros body Hbody. apply in_map_iff in Hbody.
  destruct Hbody as (provider & <- & Hp).
  exists provider. split; [exact Hp|]. split; [reflexivity|].
  assert (Hknown : AgentRaceRoute.knownProvider provider = true).
  { specialize (Hincl provider Hp).
    destruct Hincl as [<-|[<-|[<-|[]]]]; reflexivity. }
  assert (Htruthy : truthy_str provider = true).
  { destruct provider; [discriminate Hknown | reflexivity]. }
  unfold AgentRaceRoute.POST.
  cbn [AgentRaceRoute.req_provider AgentRaceRoute.req_company].
  rewrite Htruthy, Hknown. cbn [negb orb truthy_str].
  unfold Oracle.bind, Oracle.ret.
  destruct (AgentRaceRoute.start clock callProvider provider (c :: r) n).
  reflexivity.
Qed.

End RacePageFacts.

(** The initial selection, with a company name. *)
Lemma ui_agent_race_run_witness :
  NoDup (raceSelectionAfter [])
  /\ List.length (RacePage.runAgentRace (raceSelectionAfter [])
                    (str " Acme ")) = 2%nat.
Proof.
  destruct (@ui_agent_race_run [] (str " Acme ") (fun _ => 0)
              (fun _ _ _ _ => AgentRaceRoute.Content []) 0%nat)
    as (Hnd & _).
  - constructor.
  - split; [exact Hnd | reflexivity].
Defined.
